(** * Lead tracker: import and aggregation engine

    A shallow embedding of the pure core of [App.tsx] (the lead-tracking
    dashboard): the currency and reply-time parsers, the tabular reader
    [csvToMatrix], the scorecard transformer [parseScorecardToLeads], the
    row mapper [normalizeImportedLead], the import and save handlers, and
    the aggregations [stats], [monthWeeks] and [weekly].

    Conventions of the embedding.
    - A JavaScript string is a [string]: each [ascii] stands for one UTF-16
      code unit in the range U+0000..U+00FF.  Strings holding other code
      units are outside the model.
    - A JavaScript number is a [number]: an IEEE-754 binary64 value with
      round-to-nearest-even arithmetic.  The two zeros are identified
      (they are [===] in the source language).
    - Counters that the source increments by one per array element are
      integers ([Z]); arrays are shorter than 2^32, where binary64
      counting is exact.
    - The document store is an explicit state threaded through the
      handlers. *)

From Stdlib Require Import ZArith Lia List String Ascii Bool DecimalString.
From Stdlib Require DecimalPos.
From stdpp Require Import base gmap strings list.

Local Open Scope Z_scope.

(* ================================================================== *)
(** ** Numbers: binary64 with round-to-nearest-even *)
(* ================================================================== *)

Module Num.

(** Every finite binary64 value is an integer multiple of 2^-1074, the
    least subnormal.  [Fin n] is the value [n * 2^-1074]. *)
Inductive number : Set :=
| NaN : number
| PInf : number
| NInf : number
| Fin (n : Z) : number.

Definition number_eq_dec (x y : number) : {x = y} + {x <> y}.
Proof. decide equality; apply Z.eq_dec. Defined.

Definition ulp_exp : Z := 1074.
Definition unit_scale : Z := 2 ^ ulp_exp.
Definition precision : Z := 53.
(** First magnitude, in units, that is no longer finite: 2^1024. *)
Definition overflow_units : Z := 2 ^ 2098.

(** [rne a b]: the integer nearest to [a / b] ([0 < b]), ties to even. *)
Definition rne (a b : Z) : Z :=
  let q := a / b in
  let r := a mod b in
  match 2 * r ?= b with
  | Lt => q
  | Gt => q + 1
  | Eq => if Z.even q then q else q + 1
  end.

(** Number of low bits dropped when the magnitude [m] (in units) is
    rounded to 53 significant bits. *)
Definition round_shift (m : Z) : Z := Z.max 0 (Z.log2 m + 1 - precision).

(** [round_units a b]: the binary64 value nearest to [a / b] units
    ([0 < b]). *)
Definition round_units (a b : Z) : number :=
  let s := round_shift (Z.abs a / b) in
  let r := rne a (b * 2 ^ s) * 2 ^ s in
  if overflow_units <=? r then PInf
  else if r <=? - overflow_units then NInf
  else Fin r.

Definition of_Z (z : Z) : number := round_units (z * unit_scale) 1.

(** The value [d * 10^e]. *)
Definition of_decimal (d e : Z) : number :=
  if 0 <=? e then round_units (d * 10 ^ e * unit_scale) 1
  else round_units (d * unit_scale) (10 ^ (- e)).

Definition zero : number := Fin 0.

Definition isFinite (x : number) : bool :=
  match x with Fin _ => true | _ => false end.

Definition isNaN (x : number) : bool :=
  match x with NaN => true | _ => false end.

(** Truthiness of a number: neither zero nor NaN. *)
Definition truthy (x : number) : bool :=
  match x with
  | NaN => false
  | Fin n => negb (n =? 0)
  | _ => true
  end.

Definition neg (x : number) : number :=
  match x with
  | NaN => NaN
  | PInf => NInf
  | NInf => PInf
  | Fin n => Fin (- n)
  end.

Definition add (x y : number) : number :=
  match x, y with
  | NaN, _ | _, NaN => NaN
  | PInf, NInf | NInf, PInf => NaN
  | PInf, _ | _, PInf => PInf
  | NInf, _ | _, NInf => NInf
  | Fin a, Fin b => round_units (a + b) 1
  end.

Definition sub (x y : number) : number := add x (neg y).

Definition mul (x y : number) : number :=
  match x, y with
  | NaN, _ | _, NaN => NaN
  | Fin a, Fin b => round_units (a * b) unit_scale
  | Fin a, PInf | PInf, Fin a =>
      if a =? 0 then NaN else if 0 <? a then PInf else NInf
  | Fin a, NInf | NInf, Fin a =>
      if a =? 0 then NaN else if 0 <? a then NInf else PInf
  | PInf, PInf | NInf, NInf => PInf
  | PInf, NInf | NInf, PInf => NInf
  end.

Definition div (x y : number) : number :=
  match x, y with
  | NaN, _ | _, NaN => NaN
  | Fin a, Fin b =>
      if b =? 0 then
        (if a =? 0 then NaN else if 0 <? a then PInf else NInf)
      else round_units (a * unit_scale * Z.sgn b) (Z.abs b)
  | Fin _, _ => zero
  | PInf, Fin b => if 0 <=? b then PInf else NInf
  | NInf, Fin b => if 0 <=? b then NInf else PInf
  | _, _ => NaN
  end.

(** Comparisons; every comparison with NaN is false. *)
Definition ltb (x y : number) : bool :=
  match x, y with
  | NaN, _ | _, NaN => false
  | _, NInf => false
  | NInf, _ => true
  | PInf, _ => false
  | _, PInf => true
  | Fin a, Fin b => a <? b
  end.

Definition leb (x y : number) : bool :=
  match x, y with
  | NaN, _ | _, NaN => false
  | NInf, _ => true
  | _, NInf => false
  | _, PInf => true
  | PInf, _ => false
  | Fin a, Fin b => a <=? b
  end.

Definition gtb (x y : number) : bool := ltb y x.
Definition geb (x y : number) : bool := leb y x.

(** [ToIntegerOrInfinity] on a finite value: truncation toward zero. *)
Definition trunc (n : Z) : Z := Z.quot n unit_scale.

End Num.

Export Num(number).

(* ================================================================== *)
(** ** Strings: the string methods and regular expressions used *)
(* ================================================================== *)

Module Str.

Local Open Scope string_scope.
Local Open Scope Z_scope.

Definition code (c : ascii) : Z := Z.of_N (N_of_ascii c).

Definition isDigit (c : ascii) : bool := (48 <=? code c) && (code c <=? 57).

(** ASCII letters: what [[A-Z]] matches under the [i] flag. *)
Definition isLetter (c : ascii) : bool :=
  ((65 <=? code c) && (code c <=? 90)) || ((97 <=? code c) && (code c <=? 122)).

(** White space and line terminators below U+0100: TAB, LF, VT, FF, CR,
    SP and NBSP.  This is the set of [trim], of [\s] and of the
    string-to-number conversion. *)
Definition isSpace (c : ascii) : bool :=
  ((9 <=? code c) && (code c <=? 13)) || (code c =? 32) || (code c =? 160).

Definition tab : ascii := ascii_of_nat 9.
Definition lf : ascii := ascii_of_nat 10.
Definition cr : ascii := ascii_of_nat 13.
Definition quote : ascii := ascii_of_nat 34.
Definition comma : ascii := ","%char.

Fixpoint all (p : ascii -> bool) (s : string) : bool :=
  match s with
  | EmptyString => true
  | String c r => p c && all p r
  end.

Fixpoint any (p : ascii -> bool) (s : string) : bool :=
  match s with
  | EmptyString => false
  | String c r => p c || any p r
  end.

Fixpoint keep (p : ascii -> bool) (s : string) : string :=
  match s with
  | EmptyString => EmptyString
  | String c r => if p c then String c (keep p r) else keep p r
  end.

Fixpoint smap (f : ascii -> ascii) (s : string) : string :=
  match s with
  | EmptyString => EmptyString
  | String c r => String (f c) (smap f r)
  end.

(** Longest prefix whose characters satisfy [p], and the rest. *)
Fixpoint span (p : ascii -> bool) (s : string) : string * string :=
  match s with
  | EmptyString => (EmptyString, EmptyString)
  | String c r =>
      if p c then let '(a, b) := span p r in (String c a, b)
      else (EmptyString, s)
  end.

Fixpoint trimStart (s : string) : string :=
  match s with
  | String c r => if isSpace c then trimStart r else s
  | EmptyString => EmptyString
  end.

Fixpoint trimEnd (s : string) : string :=
  match s with
  | EmptyString => EmptyString
  | String c r =>
      match trimEnd r with
      | EmptyString => if isSpace c then EmptyString else String c EmptyString
      | t => String c t
      end
  end.

Definition trim (s : string) : string := trimEnd (trimStart s).

(** A string is truthy when it is not empty. *)
Definition nonEmpty (s : string) : bool :=
  match s with EmptyString => false | _ => true end.

Definition lowerChar (c : ascii) : ascii :=
  let n := code c in
  if ((65 <=? n) && (n <=? 90))
     || ((192 <=? n) && (n <=? 222) && negb (n =? 215))
  then ascii_of_N (Z.to_N (n + 32)) else c.

Definition toLowerCase (s : string) : string := smap lowerChar s.

(** [toUpperCase] on ASCII letters, its only use in the source (on the
    three letters captured by [[A-Z]{3}]). *)
Definition upperLetter (c : ascii) : ascii :=
  let n := code c in
  if (97 <=? n) && (n <=? 122) then ascii_of_N (Z.to_N (n - 32)) else c.

Definition toUpperCase (s : string) : string := smap upperLetter s.

Fixpoint startsWith (p s : string) : bool :=
  match p, s with
  | EmptyString, _ => true
  | String a p', String b s' => Ascii.eqb a b && startsWith p' s'
  | String _ _, EmptyString => false
  end.

Fixpoint includes (p s : string) : bool :=
  startsWith p s ||
  match s with
  | EmptyString => false
  | String _ r => includes p r
  end.

Fixpoint srev_app (s acc : string) : string :=
  match s with
  | EmptyString => acc
  | String c r => srev_app r (String c acc)
  end.

Definition srev (s : string) : string := srev_app s EmptyString.

Definition endsWith (p s : string) : bool := startsWith (srev p) (srev s).

(** [s.split(c)] for a one-character separator. *)
Fixpoint splitOn (sep : ascii) (s : string) : list string :=
  match s with
  | EmptyString => [EmptyString]
  | String c r =>
      if Ascii.eqb c sep then EmptyString :: splitOn sep r
      else match splitOn sep r with
           | f :: fs => String c f :: fs
           | [] => [String c EmptyString]
           end
  end.

(** [s.split(/\r?\n/)]. *)
Fixpoint splitLines (s : string) : list string :=
  match s with
  | EmptyString => [EmptyString]
  | String c r =>
      if Ascii.eqb c lf then EmptyString :: splitLines r
      else if Ascii.eqb c cr && startsWith (String lf EmptyString) r then
        match r with
        | String _ r' => EmptyString :: splitLines r'
        | EmptyString => [String c EmptyString]
        end
      else match splitLines r with
           | f :: fs => String c f :: fs
           | [] => [String c EmptyString]
           end
  end.

(** [s.match(/\d+/)]: the first maximal run of digits, if any. *)
Fixpoint matchDigits (s : string) : option string :=
  match s with
  | EmptyString => None
  | String c r => if isDigit c then Some (fst (span isDigit s)) else matchDigits r
  end.

Definition digitVal (c : ascii) : Z := code c - 48.

Fixpoint digitsValueFrom (acc : Z) (s : string) : Z :=
  match s with
  | EmptyString => acc
  | String c r => digitsValueFrom (acc * 10 + digitVal c) r
  end.

Definition digitsValue (s : string) : Z := digitsValueFrom 0 s.

Definition slen (s : string) : Z := Z.of_nat (String.length s).

(** [String(n)] for an integer [n] of magnitude below 10^21. *)
Definition ofZ (z : Z) : string := NilZero.string_of_int (Z.to_int z).

Fixpoint repeatChar (c : ascii) (n : nat) : string :=
  match n with
  | O => EmptyString
  | S k => String c (repeatChar c k)
  end.

(** [s.padStart(n, c)] for a one-character filler. *)
Definition padStart (n : nat) (c : ascii) (s : string) : string :=
  repeatChar c (n - String.length s) ++ s.

End Str.

(* ================================================================== *)
(** ** [Number(s)]: the string-to-number conversion *)
(* ================================================================== *)

Module Conv.

Import Num Str.
Local Open Scope string_scope.
Local Open Scope Z_scope.

Definition radixDigit (c : ascii) : option Z :=
  let n := code c in
  if isDigit c then Some (n - 48)
  else if (65 <=? n) && (n <=? 70) then Some (n - 55)
  else if (97 <=? n) && (n <=? 102) then Some (n - 87)
  else None.

Fixpoint radixDigits (radix acc : Z) (s : string) : option Z :=
  match s with
  | EmptyString => Some acc
  | String c r =>
      match radixDigit c with
      | Some d => if d <? radix then radixDigits radix (acc * radix + d) r else None
      | None => None
      end
  end.

(** The prefix of a hexadecimal, octal or binary integer literal. *)
Definition radixPrefix (t : string) : option (Z * string) :=
  match t with
  | String "0" (String x r) =>
      if Ascii.eqb x "x" || Ascii.eqb x "X" then Some (16, r)
      else if Ascii.eqb x "o" || Ascii.eqb x "O" then Some (8, r)
      else if Ascii.eqb x "b" || Ascii.eqb x "B" then Some (2, r)
      else None
  | _ => None
  end.

(** [ExponentPart], or nothing, up to the end of the string. *)
Definition exponentPart (s : string) : option Z :=
  match s with
  | EmptyString => Some 0
  | String c r =>
      if Ascii.eqb c "e" || Ascii.eqb c "E" then
        let '(sign, ds) :=
          match r with
          | String "+" r' => (1, r')
          | String "-" r' => (-1, r')
          | _ => (1, r)
          end in
        if nonEmpty ds && all isDigit ds then Some (sign * digitsValue ds) else None
      else None
  end.

(** [StrUnsignedDecimalLiteral]; NaN when the string is not one. *)
Definition unsignedDecimal (t : string) : number :=
  if String.eqb t "Infinity" then PInf
  else
    let '(ip, r1) := span isDigit t in
    let '(fp, r2) :=
      match r1 with
      | String "." r => span isDigit r
      | _ => (EmptyString, r1)
      end in
    if negb (nonEmpty ip) && negb (nonEmpty fp) then NaN
    else
      match exponentPart r2 with
      | Some e => of_decimal (digitsValue (ip ++ fp)) (e - slen fp)
      | None => NaN
      end.

Definition Number (s : string) : number :=
  let t := trim s in
  match t with
  | EmptyString => zero
  | _ =>
      match radixPrefix t with
      | Some (radix, r) =>
          match r with
          | EmptyString => NaN
          | _ => match radixDigits radix 0 r with
                 | Some n => of_Z n
                 | None => NaN
                 end
          end
      | None =>
          match t with
          | String "+" r => unsignedDecimal r
          | String "-" r => neg (unsignedDecimal r)
          | _ => unsignedDecimal t
          end
      end
  end.

End Conv.

Import Num Str Conv.
Local Open Scope string_scope.
Local Open Scope Z_scope.

(* ================================================================== *)
(** ** Data model *)
(* ================================================================== *)

Inductive ReplyTimeCategory : Set :=
| Cat_7_00_3_30
| Cat_3_00_6_00
| Cat_After_6
| Cat_Weekend.

Inductive YesNo : Set := Yes | No.

Definition YesNo_eqb (a b : YesNo) : bool :=
  match a, b with
  | Yes, Yes | No, No => true
  | _, _ => false
  end.

(** [LeadInput]: a lead without its document id.  [replyTime] is the
    optional legacy field. *)
Record LeadInput : Set := mkLeadInput {
  date : string;
  customer : string;
  leadSource : string;
  jobType : string;
  leadCost : string;
  jobWon : YesNo;
  comments : string;
  replyTimeCategory : ReplyTimeCategory;
  replyTimeMinutes : string;
  booked : YesNo;
  sold : YesNo;
  cancelled : YesNo;
  soldAmount : string;
  revenue : string;
  replyTime : option string
}.

Record Lead : Set := mkLead {
  id : string;
  input :> LeadInput
}.

Definition defaultReplyCategory : ReplyTimeCategory := Cat_7_00_3_30.

Definition categoryName (c : ReplyTimeCategory) : string :=
  match c with
  | Cat_7_00_3_30 => "7:00-3:30"
  | Cat_3_00_6_00 => "3:00-6:00"
  | Cat_After_6 => "After 6"
  | Cat_Weekend => "Weekend"
  end.

Definition emptyLead : LeadInput := {|
  date := ""; customer := ""; leadSource := ""; jobType := "";
  leadCost := ""; jobWon := No; comments := "";
  replyTimeCategory := defaultReplyCategory; replyTimeMinutes := "";
  booked := No; sold := No; cancelled := No;
  soldAmount := ""; revenue := ""; replyTime := None |}.

(** [{ ...lead, jobWon: v }] *)
Definition withJobWon (v : YesNo) (l : LeadInput) : LeadInput := {|
  date := date l; customer := customer l; leadSource := leadSource l;
  jobType := jobType l; leadCost := leadCost l; jobWon := v;
  comments := comments l; replyTimeCategory := replyTimeCategory l;
  replyTimeMinutes := replyTimeMinutes l; booked := booked l;
  sold := sold l; cancelled := cancelled l; soldAmount := soldAmount l;
  revenue := revenue l; replyTime := replyTime l |}.

(* ================================================================== *)
(** ** Currency and reply-time parsing *)
(* ================================================================== *)

(** The characters kept by [value.replace(/[^\d.-]/g, '')]. *)
Definition moneyChar (c : ascii) : bool :=
  isDigit c || Ascii.eqb c "." || Ascii.eqb c "-".

Definition parseMoney (value : string) : number :=
  let num := Number (keep moneyChar value) in
  if isFinite num then num else zero.

Definition getReplyMinutes (lead : Lead) : option number :=
  let fromNew := Number (replyTimeMinutes lead) in
  if isFinite fromNew && geb fromNew zero then Some fromNew
  else
    match replyTime lead with
    | Some rt =>
        if nonEmpty rt then
          match matchDigits rt with
          | Some found => Some (Number found)
          | None => None
          end
        else None
    | None => None
    end.

Definition weekLabel (startDay endDay : Z) : string :=
  ofZ startDay ++ "-" ++ ofZ endDay.

(* ================================================================== *)
(** ** Tabular reader *)
(* ================================================================== *)

(** [/[\s_]+/g] replaced by one space. *)
Fixpoint collapseSeparators (s : string) : string :=
  match s with
  | EmptyString => EmptyString
  | String c r =>
      if isSpace c || Ascii.eqb c "_" then
        match r with
        | String d _ =>
            if isSpace d || Ascii.eqb d "_" then collapseSeparators r
            else String " " (collapseSeparators r)
        | EmptyString => String " " EmptyString
        end
      else String c (collapseSeparators r)
  end.

(** The byte-order mark U+FEFF removed first by the source is not a
    character of the model. *)
Definition normalizeHeader (value : string) : string :=
  collapseSeparators (toLowerCase (trim value)).

(** The lines kept by [csvToMatrix]: end-trimmed and not empty. *)
Definition csvLines (text : string) : list string :=
  List.filter nonEmpty (map trimEnd (splitLines text)).

(** State of the character loop of [parseLine]. *)
Record Scan : Set := mkScan {
  scanIndex : nat;
  scanCurrent : string;
  scanInQuotes : bool;
  scanValues : list string
}.

Definition charAt (line : string) (i : nat) : option ascii := String.get i line.

Definition isChar (c : ascii) (o : option ascii) : bool :=
  match o with Some d => Ascii.eqb d c | None => false end.

Definition push (s : string) (c : ascii) : string := s ++ String c EmptyString.

(** One iteration of the [for] loop, increment included. *)
Definition scanStep (line : string) (st : Scan) : Scan :=
  let i := scanIndex st in
  match charAt line i with
  | None => st
  | Some ch =>
      if Ascii.eqb ch quote then
        if scanInQuotes st && isChar quote (charAt line (i + 1)) then
          mkScan (i + 1 + 1) (push (scanCurrent st) quote) (scanInQuotes st) (scanValues st)
        else
          mkScan (i + 1) (scanCurrent st) (negb (scanInQuotes st)) (scanValues st)
      else if Ascii.eqb ch comma && negb (scanInQuotes st) then
        mkScan (i + 1) EmptyString (scanInQuotes st)
               (scanValues st ++ [trim (scanCurrent st)])
      else
        mkScan (i + 1) (push (scanCurrent st) ch) (scanInQuotes st) (scanValues st)
  end.

Fixpoint scanLoop (fuel : nat) (line : string) (st : Scan) : Scan :=
  match fuel with
  | O => st
  | S fuel' =>
      if (scanIndex st <? String.length line)%nat
      then scanLoop fuel' line (scanStep line st)
      else st
  end.

Definition scanStart : Scan := mkScan 0 EmptyString false [].

Definition parseCommaLine (line : string) : list string :=
  let st := scanLoop (String.length line) line scanStart in
  scanValues st ++ [trim (scanCurrent st)].

Definition parseTabLine (line : string) : list string :=
  map trim (splitOn tab line).

Definition parseLine (delimiter : ascii) (line : string) : list string :=
  if Ascii.eqb delimiter tab then parseTabLine line else parseCommaLine line.

Definition hasTab (line : string) : bool := any (Ascii.eqb tab) line.

Definition csvToMatrix (text : string) : list (list string) :=
  let lines := csvLines text in
  match lines with
  | [] => []
  | first :: _ =>
      let delimiter := if hasTab first then tab else comma in
      map (parseLine delimiter) lines
  end.

(** A header-keyed record, [Record<string, string>]. *)
Abbreviation Row := (gmap string string).

(** [list.map((x, idx) => ...)]: the elements with their indices. *)
Definition indexed {A : Type} (l : list A) : list (nat * A) :=
  combine (seq 0 (length l)) l.

(** [cols[idx] ?? ''] and [row[idx] || '']. *)
Definition cellAt (cols : list string) (idx : nat) : string :=
  default EmptyString (cols !! idx).

Definition rowOfCols (headers cols : list string) : Row :=
  fold_left (fun (acc : Row) '(idx, h) => <[h := trim (cellAt cols idx)]> acc)
            (indexed headers) ∅.

Definition csvToRows (text : string) : list Row :=
  let matrix := csvToMatrix text in
  match matrix with
  | headerCols :: ((_ :: _) as body) =>
      let headers := map normalizeHeader headerCols in
      map (rowOfCols headers) body
  | _ => []
  end.

(* ================================================================== *)
(** ** Scorecard transformer *)
(* ================================================================== *)

(** [/[A-Z]{3}:\s*\d+/i] anchored at the start of [s]. *)
Definition weekPatternAt (s : string) : bool :=
  match s with
  | String a (String b (String c (String ":" r))) =>
      isLetter a && isLetter b && isLetter c &&
      match trimStart r with
      | String d _ => isDigit d
      | EmptyString => false
      end
  | _ => false
  end.

(** [/[A-Z]{3}:\s*\d+/i.test(s)] *)
Fixpoint weekPatternTest (s : string) : bool :=
  weekPatternAt s ||
  match s with
  | String _ r => weekPatternTest r
  | EmptyString => false
  end.

(** The two groups of [/([A-Z]{3}):\s*(\d{1,2})/i] anchored at the
    start of [s]. *)
Definition weekMatchAt (s : string) : option (string * string) :=
  match s with
  | String a (String b (String c (String ":" r))) =>
      if isLetter a && isLetter b && isLetter c then
        match fst (span isDigit (trimStart r)) with
        | String d1 (String d2 _) =>
            Some (String a (String b (String c EmptyString)),
                  String d1 (String d2 EmptyString))
        | String d1 EmptyString =>
            Some (String a (String b (String c EmptyString)),
                  String d1 EmptyString)
        | EmptyString => None
        end
      else None
  | _ => None
  end.

(** [s.match(/([A-Z]{3}):\s*(\d{1,2})/i)]: the leftmost match. *)
Fixpoint weekMatch (s : string) : option (string * string) :=
  match weekMatchAt s with
  | Some m => Some m
  | None =>
      match s with
      | String _ r => weekMatch r
      | EmptyString => None
      end
  end.

Definition monthMap : list (string * Z) :=
  [("JAN", 1); ("FEB", 2); ("MAR", 3); ("APR", 4); ("MAY", 5); ("JUN", 6);
   ("JUL", 7); ("AUG", 8); ("SEP", 9); ("OCT", 10); ("NOV", 11); ("DEC", 12)].

Fixpoint monthLookup (table : list (string * Z)) (key : string) : option Z :=
  match table with
  | [] => None
  | (k, v) :: rest => if String.eqb k key then Some v else monthLookup rest key
  end.

(** A case-insensitive search for an all-lowercase ASCII pattern: the
    regular expressions [/goal|actual/i] and the
    [toLowerCase().includes(...)] tests. *)
Definition includesNoCase (pattern s : string) : bool :=
  includes pattern (toLowerCase s).

Definition firstCellIncludes (pattern : string) (row : list string) : bool :=
  match row with
  | c :: _ => includesNoCase pattern c
  | [] => false
  end.

(** [list.findIndex(p)], with the index also given to [p]. *)
Fixpoint findIndexFrom {A : Type} (p : nat -> A -> bool) (i : nat) (l : list A)
  : option nat :=
  match l with
  | [] => None
  | x :: r => if p i x then Some i else findIndexFrom p (S i) r
  end.

Definition findIndex {A : Type} (p : nat -> A -> bool) (l : list A) : option nat :=
  findIndexFrom p 0 l.

(** [list.slice(from, to)] *)
Definition slice {A : Type} (from to : nat) (l : list A) : list A :=
  take (to - from) (drop from l).

(** [String(x)] for an integer-valued [x] of magnitude below 10^21. *)
Definition integerString (x : number) : string :=
  match x with
  | Fin n => ofZ (trunc n)
  | NaN => "NaN"
  | PInf => "Infinity"
  | NInf => "-Infinity"
  end.

Record WeekColumn : Set := mkWeekColumn {
  weekIdx : nat;
  weekValue : string
}.

Definition weekColumnsOf (headerRow : list string) : list WeekColumn :=
  List.filter (fun x => weekPatternTest (weekValue x))
              (map (fun '(idx, value) => mkWeekColumn idx (trim value))
                   (indexed headerRow)).

(** The date of a week column, in the year [year]. *)
Definition weekDate (year : Z) (week : WeekColumn) : string :=
  let weekMatched := weekMatch (weekValue week) in
  let mon :=
    match weekMatched with
    | Some (m, _) => monthLookup monthMap (toUpperCase m)
    | None => None
    end in
  let day :=
    match weekMatched with
    | Some (_, d) => Number d
    | None => of_Z 1
    end in
  let monNumber :=
    match mon with
    | Some m => if m =? 0 then 1 else m
    | None => 1
    end in
  ofZ year ++ "-" ++ padStart 2 "0" (ofZ monNumber)
           ++ "-" ++ padStart 2 "0" (integerString day).

Definition syntheticLead (dateText source : string) (week : WeekColumn) (i : Z)
  : LeadInput := {|
  date := dateText;
  customer := "Imported " ++ source ++ " Lead " ++ ofZ i;
  leadSource := source;
  jobType := "Imported";
  leadCost := "$0";
  jobWon := No;
  comments := "Imported from marketing scorecard (" ++ weekValue week ++ ")";
  replyTimeCategory := defaultReplyCategory;
  replyTimeMinutes := "";
  booked := No;
  sold := No;
  cancelled := No;
  soldAmount := "$0";
  revenue := "$0";
  replyTime := None |}.

(** The leads pushed for one week cell of one channel row; [None] when
    the count is infinite and the inner loop never ends. *)
Definition weekLeads (year : Z) (source : string) (row : list string)
    (week : WeekColumn) : option (list LeadInput) :=
  let raw := cellAt row (weekIdx week) in
  let count := Number (default "0" (matchDigits raw)) in
  if negb (truthy count) || ltb count (of_Z 1) then Some []
  else
    match count with
    | Fin n =>
        let dateText := weekDate year week in
        Some (map (fun i => syntheticLead dateText source week (Z.of_nat i))
                  (seq 1 (Z.to_nat (trunc n))))
    | _ => None
    end.

(** [mconcat] of partial results: the first failure wins. *)
Fixpoint collect {A B : Type} (f : A -> option (list B)) (l : list A)
  : option (list B) :=
  match l with
  | [] => Some []
  | x :: r =>
      match f x with
      | Some ys =>
          match collect f r with
          | Some zs => Some (ys ++ zs)%list
          | None => None
          end
      | None => None
      end
  end.

Definition channelLeads (year : Z) (weekColumns : list WeekColumn)
    (row : list string) : option (list LeadInput) :=
  let source := trim (cellAt row 0) in
  if negb (nonEmpty source)
     || includesNoCase "goal" source || includesNoCase "actual" source
  then Some []
  else collect (weekLeads year source row) weekColumns.

(** Largest length of an array. *)
Definition maxArrayLength : Z := 2 ^ 32 - 1.

(** The transformer on the matrix read from the file.  [year] is the
    current calendar year.  The result is [None] when the source does
    not return a list: a count that is infinite, or more leads than an
    array can hold. *)
Definition scorecardOfMatrix (year : Z) (matrix : list (list string))
  : option (list LeadInput) :=
  match matrix with
  | [] => Some []
  | _ =>
      let headerRow := List.find (fun row => existsb weekPatternTest row) matrix in
      let channelStart :=
        findIndex (fun _ row => firstCellIncludes "channel performance" row) matrix in
      match headerRow, channelStart with
      | Some headerRow, Some channelStart =>
          let weekColumns := weekColumnsOf headerRow in
          match weekColumns with
          | [] => Some []
          | _ =>
              let endIndex :=
                findIndex (fun idx row =>
                             (channelStart <? idx)%nat
                             && firstCellIncludes "brand & reputation" row)
                          matrix in
              let channelRows :=
                slice (channelStart + 1)
                      (match endIndex with
                       | None => channelStart + 8
                       | Some e => e
                       end)%nat
                      matrix in
              match collect (channelLeads year weekColumns) channelRows with
              | Some leadsOut =>
                  if Z.of_nat (length leadsOut) <=? maxArrayLength
                  then Some leadsOut else None
              | None => None
              end
          end
      | _, _ => Some []
      end
  end.

Definition parseScorecardToLeads (year : Z) (text : string)
  : option (list LeadInput) :=
  scorecardOfMatrix year (csvToMatrix text).

(* ================================================================== *)
(** ** Row mapper *)
(* ================================================================== *)

Definition yesNo (value : string) : YesNo :=
  if String.eqb (toLowerCase value) "yes" then Yes else No.

(** [a || b] on strings. *)
Definition orElse (a b : string) : string := if nonEmpty a then a else b.

(** The first alias with a non-empty value in the row. *)
Fixpoint pick (row : Row) (keys : list string) : string :=
  match keys with
  | [] => EmptyString
  | key :: rest =>
      match row !! normalizeHeader key with
      | Some value => if nonEmpty value then value else pick row rest
      | None => pick row rest
      end
  end.

Definition allowedCategories : list ReplyTimeCategory :=
  [Cat_7_00_3_30; Cat_3_00_6_00; Cat_After_6; Cat_Weekend].

(** [allowed.includes(raw) ? raw : defaultReplyCategory] *)
Definition coerceCategory (raw : string) : ReplyTimeCategory :=
  match List.find (fun c => String.eqb (categoryName c) raw) allowedCategories with
  | Some c => c
  | None => defaultReplyCategory
  end.

Definition normalizeImportedLead (row : Row) : LeadInput := {|
  date := pick row ["date"];
  customer := pick row ["customer"; "name"];
  leadSource := pick row ["lead source"; "source"];
  jobType := pick row ["job type"];
  leadCost := orElse (pick row ["lead cost"; "cost"]) "$0";
  jobWon := yesNo (orElse (pick row ["job won"; "sold"]) "No");
  comments := pick row ["comments"];
  replyTimeCategory := coerceCategory (pick row ["reply time category"]);
  replyTimeMinutes := pick row ["reply time minutes"];
  booked := yesNo (orElse (pick row ["booked"]) "No");
  sold := yesNo (orElse (pick row ["sold"; "job won"]) "No");
  cancelled := yesNo (orElse (pick row ["cancelled"; "canceled"]) "No");
  soldAmount := orElse (pick row ["sold amount"]) "$0";
  revenue := orElse (pick row ["revenue"]) "$0";
  replyTime := None |}.

(* ================================================================== *)
(** ** The document store *)
(* ================================================================== *)

(** The collection of the signed-in account, in order of creation.  The
    server timestamps written next to the fields are not modelled, and
    a creation is taken to succeed. *)
Record Doc : Set := mkDoc {
  docId : nat;
  docData : LeadInput
}.

Abbreviation Store := (list Doc).

Definition freshId (store : Store) : nat :=
  S (fold_right Nat.max O (map docId store)).

Definition addDoc (data : LeadInput) (store : Store) : Store :=
  (store ++ [mkDoc (freshId store) data])%list.

(** [updateDoc] replaces the fields of an existing document and rejects
    an unknown id. *)
Fixpoint updateDoc (target : nat) (data : LeadInput) (store : Store)
  : option Store :=
  match store with
  | [] => None
  | d :: rest =>
      if Nat.eqb (docId d) target then Some (mkDoc target data :: rest)
      else option_map (cons d) (updateDoc target data rest)
  end.

(* ================================================================== *)
(** ** Import *)
(* ================================================================== *)

Record File : Set := mkFile {
  fileName : string;
  fileContent : string
}.

Record ImportLoop : Set := mkImportLoop {
  loopStore : Store;
  importedCount : Z
}.

(** What an import leaves behind; [outScorecard] records whether
    [parseScorecardToLeads] was called. *)
Record ImportOutcome : Set := mkImportOutcome {
  outStore : Store;
  outStatus : string;
  outScorecard : bool
}.

Definition accepted (lead : LeadInput) : bool :=
  nonEmpty (date lead) && nonEmpty (customer lead).

(** One iteration of the loop over the rows. *)
Definition importRow (st : ImportLoop) (row : Row) : ImportLoop :=
  let lead := normalizeImportedLead row in
  if negb (nonEmpty (date lead)) || negb (nonEmpty (customer lead)) then st
  else mkImportLoop (addDoc (withJobWon (sold lead) lead) (loopStore st))
                    (importedCount st + 1).

(** One iteration of the loop over the scorecard leads. *)
Definition importScorecardLead (st : ImportLoop) (lead : LeadInput) : ImportLoop :=
  mkImportLoop (addDoc (withJobWon (sold lead) lead) (loopStore st))
               (importedCount st + 1).

Definition importFailed : string :=
  "Import failed. Use CSV, XLSX, or JSON with matching headers.".

Definition finishImport (file : File) (st : ImportLoop) (scorecard : bool)
  : ImportOutcome :=
  mkImportOutcome (loopStore st)
    (if importedCount st =? 0
     then "Imported 0 rows. Make sure date + customer are present."
     else "Imported " ++ ofZ (importedCount st) ++ " leads from " ++ fileName file)
    scorecard.

Section FileImport.

(** [JSON.parse] of the file text, as rows of the declared type
    [Record<string, string>]: [None] when it throws, no rows when the
    value is not an array. *)
Variable jsonRows : string -> option (list Row).

(** The first worksheet as one list of (key, value) entries per data
    row, values already passed through [String]; [None] when the
    workbook cannot be read. *)
Variable sheetRows : string -> option (list (list (string * string))).

(** The current calendar year. *)
Variable currentYear : Z.

Definition normalizeSheetRow (entries : list (string * string)) : Row :=
  fold_left (fun (normalized : Row) '(key, value) =>
               <[normalizeHeader key := trim value]> normalized)
            entries ∅.

(** The rows read from the file, by extension of its lower-cased name;
    [None] when reading throws. *)
Definition readRows (file : File) : option (list Row) :=
  let lowerName := toLowerCase (fileName file) in
  if endsWith ".json" lowerName then jsonRows (fileContent file)
  else if endsWith ".xlsx" lowerName || endsWith ".xls" lowerName then
    option_map (map normalizeSheetRow) (sheetRows (fileContent file))
  else Some (csvToRows (fileContent file)).

Definition handleFileImport (user : bool) (file : option File)
    (store : Store) (status : string) : ImportOutcome :=
  if negb user then mkImportOutcome store status false
  else
    match file with
    | None => mkImportOutcome store status false
    | Some file =>
        let lowerName := toLowerCase (fileName file) in
        match readRows file with
        | None => mkImportOutcome store importFailed false
        | Some [] =>
            mkImportOutcome store
              "No rows found. Check file headers and content." false
        | Some rows =>
            let st := fold_left importRow rows (mkImportLoop store 0) in
            if (importedCount st =? 0)
               && (endsWith ".csv" lowerName || endsWith ".tsv" lowerName)
            then
              match parseScorecardToLeads currentYear (fileContent file) with
              | Some scorecardLeads =>
                  finishImport file
                    (fold_left importScorecardLead scorecardLeads st) true
              | None => mkImportOutcome (loopStore st) importFailed true
              end
            else finishImport file st false
        end
    end.

End FileImport.

(* ================================================================== *)
(** ** Manual save *)
(* ================================================================== *)

Record FormState : Set := mkFormState {
  form : LeadInput;
  editingId : option nat;
  message : string;
  showLeadModal : bool
}.

(** The message of the error thrown by a rejected update. *)
Definition updateRejected : string := "No document to update".

Definition saveLead (user : bool) (ui : FormState) (store : Store)
  : FormState * Store :=
  if negb user then (ui, store)
  else
    let normalizedForm := withJobWon (sold (form ui)) (form ui) in
    match editingId ui with
    | Some target =>
        match updateDoc target normalizedForm store with
        | Some store' => (mkFormState emptyLead None EmptyString false, store')
        | None =>
            (mkFormState (form ui) (editingId ui) updateRejected (showLeadModal ui),
             store)
        end
    | None =>
        (mkFormState emptyLead None EmptyString false,
         addDoc normalizedForm store)
    end.

(* ================================================================== *)
(** ** Calendar: what the source asks of [Date] *)
(* ================================================================== *)

Module Calendar.

Definition isLeap (y : Z) : bool :=
  ((y mod 4 =? 0) && negb (y mod 100 =? 0)) || (y mod 400 =? 0).

(** Days of the month [m] (1 to 12) of the year [y]. *)
Definition daysInMonth (y m : Z) : Z :=
  if m =? 2 then (if isLeap y then 29 else 28)
  else if (m =? 4) || (m =? 6) || (m =? 9) || (m =? 11) then 30
  else 31.

(** Days from 1970-01-01 to the date [y]-[m]-[d]. *)
Definition daysFromCivil (y m d : Z) : Z :=
  let y' := if m <=? 2 then y - 1 else y in
  let era := y' / 400 in
  let yoe := y' - era * 400 in
  let doy := (153 * (if 2 <? m then m - 3 else m + 9) + 2) / 5 + d - 1 in
  let doe := yoe * 365 + yoe / 4 - yoe / 100 + doy in
  era * 146097 + doe - 719468.

(** A time value is a date only within 10^8 days of the epoch. *)
Definition maxDay : Z := 100000000.

(** [new Date(year, month, 0).getDate()]: the day before the first of
    the month with index [month] (January is 0) of [year]; [None] is
    NaN.  Years 0 to 99 mean 1900 to 1999.  Local time is taken without
    an offset. *)
Definition lastDayOfMonth (year month : number) : option Z :=
  match year, month with
  | Fin y, Fin m =>
      let yi := trunc y in
      let mi := trunc m in
      let yf := if (0 <=? yi) && (yi <=? 99) then 1900 + yi else yi in
      let ym := yf + mi / 12 in
      let mn := mi mod 12 in
      let '(py, pm) := if mn =? 0 then (ym - 1, 12) else (ym, mn) in
      let lastDay := daysInMonth py pm in
      if Z.abs (daysFromCivil py pm lastDay) <=? maxDay then Some lastDay
      else None
  | _, _ => None
  end.

(** A strict reading of [YYYY-MM-DD]: four digits, two, two, naming a
    day of the calendar.  It instantiates the date parser that [weekly]
    takes as a parameter. *)
Definition isoDate (s : string) : option (Z * Z * Z) :=
  match splitOn "-" s with
  | [ys; ms; ds] =>
      if (String.length ys =? 4)%nat && (String.length ms =? 2)%nat
         && (String.length ds =? 2)%nat
         && all isDigit ys && all isDigit ms && all isDigit ds
      then
        let y := digitsValue ys in
        let m := digitsValue ms in
        let d := digitsValue ds in
        if (1 <=? m) && (m <=? 12) && (1 <=? d) && (d <=? daysInMonth y m)
        then Some (y, m, d) else None
      else None
  | _ => None
  end.

End Calendar.

Import Calendar.

(* ================================================================== *)
(** ** Aggregation: [stats] *)
(* ================================================================== *)

(** [list.reduce((a, b) => a + b, 0)] *)
Definition sumNumbers (l : list number) : number := fold_left add l zero.

Definition countZ {A : Type} (l : list A) : Z := Z.of_nat (length l).

(** The mean of the values, 0 when there is none. *)
Definition average (values : list number) : number :=
  if 0 <? countZ values then div (sumNumbers values) (of_Z (countZ values))
  else zero.

(** [leads.map(getReplyMinutes).filter(v => v !== null)] *)
Definition replyTimesOf (leads : list Lead) : list number :=
  omap getReplyMinutes leads.

Record Bucket : Set := mkBucket {
  bucketSum : number;
  bucketCount : Z
}.

Definition emptyBuckets : ReplyTimeCategory -> Bucket :=
  fun _ => mkBucket zero 0.

Definition category_eqb (a b : ReplyTimeCategory) : bool :=
  match a, b with
  | Cat_7_00_3_30, Cat_7_00_3_30 | Cat_3_00_6_00, Cat_3_00_6_00
  | Cat_After_6, Cat_After_6 | Cat_Weekend, Cat_Weekend => true
  | _, _ => false
  end.

Definition bucketStep (acc : ReplyTimeCategory -> Bucket) (lead : Lead)
  : ReplyTimeCategory -> Bucket :=
  match getReplyMinutes lead with
  | None => acc
  | Some mins =>
      let category := replyTimeCategory lead in
      fun c =>
        if category_eqb c category
        then mkBucket (add (bucketSum (acc c)) mins) (bucketCount (acc c) + 1)
        else acc c
  end.

Record Stats : Set := mkStats {
  totalLeads : Z;
  wonLeads : Z;
  totalCost : number;
  winRate : number;
  avgReplyTime : number;
  avgReplyByCategory : ReplyTimeCategory -> Bucket
}.

(** The breakdowns [bySource] and [byJobType] of the source are not part
    of the embedding. *)
Definition stats (leads : list Lead) : Stats :=
  let totalLeads := countZ leads in
  let wonLeads := countZ (List.filter (fun l : Lead => YesNo_eqb (jobWon l) Yes) leads) in
  let totalCost := fold_left (fun sum (l : Lead) => add sum (parseMoney (leadCost l))) leads zero in
  let winRate :=
    if 0 <? totalLeads
    then mul (div (of_Z wonLeads) (of_Z totalLeads)) (of_Z 100)
    else zero in
  mkStats totalLeads wonLeads totalCost winRate
          (average (replyTimesOf leads))
          (fold_left bucketStep leads emptyBuckets).

(* ================================================================== *)
(** ** Aggregation: [monthWeeks] *)
(* ================================================================== *)

(** [Number(parts[i])]; a missing part is [undefined], hence NaN. *)
Definition numberAt (parts : list string) (i : nat) : number :=
  match parts !! i with
  | Some p => Number p
  | None => NaN
  end.

(** [for (start = ...; start <= lastDay; start += 7)] *)
Fixpoint weeksLoop (fuel : nat) (start lastDay : Z) : list string :=
  match fuel with
  | O => []
  | S fuel' =>
      if start <=? lastDay
      then weekLabel start (Z.min (start + 6) lastDay)
             :: weeksLoop fuel' (start + 7) lastDay
      else []
  end.

Definition monthWeeks (selectedMonth : string) : list string :=
  let parts := splitOn "-" selectedMonth in
  let year := numberAt parts 0 in
  let month := numberAt parts 1 in
  if negb (truthy year) || negb (truthy month)
  then ["1-7"; "8-14"; "15-21"; "22-28"]
  else
    match lastDayOfMonth year month with
    | Some lastDay => weeksLoop (Z.to_nat lastDay) 1 lastDay
    | None => []
    end.

(* ================================================================== *)
(** ** Aggregation: [weekly] *)
(* ================================================================== *)

(** The per-source accumulator of [weekly]. *)
Module Grp.
Record t : Set := mk {
  spend : number;
  leads : Z;
  booked : Z;
  sold : Z;
  cancelled : Z;
  soldAmount : number;
  revenue : number
}.
Definition empty : t := mk zero 0 0 0 0 zero zero.
End Grp.

(** A row of the weekly table. *)
Module WRow.
Record t : Set := mk {
  source : string;
  data : Grp.t;
  cpl : number;
  fiveXReturn : number
}.
End WRow.

(** The totals row. *)
Module Totals.
Record t : Set := mk {
  sums : Grp.t;
  avgReplyMins : number
}.
End Totals.

Definition yesCount (v : YesNo) : Z :=
  match v with Yes => 1 | No => 0 end.

(** The updates of one lead on the accumulator of its source. *)
Definition addLead (lead : Lead) (g : Grp.t) : Grp.t :=
  Grp.mk (add (Grp.spend g) (parseMoney (leadCost lead)))
         (Grp.leads g + 1)
         (Grp.booked g + yesCount (booked lead))
         (Grp.sold g + yesCount (sold lead))
         (Grp.cancelled g + yesCount (cancelled lead))
         (add (Grp.soldAmount g) (parseMoney (soldAmount lead)))
         (add (Grp.revenue g) (parseMoney (revenue lead))).

(** The property names every plain object inherits.  Reading one of
    them from the accumulator object yields a built-in, which is truthy:
    no group is created for such a key and the updates land on the
    built-in. *)
Definition inheritedKeys : list string :=
  ["constructor"; "hasOwnProperty"; "isPrototypeOf"; "propertyIsEnumerable";
   "toLocaleString"; "toString"; "valueOf"; "__proto__";
   "__defineGetter__"; "__defineSetter__"; "__lookupGetter__";
   "__lookupSetter__"].

Definition isInherited (key : string) : bool :=
  existsb (String.eqb key) inheritedKeys.

(** Own properties of the accumulator object, in order of creation. *)
Abbreviation Groups := (list (string * Grp.t)).

(** [if (!acc[key]) acc[key] = {...}; update acc[key]] on own keys. *)
Fixpoint bump (key : string) (f : Grp.t -> Grp.t) (acc : Groups) : Groups :=
  match acc with
  | [] => [(key, f Grp.empty)]
  | (k, g) :: rest =>
      if String.eqb k key then (k, f g) :: rest
      else (k, g) :: bump key f rest
  end.

Definition groupKey (lead : Lead) : string := orElse (leadSource lead) "Unknown".

Definition groupStep (acc : Groups) (lead : Lead) : Groups :=
  let key := groupKey lead in
  if isInherited key then acc else bump key (addLead lead) acc.

(** A property name that is an array index: a canonical decimal numeral
    of at most 2^32 - 2. *)
Definition arrayIndex (key : string) : option Z :=
  match key with
  | EmptyString => None
  | String c r =>
      if all isDigit key && (negb (Ascii.eqb c "0") || negb (nonEmpty r))
         && (digitsValue key <=? 2 ^ 32 - 2)
      then Some (digitsValue key) else None
  end.

Fixpoint insertIndexed (x : Z * (string * Grp.t)) (l : list (Z * (string * Grp.t)))
  : list (Z * (string * Grp.t)) :=
  match l with
  | [] => [x]
  | y :: r => if fst x <=? fst y then x :: l else y :: insertIndexed x r
  end.

(** [Object.entries]: array-index keys in ascending order, then the
    other keys in order of creation. *)
Definition objectEntries (acc : Groups) : Groups :=
  let indexedKeys :=
    omap (fun e => match arrayIndex (fst e) with
                   | Some i => Some (i, e)
                   | None => None
                   end) acc in
  let others :=
    List.filter (fun e => match arrayIndex (fst e) with
                          | Some _ => false
                          | None => true
                          end) acc in
  (map snd (fold_right insertIndexed [] indexedKeys) ++ others)%list.

Definition toRow (e : string * Grp.t) : WRow.t :=
  let '(source, data) := e in
  WRow.mk source data
    (if 0 <? Grp.leads data
     then div (Grp.spend data) (of_Z (Grp.leads data)) else zero)
    (mul (Grp.spend data) (of_Z 5)).

Definition rowSpend (r : WRow.t) : number := Grp.spend (WRow.data r).

(** The comparator [(a, b) => b.spend - a.spend]. *)
Definition bySpendDesc (a b : WRow.t) : number := sub (rowSpend b) (rowSpend a).

(** [list.sort(cmp)]: a stable sort; [a] moves behind [b] only when
    [cmp(a, b) > 0].  With a comparator that is not consistent (a NaN
    difference) the order is left to the engine; this is insertion
    sort. *)
Fixpoint insertSorted (cmp : WRow.t -> WRow.t -> number) (x : WRow.t)
    (l : list WRow.t) : list WRow.t :=
  match l with
  | [] => [x]
  | y :: r =>
      if gtb (cmp x y) zero then y :: insertSorted cmp x r else x :: l
  end.

Definition sortRows (cmp : WRow.t -> WRow.t -> number) (l : list WRow.t)
  : list WRow.t :=
  fold_right (insertSorted cmp) [] l.

Definition addRow (acc : Grp.t) (row : WRow.t) : Grp.t :=
  let d := WRow.data row in
  Grp.mk (add (Grp.spend acc) (Grp.spend d))
         (Grp.leads acc + Grp.leads d)
         (Grp.booked acc + Grp.booked d)
         (Grp.sold acc + Grp.sold d)
         (Grp.cancelled acc + Grp.cancelled d)
         (add (Grp.soldAmount acc) (Grp.soldAmount d))
         (add (Grp.revenue acc) (Grp.revenue d)).

Record Weekly : Set := mkWeekly {
  rows : list WRow.t;
  totals : Totals.t
}.

(** [a === b] on numbers. *)
Definition strictEq (a b : number) : bool :=
  match a, b with
  | NaN, _ | _, NaN => false
  | _, _ => if number_eq_dec a b then true else false
  end.

Section Weekly.

(** [new Date(text + "T00:00:00")] read back with [getFullYear],
    [getMonth() + 1] and [getDate]; [None] when the time value is
    NaN.  Which texts are dates is left to the engine. *)
Variable localDate : string -> option (Z * Z * Z).

Definition inWindow (year month startDay endDay : number) (lead : Lead) : bool :=
  match localDate (date lead) with
  | None => false
  | Some (y, m, day) =>
      strictEq (of_Z y) year && strictEq (of_Z m) month
      && geb (of_Z day) startDay && leb (of_Z day) endDay
  end.

(** The table computed from the leads inside the window. *)
Definition weeklyOf (filtered : list Lead) : Weekly :=
  let grouped := fold_left groupStep filtered [] in
  let rows := sortRows bySpendDesc (map toRow (objectEntries grouped)) in
  let sums := fold_left addRow rows Grp.empty in
  mkWeekly rows (Totals.mk sums (average (replyTimesOf filtered))).

Definition weekly (leads : list Lead) (selectedMonth selectedWeek : string)
  : Weekly :=
  let monthParts := splitOn "-" selectedMonth in
  let weekParts := splitOn "-" selectedWeek in
  let year := numberAt monthParts 0 in
  let month := numberAt monthParts 1 in
  let startDay := numberAt weekParts 0 in
  let endDay := numberAt weekParts 1 in
  if negb (truthy year) || negb (truthy month)
     || negb (truthy startDay) || negb (truthy endDay)
  then mkWeekly [] (Totals.mk Grp.empty zero)
  else weeklyOf (List.filter (inWindow year month startDay endDay) leads).

End Weekly.

(** Direct aggregation over a set of leads, the way [stats] sums
    [leadCost]: one left-to-right pass from 0. *)
Definition directSum (amount : Lead -> string) (l : list Lead) : number :=
  fold_left (fun sum lead => add sum (parseMoney (amount lead))) l zero.

Definition directCount (flag : Lead -> YesNo) (l : list Lead) : Z :=
  countZ (List.filter (fun lead => YesNo_eqb (flag lead) Yes) l).

(* ================================================================== *)
(** ** Definitions used in the statements *)
(* ================================================================== *)

(** Integers of magnitude below 2^53 are binary64 values. *)
Definition wholeBound : Z := 2 ^ 53.

(** The integer part of a finite number. *)
Definition intOf (x : number) : Z :=
  match x with
  | Fin n => trunc n
  | _ => 0
  end.

(** A whole number of magnitude below 2^53. *)
Definition whole (x : number) : Prop :=
  Z.abs (intOf x) < wholeBound /\ x = of_Z (intOf x).

Definition zsum {A : Type} (f : A -> Z) (l : list A) : Z :=
  fold_right (fun e s => f e + s) 0 l.

(** The integer read from the text of an amount. *)
Definition amountInt (amount : Lead -> string) (lead : Lead) : Z :=
  intOf (parseMoney (amount lead)).

(** The amounts [amount] of the leads are whole and their magnitudes
    add up to less than 2^53. *)
Definition wholeAmounts (amount : Lead -> string) (l : list Lead) : Prop :=
  Forall (fun lead => whole (parseMoney (amount lead))) l
  /\ zsum (fun lead => Z.abs (amountInt amount lead)) l < wholeBound.

(** The integer held by the field [mf] of a group, and its magnitude. *)
Definition groupInt (mf : Grp.t -> number) (e : string * Grp.t) : Z :=
  intOf (mf (snd e)).

Definition groupAbs (mf : Grp.t -> number) (e : string * Grp.t) : Z :=
  Z.abs (intOf (mf (snd e))).

Definition groupsWhole (mf : Grp.t -> number) (acc : list (string * Grp.t)) : Prop :=
  Forall (fun e => whole (mf (snd e))) acc.

(** A lead with the given reply fields and nothing else. *)
Definition replyLead (minutes : string) (legacy : option string) : Lead :=
  mkLead "lead" {|
    date := "2026-02-01"; customer := "Curtis L."; leadSource := "Yelp";
    jobType := "Service"; leadCost := "$0"; jobWon := No; comments := "";
    replyTimeCategory := Cat_Weekend; replyTimeMinutes := minutes;
    booked := No; sold := No; cancelled := No;
    soldAmount := "$0"; revenue := "$0"; replyTime := legacy |}.

(** The day ranges behind the labels of [weeksLoop]. *)
Fixpoint rangesLoop (fuel : nat) (start lastDay : Z) : list (Z * Z) :=
  match fuel with
  | O => []
  | S fuel' =>
      if start <=? lastDay
      then (start, Z.min (start + 6) lastDay) :: rangesLoop fuel' (start + 7) lastDay
      else []
  end.

(** [ranges] are contiguous ranges of one to seven days that begin at
    [start] and end at [lastDay]. *)
Fixpoint contiguousFrom (start : Z) (ranges : list (Z * Z)) (lastDay : Z) : Prop :=
  match ranges with
  | [] => start = lastDay + 1
  | (a, b) :: rest =>
      a = start /\ a <= b <= a + 6 /\ b <= lastDay
      /\ contiguousFrom (b + 1) rest lastDay
  end.

Definition rangeLabel (r : Z * Z) : string := weekLabel (fst r) (snd r).

(** Quote-aware splitting of a line on commas, described on the
    characters that remain: [inQuotes] tells whether a quoted region is
    open and [current] is the field read so far. *)
Fixpoint quoteFields (inQuotes : bool) (current : string) (line : string)
  : list string :=
  match line with
  | EmptyString => [trim current]
  | String ch rest =>
      if Ascii.eqb ch quote then
        if inQuotes then
          match rest with
          | String next rest' =>
              if Ascii.eqb next quote
              then quoteFields true (push current quote) rest'
              else quoteFields false current rest
          | EmptyString => quoteFields false current rest
          end
        else quoteFields true current rest
      else if Ascii.eqb ch comma && negb inQuotes then
        trim current :: quoteFields false EmptyString rest
      else quoteFields inQuotes (push current ch) rest
  end.

(** The lines of the text as they are, before any trimming. *)
Definition firstRawLine (text : string) : option string :=
  List.find nonEmpty (splitLines text).

(** The document written for a lead input: [{ ...lead, jobWon: lead.sold }]. *)
Definition stamp (lead : LeadInput) : LeadInput := withJobWon (sold lead) lead.

(** The mapped rows that pass the check on [date] and [customer]. *)
Definition acceptedLeads (rows : list Row) : list LeadInput :=
  List.filter accepted (map normalizeImportedLead rows).

Definition addDocs (leads : list LeadInput) (store : Store) : Store :=
  fold_left (fun s lead => addDoc lead s) leads store.

(** [jobWon] mirrors [sold]. *)
Definition mirrored (d : Doc) : Prop := jobWon (docData d) = sold (docData d).

(** The name sends the file through the tabular reader: it ends in
    none of [.json], [.xlsx], [.xls]. *)
Definition tabularName (name : string) : bool :=
  let lowerName := toLowerCase name in
  negb (endsWith ".json" lowerName)
  && negb (endsWith ".xlsx" lowerName || endsWith ".xls" lowerName).

Definition csvOrTsvName (name : string) : bool :=
  let lowerName := toLowerCase name in
  endsWith ".csv" lowerName || endsWith ".tsv" lowerName.

(** The scorecard of the example: a header row with two week columns,
    the section start, one channel and the section end. *)
Definition exampleScorecard : string :=
  "Channel,JAN: 6,JAN: 13" ++ String lf
  ("Channel Performance" ++ String lf
  ("Yelp,3,0" ++ String lf
  ("Brand & Reputation" ++ String lf EmptyString))).

Definition exampleMatrix : list (list string) :=
  [["Channel"; "JAN: 6"; "JAN: 13"]; ["Channel Performance"];
   ["Yelp"; "3"; "0"]; ["Brand & Reputation"]].

(** The leads expected of the example scorecard. *)
Definition yelpLead (year : Z) (n : string) : LeadInput := {|
  date := ofZ year ++ "-01-06";
  customer := "Imported Yelp Lead " ++ n;
  leadSource := "Yelp";
  jobType := "Imported";
  leadCost := "$0";
  jobWon := No;
  comments := "Imported from marketing scorecard (JAN: 6)";
  replyTimeCategory := defaultReplyCategory;
  replyTimeMinutes := "";
  booked := No;
  sold := No;
  cancelled := No;
  soldAmount := "$0";
  revenue := "$0";
  replyTime := None |}.

(** No JSON and no workbook: stand-ins for the two external readers. *)
Definition noJson (_ : string) : option (list Row) := None.
Definition noSheet (_ : string) : option (list (list (string * string))) := None.

Section Window.

Variable localDate : string -> option (Z * Z * Z).

(** The leads the weekly table is computed from: none when the
    selectors are not numbers, else the leads inside the window. *)
Definition windowLeads (leads : list Lead) (selectedMonth selectedWeek : string)
  : list Lead :=
  let monthParts := splitOn "-" selectedMonth in
  let weekParts := splitOn "-" selectedWeek in
  let year := numberAt monthParts 0 in
  let month := numberAt monthParts 1 in
  let startDay := numberAt weekParts 0 in
  let endDay := numberAt weekParts 1 in
  if negb (truthy year) || negb (truthy month)
     || negb (truthy startDay) || negb (truthy endDay)
  then []
  else List.filter (inWindow localDate year month startDay endDay) leads.

End Window.

(** No lead is keyed by a property name that objects inherit. *)
Definition ownKeys (l : list Lead) : Prop :=
  Forall (fun lead => isInherited (groupKey lead) = false) l.

(** A lead of 2 April 2026 with a source, a cost and a booked flag. *)
Definition costLead (source cost : string) (isBooked : YesNo) : Lead :=
  mkLead "lead" {|
    date := "2026-04-02"; customer := "Customer"; leadSource := source;
    jobType := "Service"; leadCost := cost; jobWon := No; comments := "";
    replyTimeCategory := defaultReplyCategory; replyTimeMinutes := "5";
    booked := isBooked; sold := No; cancelled := No;
    soldAmount := "$0"; revenue := "$0"; replyTime := None |}.

Definition dimeLeads : list Lead :=
  [costLead "C" "0.1" No; costLead "B" "0.2" No; costLead "A" "0.3" No].

Definition wholeLeads : list Lead :=
  [costLead "A" "100" Yes; costLead "B" "50" No].

(** The value of a finite number in units of 2^-1074, exactly. *)
Definition units (x : number) : Z :=
  match x with
  | Fin n => n
  | _ => 0
  end.

(** The fallback gate of the import, read off the file: a name in
    [.csv] or [.tsv], at least one row read, and no row accepted. *)
Definition fallbackDue (rowsRead : option (list Row)) (name : string) : bool :=
  csvOrTsvName name
  && match rowsRead with
     | Some (row :: rest) =>
         match acceptedLeads (row :: rest) with
         | [] => true
         | _ => false
         end
     | _ => false
     end.

(** A row whose [job won] and [sold] columns disagree. *)
Definition disagreeingRow : Row :=
  <["date" := "2026-02-01"]>
    (<["customer" := "Jordan Hancock"]>
       (<["job won" := "Yes"]> (<["sold" := "No"]> ∅))).

(** A double quote as a string. *)
Definition quoteText : string := String quote EmptyString.

(** A line of two quoted fields: the first holds a comma, the second
    the word no between doubled quotes. *)
Definition quotedLine : string :=
  quoteText ++ "Curtis, L." ++ quoteText ++ ","
    ++ quoteText ++ "said " ++ quoteText ++ quoteText ++ "no"
    ++ quoteText ++ quoteText ++ " twice" ++ quoteText.

(* ================================================================== *)
(** ** Further definitions used in the statements *)
(* ================================================================== *)

(** The value of a decimal numeral read from the left, after [acc]. *)
Fixpoint uintValue (acc : Z) (d : Decimal.uint) : Z :=
  match d with
  | Decimal.Nil => acc
  | Decimal.D0 l => uintValue (acc * 10 + 0) l
  | Decimal.D1 l => uintValue (acc * 10 + 1) l
  | Decimal.D2 l => uintValue (acc * 10 + 2) l
  | Decimal.D3 l => uintValue (acc * 10 + 3) l
  | Decimal.D4 l => uintValue (acc * 10 + 4) l
  | Decimal.D5 l => uintValue (acc * 10 + 5) l
  | Decimal.D6 l => uintValue (acc * 10 + 6) l
  | Decimal.D7 l => uintValue (acc * 10 + 7) l
  | Decimal.D8 l => uintValue (acc * 10 + 8) l
  | Decimal.D9 l => uintValue (acc * 10 + 9) l
  end.

(** No white space at the start, respectively at the end. *)
Definition noLeadingSpace (s : string) : bool :=
  match s with
  | EmptyString => true
  | String c _ => negb (isSpace c)
  end.

Fixpoint noTrailingSpace (s : string) : bool :=
  match s with
  | EmptyString => true
  | String c EmptyString => negb (isSpace c)
  | String _ r => noTrailingSpace r
  end.

(** The last position of [key] among the headers, counting from [i]. *)
Fixpoint lastIndexFrom (i : nat) (key : string) (headers : list string)
  : option nat :=
  match headers with
  | [] => None
  | h :: rest =>
      match lastIndexFrom (S i) key rest with
      | Some j => Some j
      | None => if String.eqb h key then Some i else None
      end
  end.

Definition lastIndexOf (key : string) (headers : list string) : option nat :=
  lastIndexFrom 0 key headers.

(** Upper-case ASCII letters. *)
Definition isUpperAscii (c : ascii) : bool := (65 <=? code c) && (code c <=? 90).

(** A character of a normalized header: no underscore, no upper-case
    ASCII letter, and no white space but the space. *)
Definition headerChar (c : ascii) : bool :=
  negb (isUpperAscii c) && negb (Ascii.eqb c "_")
  && (negb (isSpace c) || Ascii.eqb c " ").

Fixpoint noDoubleSpace (s : string) : bool :=
  match s with
  | String " " ((String " " _) as r) => false
  | String _ r => noDoubleSpace r
  | EmptyString => true
  end.

(** The row has a non-empty value under [key]. *)
Definition filled (row : Row) (key : string) : bool :=
  match row !! key with
  | Some value => nonEmpty value
  | None => false
  end.

(** A row with a date and a customer where only the [sold] column is
    given. *)
Definition soldOnlyRow : Row :=
  <["date" := "2026-02-01"]>
    (<["customer" := "Jordan Hancock"]> (<["sold" := "YES"]> ∅)).

(** The leads filed under the reply-time category [c]. *)
Definition ofCategory (c : ReplyTimeCategory) (leads : list Lead) : list Lead :=
  List.filter (fun lead : Lead => category_eqb c (replyTimeCategory lead)) leads.

(** Numbers from the largest down: each is at least the next one. *)
Fixpoint descending (l : list number) : bool :=
  match l with
  | [] => true
  | a :: r =>
      match r with
      | b :: _ => geb a b
      | [] => true
      end && descending r
  end.

(** The leads grouped under [key], in list order, and the accumulator
    they build from the empty one. *)
Definition groupLeads (key : string) (l : list Lead) : list Lead :=
  List.filter (fun lead : Lead => String.eqb (groupKey lead) key) l.

Definition groupOf (key : string) (l : list Lead) : Grp.t :=
  fold_left (fun g lead => addLead lead g) (groupLeads key l) Grp.empty.

(** [acc[key]] on own keys. *)
Fixpoint groupAt (key : string) (acc : Groups) : option Grp.t :=
  match acc with
  | [] => None
  | (k, g) :: rest => if String.eqb k key then Some g else groupAt key rest
  end.

(** [toMonthValue(date)], on the year and the month index (January is
    0) that the date gives in local time. *)
Definition toMonthValue (fullYear monthIndex : Z) : string :=
  ofZ fullYear ++ "-" ++ padStart 2 "0" (ofZ (monthIndex + 1)).

Definition isDash (c : ascii) : bool := Ascii.eqb c "-".

(** The date read from a lead lies in the year [y], the month [m] and
    the days [a] to [b]. *)
Definition dayInRange (y m a b : Z) (ymd : option (Z * Z * Z)) : bool :=
  match ymd with
  | Some (y', m', d) => (y' =? y) && (m' =? m) && (a <=? d) && (d <=? b)
  | None => false
  end.

(** The parts of a date are integers of magnitude below 2^53. *)
Definition boundedDate (ymd : option (Z * Z * Z)) : bool :=
  match ymd with
  | Some (y, m, d) =>
      (Z.abs y <? wholeBound) && (Z.abs m <? wholeBound) && (Z.abs d <? wholeBound)
  | None => true
  end.

(** The table of a selection that names no window. *)
Definition emptyWeekly : Weekly := mkWeekly [] (Totals.mk Grp.empty zero).

(** What every lead made from a scorecard cell looks like. *)
Definition syntheticShape (lead : LeadInput) : Prop :=
  jobType lead = "Imported"
  /\ leadCost lead = "$0" /\ soldAmount lead = "$0" /\ revenue lead = "$0"
  /\ jobWon lead = No /\ booked lead = No /\ sold lead = No /\ cancelled lead = No
  /\ replyTimeMinutes lead = "" /\ replyTimeCategory lead = defaultReplyCategory
  /\ trim (leadSource lead) = leadSource lead
  /\ nonEmpty (leadSource lead) = true
  /\ includesNoCase "goal" (leadSource lead) = false
  /\ includesNoCase "actual" (leadSource lead) = false
  /\ (exists i, 1 <= i
                /\ customer lead = "Imported " ++ leadSource lead ++ " Lead " ++ ofZ i)
  /\ accepted lead = true.

(** The integer spelled by the first run of digits of a text, 0 without
    a digit: what a scorecard cell and a legacy reply time stand for. *)
Definition firstInteger (raw : string) : Z :=
  match matchDigits raw with
  | Some ds => digitsValue ds
  | None => 0
  end.

(** A week column as read from the header cell [value] at index 1. *)
Definition weekOne (value : string) : WeekColumn := mkWeekColumn 1 value.

(** The statuses an import shows when it has written nothing: the one
    it found, or one of its three fixed messages. *)
Definition quietStatuses (status : string) : list string :=
  [status; importFailed;
   "No rows found. Check file headers and content.";
   "Imported 0 rows. Make sure date + customer are present."].

(* ================================================================== *)
(** ** Deleting the collection *)
(* ================================================================== *)

(** The state of the loop of [deleteAllLeads]: the collection, the
    references queued in the open batch, the two counters, and the
    batches committed so far, oldest first. *)
Record DeleteLoop : Set := mkDeleteLoop {
  delStore : Store;
  delBatch : list nat;
  opCount : Z;
  deleted : Z;
  committed : list (list nat)
}.

(** [batch.commit()]: the queued deletions are applied together. *)
Definition commitBatch (batch : list nat) (store : Store) : Store :=
  List.filter (fun d => negb (existsb (Nat.eqb (docId d)) batch)) store.

Definition batchLimit : Z := 400.

(** One iteration of the loop over the documents of the snapshot. *)
Definition deleteStep (st : DeleteLoop) (row : Doc) : DeleteLoop :=
  let batch := (delBatch st ++ [docId row])%list in
  let ops := opCount st + 1 in
  let count := deleted st + 1 in
  if ops =? batchLimit
  then mkDeleteLoop (commitBatch batch (delStore st)) [] 0 count
                    (committed st ++ [batch])%list
  else mkDeleteLoop (delStore st) batch ops count (committed st).

Record DeleteOutcome : Set := mkDeleteOutcome {
  leftStore : Store;
  leftMessage : string;
  batches : list (list nat)
}.

(** [confirmed] is the answer to the confirmation dialog, which is asked
    only of a signed-in user. *)
Definition deleteAllLeads (user confirmed : bool) (store : Store) (message : string)
  : DeleteOutcome :=
  if negb user then mkDeleteOutcome store message []
  else if negb confirmed then mkDeleteOutcome store message []
  else
    match store with
    | [] => mkDeleteOutcome store "No leads to delete." []
    | _ =>
        let st := fold_left deleteStep store (mkDeleteLoop store [] 0 0 []) in
        let st' :=
          if 0 <? opCount st
          then mkDeleteLoop (commitBatch (delBatch st) (delStore st)) (delBatch st)
                            (opCount st) (deleted st)
                            (committed st ++ [delBatch st])%list
          else st in
        mkDeleteOutcome (delStore st')
                        ("Deleted " ++ ofZ (deleted st') ++ " leads.")
                        (committed st')
    end.

(** A collection of [n] documents with the ids 1 to [n]. *)
Definition sampleStore (n : nat) : Store :=
  map (fun i => mkDoc i emptyLead) (seq 1 n).

(* ================================================================== *)
(** ** Reading the collection *)
(* ================================================================== *)

(** The data of a stored document, [Partial<LeadInput>] with the legacy
    field: every field may be missing. *)
Record RawDoc : Set := mkRawDoc {
  rawDate : option string;
  rawCustomer : option string;
  rawLeadSource : option string;
  rawJobType : option string;
  rawLeadCost : option string;
  rawJobWon : option YesNo;
  rawComments : option string;
  rawReplyTimeCategory : option ReplyTimeCategory;
  rawReplyTimeMinutes : option string;
  rawBooked : option YesNo;
  rawSold : option YesNo;
  rawCancelled : option YesNo;
  rawSoldAmount : option string;
  rawRevenue : option string;
  rawReplyTime : option string
}.

(** The mapping of one document of the snapshot to a lead. *)
Definition fromSnapshot (itemId : string) (data : RawDoc) : Lead :=
  let category :=
    match rawReplyTimeCategory data with
    | Some c => c
    | None =>
        match rawReplyTime data with
        | Some rt =>
            if includes "weekend" (toLowerCase rt) then Cat_Weekend
            else defaultReplyCategory
        | None => defaultReplyCategory
        end
    end in
  let minutes :=
    orElse (default "" (rawReplyTimeMinutes data))
           (match rawReplyTime data with
            | Some rt => default "" (matchDigits rt)
            | None => ""
            end) in
  let soldValue :=
    match rawSold data with
    | Some v => v
    | None => match rawJobWon data with Some Yes => Yes | _ => No end
    end in
  let bookedValue :=
    match rawBooked data with
    | Some v => v
    | None => soldValue
    end in
  mkLead itemId {|
    date := default "" (rawDate data);
    customer := default "" (rawCustomer data);
    leadSource := default "" (rawLeadSource data);
    jobType := default "" (rawJobType data);
    leadCost := default "" (rawLeadCost data);
    jobWon := match rawJobWon data with Some Yes => Yes | _ => No end;
    comments := default "" (rawComments data);
    replyTimeCategory := category;
    replyTimeMinutes := minutes;
    booked := bookedValue;
    sold := soldValue;
    cancelled := match rawCancelled data with Some Yes => Yes | _ => No end;
    soldAmount := default "" (rawSoldAmount data);
    revenue := default "" (rawRevenue data);
    replyTime := rawReplyTime data |}.

(** The document a write stores for a lead: every field of the lead. *)
Definition storedFields (lead : LeadInput) : RawDoc := {|
  rawDate := Some (date lead);
  rawCustomer := Some (customer lead);
  rawLeadSource := Some (leadSource lead);
  rawJobType := Some (jobType lead);
  rawLeadCost := Some (leadCost lead);
  rawJobWon := Some (jobWon lead);
  rawComments := Some (comments lead);
  rawReplyTimeCategory := Some (replyTimeCategory lead);
  rawReplyTimeMinutes := Some (replyTimeMinutes lead);
  rawBooked := Some (booked lead);
  rawSold := Some (sold lead);
  rawCancelled := Some (cancelled lead);
  rawSoldAmount := Some (soldAmount lead);
  rawRevenue := Some (revenue lead);
  rawReplyTime := replyTime lead |}.

(** A document from before the minutes field: a customer, a won job and
    a reply time in words. *)
Definition legacyDoc (replyText : string) : RawDoc := {|
  rawDate := Some "2025-11-03";
  rawCustomer := Some "Dana W.";
  rawLeadSource := Some "Yelp";
  rawJobType := Some "Service";
  rawLeadCost := Some "$25";
  rawJobWon := Some Yes;
  rawComments := None;
  rawReplyTimeCategory := None;
  rawReplyTimeMinutes := None;
  rawBooked := None;
  rawSold := None;
  rawCancelled := None;
  rawSoldAmount := None;
  rawRevenue := None;
  rawReplyTime := Some replyText |}.

(** The leads whose group key is not a property name that objects
    inherit. *)
Definition ownLeads (l : list Lead) : list Lead :=
  List.filter (fun lead : Lead => negb (isInherited (groupKey lead))) l.

(* ================================================================== *)
(** ** Aggregation: [weeklyRatios] *)
(* ================================================================== *)

Module Ratios.
Record t : Set := mk {
  cpl : number;
  costPerBooked : number;
  roasX : number;
  bookingRate : number;
  closeRate : number;
  cancellingRate : number
}.
End Ratios.

(** The counters of the totals are whole numbers; [of_Z] is their value
    as a number. *)
Definition weeklyRatios (w : Weekly) : Ratios.t :=
  let s := Totals.sums (totals w) in
  let leadCount := Grp.leads s in
  let bookedCount := Grp.booked s in
  Ratios.mk
    (if 0 <? leadCount then div (Grp.spend s) (of_Z leadCount) else zero)
    (if 0 <? bookedCount then div (Grp.spend s) (of_Z bookedCount) else zero)
    (if gtb (Grp.spend s) zero then div (Grp.soldAmount s) (Grp.spend s) else zero)
    (if 0 <? leadCount then div (of_Z bookedCount) (of_Z leadCount) else zero)
    (if 0 <? bookedCount then div (of_Z (Grp.sold s)) (of_Z bookedCount) else zero)
    (if 0 <? bookedCount then div (of_Z (Grp.cancelled s)) (of_Z bookedCount) else zero).

(* ================================================================== *)
(** * Properties *)
(* ================================================================== *)

(** Split a conjunction into its parts, and nothing else. *)
Ltac split_conj := lazy zeta; repeat match goal with |- _ /\ _ => split end.

(** Close an equation between closed terms by evaluation. *)
Ltac by_evaluation := vm_compute; reflexivity.

(** Peel a [Forall] over an explicit list. *)
Ltac forall_cases :=
  repeat match goal with
         | |- Forall _ (_ :: _) => constructor
         | |- Forall _ [] => constructor
         end.

(* ================================================================== *)
(** ** Numbers: whole values are exact *)
(* ================================================================== *)

Lemma rne_exact (q b : Z) : 0 < b -> rne (q * b) b = q.
Proof.
  intros Hb. unfold rne.
  rewrite Z.div_mul by lia. rewrite Z.mod_mul by lia.
  replace (2 * 0) with 0 by lia.
  destruct (0 ?= b) eqn:E; try reflexivity.
  - apply Z.compare_eq in E. lia.
  - apply Z.compare_gt_iff in E. lia.
Qed.

Lemma round_shift_le (z : Z) :
  0 < z < wholeBound -> 0 <= round_shift (z * unit_scale) <= ulp_exp.
Proof.
  intros [Hpos Hlt]. unfold round_shift, unit_scale, ulp_exp, precision.
  rewrite Z.log2_mul_pow2 by lia.
  assert (Z.log2 z < 53) by (apply Z.log2_lt_pow2; [lia | exact Hlt]).
  lia.
Qed.

Lemma of_Z_exact (z : Z) : Z.abs z < wholeBound -> of_Z z = Fin (z * unit_scale).
Proof.
  intros Hz. unfold of_Z, round_units.
  rewrite Z.div_1_r, Z.mul_1_l.
  destruct (Z.eq_dec z 0) as [->|Hnz]; [reflexivity|].
  rewrite Z.abs_mul, (Z.abs_eq unit_scale) by (unfold unit_scale; apply Z.pow_nonneg; lia).
  set (s := round_shift (Z.abs z * unit_scale)).
  assert (Hs : 0 <= s <= ulp_exp) by (apply round_shift_le; lia).
  assert (Hsplit : z * unit_scale = (z * 2 ^ (ulp_exp - s)) * 2 ^ s).
  { unfold unit_scale. rewrite <- Z.mul_assoc, <- Z.pow_add_r by lia.
    f_equal. f_equal. lia. }
  assert (Hr : rne (z * unit_scale) (2 ^ s) * 2 ^ s = z * unit_scale).
  { rewrite Hsplit at 1. rewrite rne_exact by (apply Z.pow_pos_nonneg; lia).
    symmetry. exact Hsplit. }
  rewrite !Hr.
  assert (Hb : Z.abs (z * unit_scale) < overflow_units).
  { rewrite Z.abs_mul, (Z.abs_eq unit_scale) by (unfold unit_scale; apply Z.pow_nonneg; lia).
    unfold overflow_units, unit_scale, ulp_exp.
    replace 2098 with (1024 + 1074) by lia. rewrite Z.pow_add_r by lia.
    apply Z.mul_lt_mono_pos_r; [apply Z.pow_pos_nonneg; lia|].
    eapply Z.lt_trans; [exact Hz|]. unfold wholeBound. apply Z.pow_lt_mono_r; lia. }
  destruct (Z.leb_spec overflow_units (z * unit_scale)); [lia|].
  destruct (Z.leb_spec (z * unit_scale) (- overflow_units)); [lia|].
  reflexivity.
Qed.

Lemma add_of_Z (a b : Z) :
  Z.abs a < wholeBound -> Z.abs b < wholeBound -> add (of_Z a) (of_Z b) = of_Z (a + b).
Proof.
  intros Ha Hb. rewrite (of_Z_exact a Ha), (of_Z_exact b Hb).
  unfold add, of_Z. f_equal. lia.
Qed.

Lemma trunc_scaled (z : Z) : trunc (z * unit_scale) = z.
Proof.
  unfold trunc. apply Z.quot_mul. unfold unit_scale. 
  assert (0 < 2 ^ ulp_exp) by (apply Z.pow_pos_nonneg; unfold ulp_exp; lia). lia.
Qed.

(* ================================================================== *)
(** ** Strings *)
(* ================================================================== *)

Lemma keep_all (p : ascii -> bool) (s : string) : all p (keep p s) = true.
Proof.
  induction s as [|c r IH]; simpl; [reflexivity|].
  destruct (p c) eqn:E; simpl; [rewrite E, IH; reflexivity | exact IH].
Qed.

Lemma moneyChar_not_space (c : ascii) : moneyChar c = true -> isSpace c = false.
Proof.
  unfold moneyChar, isSpace, isDigit. intros H.
  destruct (Ascii.eqb_spec c "."); [subst; reflexivity|].
  destruct (Ascii.eqb_spec c "-"); [subst; reflexivity|].
  rewrite !orb_false_r in H. apply andb_true_iff in H as [H1 H2].
  apply Z.leb_le in H1. apply Z.leb_le in H2.
  destruct (Z.leb_spec 9 (code c)), (Z.leb_spec (code c) 13),
    (Z.eqb_spec (code c) 32), (Z.eqb_spec (code c) 160); simpl; try reflexivity; lia.
Qed.

Lemma trimEnd_no_space (s : string) : all (fun c => negb (isSpace c)) s = true -> trimEnd s = s.
Proof.
  induction s as [|c r IH]; simpl; [reflexivity|].
  intros H. apply andb_true_iff in H as [Hc Hr]. rewrite (IH Hr).
  destruct r; [|reflexivity].
  apply negb_true_iff in Hc. rewrite Hc. reflexivity.
Qed.

Lemma trim_no_space (s : string) : all (fun c => negb (isSpace c)) s = true -> trim s = s.
Proof.
  intros H. unfold trim.
  assert (trimStart s = s) as ->.
  { destruct s as [|c r]; simpl; [reflexivity|].
    simpl in H. apply andb_true_iff in H as [Hc _]. apply negb_true_iff in Hc.
    rewrite Hc. reflexivity. }
  apply trimEnd_no_space, H.
Qed.

Lemma all_impl (p q : ascii -> bool) (s : string) :
  (forall c, p c = true -> q c = true) -> all p s = true -> all q s = true.
Proof.
  intros Hpq. induction s as [|c r IH]; simpl; [reflexivity|].
  intros H. apply andb_true_iff in H as [Hc Hr]. rewrite (Hpq c Hc), (IH Hr). reflexivity.
Qed.

(** On a string of digits, dots and minus signs the conversion is the
    reading of a signed decimal literal. *)
Lemma Number_money (t : string) :
  all moneyChar t = true ->
  Number t =
    match t with
    | EmptyString => zero
    | String "-" r => neg (unsignedDecimal r)
    | _ => unsignedDecimal t
    end.
Proof.
  intros H. unfold Number.
  rewrite trim_no_space
    by (eapply all_impl; [|exact H]; intros c Hc; rewrite moneyChar_not_space; auto).
  destruct t as [|c r]; [reflexivity|].
  assert (Hp : radixPrefix (String c r) = None).
  { simpl. destruct (Ascii.eqb_spec c "0"); [subst|].
    - destruct r as [|x r']; [reflexivity|].
      simpl in H. apply andb_true_iff in H as [Hx _].
      unfold moneyChar, isDigit in Hx.
      destruct (Ascii.eqb_spec x "x"); [subst; discriminate|].
      destruct (Ascii.eqb_spec x "X"); [subst; discriminate|].
      destruct (Ascii.eqb_spec x "o"); [subst; discriminate|].
      destruct (Ascii.eqb_spec x "O"); [subst; discriminate|].
      destruct (Ascii.eqb_spec x "b"); [subst; discriminate|].
      destruct (Ascii.eqb_spec x "B"); [subst; discriminate|].
      reflexivity.
    - destruct c as [[] [] [] [] [] [] [] []]; try reflexivity; congruence. }
  rewrite Hp.
  destruct (Ascii.eqb_spec c "+") as [->|Hplus]; [discriminate H|].
  destruct (Ascii.eqb_spec c "-") as [->|Hminus]; [reflexivity|].
  destruct c as [[] [] [] [] [] [] [] []]; try reflexivity; congruence.
Qed.

(* ================================================================== *)
(** ** Calendar and the loop of [monthWeeks] *)
(* ================================================================== *)

Lemma weeksLoop_ranges (fuel : nat) (start lastDay : Z) :
  weeksLoop fuel start lastDay = map rangeLabel (rangesLoop fuel start lastDay).
Proof.
  revert start. induction fuel as [|fuel IH]; intros start; simpl; [reflexivity|].
  destruct (start <=? lastDay); [|reflexivity].
  simpl. rewrite IH. reflexivity.
Qed.

Lemma rangesLoop_contiguous (fuel : nat) (start lastDay : Z) :
  start <= lastDay + 1 -> lastDay + 1 - start <= Z.of_nat fuel ->
  contiguousFrom start (rangesLoop fuel start lastDay) lastDay.
Proof.
  revert start. induction fuel as [|fuel IH]; intros start Hle Hfuel; simpl.
  - lia.
  - destruct (Z.leb_spec start lastDay) as [Hin|Hout]; simpl; [|lia].
    split_conj; try lia.
    destruct (Z.le_gt_cases (start + 6) lastDay) as [Hfull|Hshort].
    + rewrite Z.min_l by lia.
      replace (start + 6 + 1) with (start + 7) by lia. apply IH; lia.
    + rewrite Z.min_r by lia.
      destruct fuel as [|fuel']; simpl.
      * reflexivity.
      * destruct (Z.leb_spec (start + 7) lastDay); [lia|]. reflexivity.
Qed.

Lemma isLeap_1900 (y : Z) : 0 <= y <= 99 -> y <> 0 -> isLeap (1900 + y) = isLeap y.
Proof.
  intros Hy Hnz. unfold isLeap.
  replace ((1900 + y) mod 4) with (y mod 4)
    by (replace (1900 + y) with (y + 475 * 4) by lia; rewrite Z.mod_add; lia).
  replace ((1900 + y) mod 100) with (y mod 100)
    by (replace (1900 + y) with (y + 19 * 100) by lia; rewrite Z.mod_add; lia).
  assert (((1900 + y) mod 400 =? 0) = false) as ->.
  { apply Z.eqb_neq. replace (1900 + y) with (300 + y + 4 * 400) by lia.
    rewrite Z.mod_add by lia. rewrite Z.mod_small; lia. }
  assert ((y mod 400 =? 0) = false) as ->.
  { apply Z.eqb_neq. rewrite Z.mod_small; lia. }
  reflexivity.
Qed.

Lemma daysInMonth_range (y m : Z) : 28 <= daysInMonth y m <= 31.
Proof.
  unfold daysInMonth.
  destruct (m =? 2); [destruct (isLeap y); lia|].
  destruct ((m =? 4) || (m =? 6) || (m =? 9) || (m =? 11)); lia.
Qed.

Lemma daysFromCivil_bound (y m d : Z) :
  -10000 <= y <= 20000 -> 1 <= m <= 12 -> 1 <= d <= 31 ->
  Z.abs (daysFromCivil y m d) <= maxDay.
Proof.
  intros Hy Hm Hd. unfold daysFromCivil, maxDay.
  destruct (Z.leb_spec m 2), (Z.ltb_spec 2 m); try lia.
  all: Z.div_mod_to_equations; lia.
Qed.

Lemma lastDayOfMonth_valid (y m : Z) :
  1 <= y <= 9999 -> 1 <= m <= 12 ->
  lastDayOfMonth (of_Z y) (of_Z m) = Some (daysInMonth y m).
Proof.
  intros Hy Hm.
  rewrite (of_Z_exact y), (of_Z_exact m) by (unfold wholeBound; lia).
  unfold lastDayOfMonth. rewrite !trunc_scaled.
  set (yf := if (0 <=? y) && (y <=? 99) then 1900 + y else y).
  assert (Hyf : 1 <= yf <= 9999 /\ forall k, daysInMonth yf k = daysInMonth y k).
  { unfold yf. destruct (Z.leb_spec 0 y), (Z.leb_spec y 99); simpl; try lia.
    - split; [lia|]. intros k. unfold daysInMonth. rewrite isLeap_1900 by lia. reflexivity.
    - split; [lia|]. reflexivity. }
  destruct Hyf as [Hyf Hdays].
  assert (Hpair : (if m mod 12 =? 0 then (yf + m / 12 - 1, 12) else (yf + m / 12, m mod 12))
                  = (yf, m)).
  { destruct (Z.eq_dec m 12) as [->|Hne].
    - change (12 mod 12) with 0. change (12 / 12) with 1. simpl. f_equal. lia.
    - rewrite Z.mod_small, Z.div_small by lia.
      destruct (Z.eqb_spec m 0); [lia|]. f_equal. lia. }
  rewrite Hpair.
  pose proof (daysInMonth_range yf m) as Hr.
  destruct (Z.leb_spec (Z.abs (daysFromCivil yf m (daysInMonth yf m))) maxDay) as [_|Hbad].
  - rewrite Hdays. reflexivity.
  - pose proof (daysFromCivil_bound yf m (daysInMonth yf m)). lia.
Qed.

(* ================================================================== *)
(** ** The character loop of [parseLine] *)
(* ================================================================== *)

Lemma append_cons (a : ascii) (s t : string) :
  (String a s ++ t)%string = String a (s ++ t).
Proof. reflexivity. Qed.

Lemma append_nil_r (s : string) : (s ++ "")%string = s.
Proof. induction s as [|a s IH]; [reflexivity|]. rewrite append_cons, IH. reflexivity. Qed.

Lemma get_app_length (pre suf : string) (c : ascii) :
  String.get (String.length pre) (pre ++ String c suf) = Some c.
Proof. induction pre as [|a pre IH]; [reflexivity|]. rewrite append_cons. exact IH. Qed.

Lemma get_app_end (pre : string) : String.get (String.length pre) pre = None.
Proof. induction pre as [|a pre IH]; simpl; [reflexivity | exact IH]. Qed.

Lemma length_append (a b : string) :
  String.length (a ++ b) = (String.length a + String.length b)%nat.
Proof.
  induction a as [|c a IH]; [reflexivity|].
  rewrite append_cons. simpl. rewrite IH. reflexivity.
Qed.

Lemma append_push (pre suf : string) (c : ascii) :
  (pre ++ String c suf = push pre c ++ suf)%string.
Proof.
  unfold push. induction pre as [|a pre IH]; [reflexivity|].
  rewrite !append_cons, IH. reflexivity.
Qed.

Lemma push_length (pre : string) (c : ascii) :
  String.length (push pre c) = (String.length pre + 1)%nat.
Proof. unfold push. rewrite length_append. reflexivity. Qed.

(** The loop over indices, started in the middle of the line, yields
    the fields of the remaining characters. *)
Lemma scanLoop_quoteFields (fuel : nat) :
  forall (pre suf current : string) (inQuotes : bool) (values : list string),
    (String.length suf <= fuel)%nat ->
    let st := scanLoop fuel (pre ++ suf)
                (mkScan (String.length pre) current inQuotes values) in
    (scanValues st ++ [trim (scanCurrent st)])%list
    = (values ++ quoteFields inQuotes current suf)%list.
Proof.
  induction fuel as [|fuel IH]; intros pre suf current inQuotes values Hfuel.
  - destruct suf; [|simpl in Hfuel; lia]. reflexivity.
  - destruct suf as [|ch rest].
    + simpl. rewrite length_append. simpl.
      destruct (Nat.ltb_spec (String.length pre) (String.length pre + 0)); [lia|].
      reflexivity.
    + cbn [scanLoop scanIndex]. 
      rewrite length_append. cbn [String.length].
      destruct (Nat.ltb_spec (String.length pre) (String.length pre + S (String.length rest))); [|lia].
      unfold scanStep. cbn [scanIndex scanCurrent scanInQuotes scanValues].
      unfold charAt. rewrite get_app_length.
      cbn [quoteFields]. simpl in Hfuel.
      destruct (Ascii.eqb ch quote) eqn:Hq.
      * destruct inQuotes; cbn [andb negb].
        -- destruct rest as [|next rest'].
           ++ assert (String.get (String.length pre + 1) (pre ++ String ch "") = None) as ->.
              { rewrite append_push, <- (push_length pre ch).
                rewrite append_nil_r. apply get_app_end. }
              cbn [isChar].
              rewrite append_push, <- (push_length pre ch).
              apply (IH (push pre ch) "" current false values). simpl. lia.
           ++ assert (String.get (String.length pre + 1) (pre ++ String ch (String next rest')) = Some next) as ->.
              { rewrite append_push, <- (push_length pre ch). apply get_app_length. }
              cbn [isChar].
              destruct (Ascii.eqb next quote) eqn:Hn.
              ** rewrite append_push, (append_push (push pre ch)).
                 replace (String.length pre + 1 + 1)%nat
                   with (String.length (push (push pre ch) next))
                   by (rewrite !push_length; reflexivity).
                 apply (IH (push (push pre ch) next) rest' (push current quote) true values).
                 simpl in Hfuel. lia.
              ** rewrite append_push, <- (push_length pre ch).
                 apply (IH (push pre ch) (String next rest') current false values).
                 simpl in *. lia.
        -- rewrite append_push, <- (push_length pre ch).
           apply (IH (push pre ch) rest current true values). lia.
      * destruct (Ascii.eqb ch comma && negb inQuotes) eqn:Hc.
        -- rewrite append_push, <- (push_length pre ch).
           pose proof (IH (push pre ch) rest EmptyString false (values ++ [trim current])%list) as Hrest.
           cbn zeta in Hrest.
           apply andb_true_iff in Hc as [_ Hnq]. apply negb_true_iff in Hnq. subst inQuotes.
           rewrite Hrest by lia. rewrite <- app_assoc. reflexivity.
        -- rewrite append_push, <- (push_length pre ch).
           apply (IH (push pre ch) rest (push current ch) inQuotes values). lia.
Qed.

Lemma parseCommaLine_quoteFields (line : string) :
  parseCommaLine line = quoteFields false EmptyString line.
Proof.
  unfold parseCommaLine, scanStart.
  exact (scanLoop_quoteFields (String.length line) EmptyString line EmptyString false [] (le_n _)).
Qed.

(* ================================================================== *)
(** ** The import loops *)
(* ================================================================== *)

Lemma not_nonEmpty (s : string) : negb (nonEmpty s) = true <-> s = EmptyString.
Proof. destruct s; simpl; split; intros H; congruence. Qed.

Lemma accepted_false (lead : LeadInput) :
  accepted lead = false <-> date lead = EmptyString \/ customer lead = EmptyString.
Proof.
  unfold accepted. destruct (date lead), (customer lead); simpl; split; intros H;
    try congruence; try (left; reflexivity); try (right; reflexivity);
    destruct H; congruence.
Qed.

Lemma importRow_accepted (st : ImportLoop) (row : Row) :
  importRow st row =
    if accepted (normalizeImportedLead row)
    then mkImportLoop (addDoc (stamp (normalizeImportedLead row)) (loopStore st))
                      (importedCount st + 1)
    else st.
Proof.
  unfold importRow, accepted.
  destruct (nonEmpty (date (normalizeImportedLead row))),
    (nonEmpty (customer (normalizeImportedLead row))); reflexivity.
Qed.

Lemma importRows_spec (rows : list Row) (st : ImportLoop) :
  fold_left importRow rows st =
    mkImportLoop (addDocs (map stamp (acceptedLeads rows)) (loopStore st))
                 (importedCount st + countZ (acceptedLeads rows)).
Proof.
  revert st. induction rows as [|row rows IH]; intros st.
  - destruct st. unfold countZ. simpl. f_equal. lia.
  - cbn [fold_left]. rewrite IH, importRow_accepted.
    unfold acceptedLeads. cbn [map List.filter].
    destruct (accepted (normalizeImportedLead row)); cbn [map loopStore importedCount].
    + unfold addDocs. cbn [fold_left]. f_equal. unfold countZ. cbn [length]. lia.
    + reflexivity.
Qed.

Lemma addDocs_data (leads : list LeadInput) (store : Store) :
  map docData (addDocs leads store) = (map docData store ++ leads)%list.
Proof.
  revert store. induction leads as [|l leads IH]; intros store.
  - simpl. rewrite app_nil_r. reflexivity.
  - unfold addDocs in *. cbn [fold_left]. rewrite IH. unfold addDoc.
    rewrite map_app, <- app_assoc. reflexivity.
Qed.

Lemma addDocs_prefix (leads : list LeadInput) (store : Store) :
  exists written, addDocs leads store = (store ++ written)%list
                  /\ map docData written = leads.
Proof.
  revert store. induction leads as [|l leads IH]; intros store.
  - exists []. simpl. rewrite app_nil_r. split; reflexivity.
  - unfold addDocs in *. cbn [fold_left].
    destruct (IH (addDoc l store)) as (w & Hw & Hd).
    exists (mkDoc (freshId store) l :: w). rewrite Hw. unfold addDoc.
    rewrite <- app_assoc. split; [reflexivity|]. simpl. rewrite Hd. reflexivity.
Qed.

Lemma importScorecard_spec (leads : list LeadInput) (st : ImportLoop) :
  fold_left importScorecardLead leads st =
    mkImportLoop (addDocs (map stamp leads) (loopStore st))
                 (importedCount st + countZ leads).
Proof.
  revert st. induction leads as [|l leads IH]; intros st.
  - destruct st. unfold countZ. simpl. f_equal. lia.
  - cbn [fold_left]. rewrite IH. unfold importScorecardLead, addDocs.
    cbn [map fold_left loopStore importedCount]. f_equal.
    unfold countZ. cbn [length]. lia.
Qed.

Lemma countZ_zero {A : Type} (l : list A) : countZ l = 0 <-> l = [].
Proof.
  unfold countZ. destruct l; simpl; split; intros H; try reflexivity; try lia; discriminate.
Qed.

Lemma stamp_mirrored (lead : LeadInput) : jobWon (stamp lead) = sold (stamp lead).
Proof. reflexivity. Qed.

Lemma addDocs_stamp_mirrored (leads : list LeadInput) (store : Store) :
  Forall (fun d => d ∈ store \/ mirrored d) (addDocs (map stamp leads) store).
Proof.
  destruct (addDocs_prefix (map stamp leads) store) as (w & -> & Hd).
  apply Forall_app. split.
  - apply Forall_forall. intros d Hin. left. exact Hin.
  - apply Forall_forall. intros d Hin. right. unfold mirrored.
    assert (Hin' : In (docData d) (map docData w))
      by (apply in_map, list_elem_of_In; exact Hin).
    rewrite Hd in Hin'. apply in_map_iff in Hin' as (l & <- & _). reflexivity.
Qed.

(* ================================================================== *)
(** ** Grouping, sorting and summing *)
(* ================================================================== *)

Lemma zsum_app {A : Type} (f : A -> Z) (l1 l2 : list A) :
  zsum f (l1 ++ l2) = zsum f l1 + zsum f l2.
Proof. induction l1 as [|x l1 IH]; simpl; [reflexivity | rewrite IH; lia]. Qed.

Lemma zsum_perm {A : Type} (f : A -> Z) (l1 l2 : list A) :
  Permutation l1 l2 -> zsum f l1 = zsum f l2.
Proof. induction 1; simpl; lia. Qed.

Lemma zsum_map {A B : Type} (g : A -> B) (f : B -> Z) (l : list A) :
  zsum f (map g l) = zsum (fun x => f (g x)) l.
Proof. induction l as [|x l IH]; simpl; [reflexivity | rewrite IH; reflexivity]. Qed.

Lemma zsum_ext {A : Type} (f g : A -> Z) (l : list A) :
  (forall x, f x = g x) -> zsum f l = zsum g l.
Proof. intros H. induction l as [|x l IH]; simpl; [reflexivity | rewrite H, IH; reflexivity]. Qed.

Lemma zsum_abs_nonneg {A : Type} (f : A -> Z) (l : list A) :
  0 <= zsum (fun x => Z.abs (f x)) l.
Proof. induction l as [|x l IH]; simpl; lia. Qed.

Lemma zsum_abs_bound {A : Type} (f : A -> Z) (l : list A) :
  Z.abs (zsum f l) <= zsum (fun x => Z.abs (f x)) l.
Proof. induction l as [|x l IH]; simpl; lia. Qed.

Lemma insertIndexed_perm (x : Z * (string * Grp.t)) (l : list (Z * (string * Grp.t))) :
  Permutation (insertIndexed x l) (x :: l).
Proof.
  induction l as [|y l IH]; simpl; [reflexivity|].
  destruct (fst x <=? fst y); [reflexivity|].
  rewrite IH. apply perm_swap.
Qed.

Lemma sortIndexed_perm (l : list (Z * (string * Grp.t))) :
  Permutation (fold_right insertIndexed [] l) l.
Proof.
  induction l as [|x l IH]; simpl; [reflexivity|].
  rewrite insertIndexed_perm, IH. reflexivity.
Qed.

Lemma filter_split_perm {A : Type} (p : A -> bool) (l : list A) :
  Permutation (List.filter p l ++ List.filter (fun x => negb (p x)) l) l.
Proof.
  induction l as [|x l IH]; simpl; [reflexivity|].
  destruct (p x); simpl.
  - rewrite IH. reflexivity.
  - rewrite <- Permutation_middle, IH. reflexivity.
Qed.

Lemma objectEntries_perm (acc : Groups) : Permutation (objectEntries acc) acc.
Proof.
  unfold objectEntries.
  set (hasIndex := fun e : string * Grp.t =>
                     match arrayIndex (fst e) with Some _ => true | None => false end).
  rewrite sortIndexed_perm.
  assert (Hmap : map snd (omap (fun e => match arrayIndex (fst e) with
                                         | Some i => Some (i, e)
                                         | None => None
                                         end) acc)
                 = List.filter hasIndex acc).
  { induction acc as [|e acc IH]; [reflexivity|].
    cbn [omap list_omap List.filter]. unfold hasIndex at 1.
    destruct (arrayIndex (fst e)); cbn [map snd]; rewrite IH; reflexivity. }
  rewrite Hmap.
  assert (Hneg : List.filter (fun e : string * Grp.t =>
                                match arrayIndex (fst e) with
                                | Some _ => false
                                | None => true
                                end) acc
                 = List.filter (fun e => negb (hasIndex e)) acc).
  { apply filter_ext. intros e. unfold hasIndex. destruct (arrayIndex (fst e)); reflexivity. }
  rewrite Hneg. apply filter_split_perm.
Qed.

Lemma insertSorted_perm (cmp : WRow.t -> WRow.t -> number) (x : WRow.t) (l : list WRow.t) :
  Permutation (insertSorted cmp x l) (x :: l).
Proof.
  induction l as [|y l IH]; cbn [insertSorted]; [reflexivity|].
  destruct (gtb (cmp x y) zero); [|reflexivity].
  rewrite IH. apply perm_swap.
Qed.

Lemma sortRows_perm (cmp : WRow.t -> WRow.t -> number) (l : list WRow.t) :
  Permutation (sortRows cmp l) l.
Proof.
  unfold sortRows. induction l as [|x l IH]; simpl; [reflexivity|].
  rewrite insertSorted_perm, IH. reflexivity.
Qed.

Lemma rows_perm (acc : Groups) :
  Permutation (sortRows bySpendDesc (map toRow (objectEntries acc))) (map toRow acc).
Proof.
  rewrite sortRows_perm. apply Permutation_map, objectEntries_perm.
Qed.

Lemma toRow_data (e : string * Grp.t) : WRow.data (toRow e) = snd e.
Proof. destruct e. reflexivity. Qed.

Section CountField.

Variable cf : Grp.t -> Z.
Variable delta : Lead -> Z.
Hypothesis cf_empty : cf Grp.empty = 0.
Hypothesis cf_addLead : forall l g, cf (addLead l g) = cf g + delta l.
Hypothesis cf_addRow : forall acc r, cf (addRow acc r) = cf acc + cf (WRow.data r).

Let groupSum (acc : Groups) : Z := zsum (fun e => cf (snd e)) acc.

Lemma bump_count (lead : Lead) (key : string) (acc : Groups) :
  groupSum (bump key (addLead lead) acc) = groupSum acc + delta lead.
Proof.
  unfold groupSum. induction acc as [|[k g] acc IH]; simpl.
  - rewrite cf_addLead, cf_empty. lia.
  - destruct (String.eqb k key); simpl.
    + rewrite cf_addLead. lia.
    + rewrite IH. lia.
Qed.

Lemma grouped_count (l : list Lead) (acc : Groups) :
  ownKeys l ->
  groupSum (fold_left groupStep l acc) = groupSum acc + zsum delta l.
Proof.
  revert acc. induction l as [|lead l IH]; intros acc Hown; simpl; [lia|].
  inversion Hown as [|? ? Hkey Hrest]; subst.
  rewrite IH by exact Hrest. unfold groupStep. rewrite Hkey, bump_count. lia.
Qed.

Lemma addRows_count (rs : list WRow.t) (g : Grp.t) :
  cf (fold_left addRow rs g) = cf g + zsum (fun r => cf (WRow.data r)) rs.
Proof.
  revert g. induction rs as [|r rs IH]; intros g; simpl; [lia|].
  rewrite IH, cf_addRow. lia.
Qed.

Lemma totals_count (l : list Lead) :
  ownKeys l -> cf (Totals.sums (totals (weeklyOf l))) = zsum delta l.
Proof.
  intros Hown. unfold weeklyOf. cbn [totals Totals.sums].
  rewrite addRows_count, cf_empty.
  rewrite (zsum_perm _ _ _ (rows_perm _)), zsum_map.
  rewrite (zsum_ext _ (fun e => cf (snd e))) by (intros e; rewrite toRow_data; reflexivity).
  fold (groupSum (fold_left groupStep l [])).
  rewrite grouped_count by exact Hown. unfold groupSum. simpl. lia.
Qed.

End CountField.

Lemma zsum_nil {A : Type} (f : A -> Z) : zsum f [] = 0.
Proof. reflexivity. Qed.

Lemma zsum_cons {A : Type} (f : A -> Z) (x : A) (l : list A) :
  zsum f (x :: l) = f x + zsum f l.
Proof. reflexivity. Qed.

Lemma whole_zero : whole zero.
Proof. split; vm_compute; reflexivity. Qed.

Lemma intOf_zero : intOf zero = 0.
Proof. reflexivity. Qed.

Lemma intOf_of_Z (z : Z) : Z.abs z < wholeBound -> intOf (of_Z z) = z.
Proof. intros Hz. rewrite of_Z_exact by exact Hz. simpl. apply trunc_scaled. Qed.

Lemma whole_of_Z (z : Z) : Z.abs z < wholeBound -> whole (of_Z z).
Proof. intros Hz. unfold whole. rewrite intOf_of_Z by exact Hz. split; [exact Hz | reflexivity]. Qed.

Lemma add_whole (x y : number) :
  whole x -> whole y -> Z.abs (intOf x + intOf y) < wholeBound ->
  add x y = of_Z (intOf x + intOf y)
  /\ whole (add x y) /\ intOf (add x y) = intOf x + intOf y.
Proof.
  intros [Hx Ex] [Hy Ey] Hsum.
  assert (E : add x y = of_Z (intOf x + intOf y)).
  { rewrite Ex at 1. rewrite Ey at 1. apply add_of_Z; assumption. }
  rewrite E. split; [reflexivity|]. split.
  - apply whole_of_Z, Hsum.
  - apply intOf_of_Z, Hsum.
Qed.

Section MoneyField.

Variable mf : Grp.t -> number.
Variable am : Lead -> string.
Hypothesis mf_empty : mf Grp.empty = zero.
Hypothesis mf_addLead :
  forall l g, mf (addLead l g) = add (mf g) (parseMoney (am l)).
Hypothesis mf_addRow :
  forall acc r, mf (addRow acc r) = add (mf acc) (mf (WRow.data r)).

Lemma bump_money (lead : Lead) (key : string) (acc : Groups) :
  whole (parseMoney (am lead)) -> groupsWhole mf acc ->
  zsum (groupAbs mf) acc + Z.abs (amountInt am lead) < wholeBound ->
  groupsWhole mf (bump key (addLead lead) acc)
  /\ zsum (groupInt mf) (bump key (addLead lead) acc) = zsum (groupInt mf) acc + (amountInt am) lead
  /\ zsum (groupAbs mf) (bump key (addLead lead) acc) <= zsum (groupAbs mf) acc + Z.abs (amountInt am lead).
Proof.
  intros Hlead. unfold groupsWhole.
  induction acc as [|[k g] acc IH]; intros Hacc Hbound.
  - cbn [bump]. rewrite zsum_nil in Hbound.
    destruct (add_whole zero (parseMoney (am lead)) whole_zero Hlead)
      as (_ & Hw & Hi);
      [rewrite intOf_zero; change (intOf (parseMoney (am lead))) with (amountInt am lead); lia|].
    rewrite intOf_zero in Hi.
    rewrite !zsum_cons, !zsum_nil.
    change (groupInt mf (key, addLead lead Grp.empty))
      with (intOf (mf (addLead lead Grp.empty))).
    change (groupAbs mf (key, addLead lead Grp.empty))
      with (Z.abs (intOf (mf (addLead lead Grp.empty)))).
    rewrite mf_addLead, mf_empty, Hi.
    change (intOf (parseMoney (am lead))) with (amountInt am lead).
    split_conj; [|lia|lia].
    constructor; [|constructor]. cbn [snd]. rewrite mf_addLead, mf_empty. exact Hw.
  - inversion Hacc as [|? ? Hg Hrest]; subst. cbn [snd] in Hg.
    pose proof (zsum_abs_nonneg (fun e => intOf (mf (snd e))) acc) as Hnn.
    change (0 <= zsum (groupAbs mf) acc) in Hnn.
    rewrite zsum_cons in Hbound.
    change (groupAbs mf (k, g)) with (Z.abs (intOf (mf g))) in Hbound.
    cbn [bump]. destruct (String.eqb k key).
    + destruct (add_whole (mf g) (parseMoney (am lead)) Hg Hlead)
        as (_ & Hw & Hi);
        [change (intOf (parseMoney (am lead))) with (amountInt am lead); lia|].
      change (intOf (parseMoney (am lead))) with (amountInt am lead) in Hi.
      rewrite !zsum_cons.
      change (groupInt mf (k, addLead lead g)) with (intOf (mf (addLead lead g))).
      change (groupAbs mf (k, addLead lead g)) with (Z.abs (intOf (mf (addLead lead g)))).
      change (groupInt mf (k, g)) with (intOf (mf g)).
      change (groupAbs mf (k, g)) with (Z.abs (intOf (mf g))).
      rewrite mf_addLead, Hi.
      split_conj; [|lia|lia].
      constructor; [|exact Hrest]. cbn [snd]. rewrite mf_addLead. exact Hw.
    + destruct (IH Hrest) as (Hw & Hi & Ha); [lia|].
      rewrite !zsum_cons.
      split_conj; [|lia|lia].
      constructor; [exact Hg | exact Hw].
Qed.

Lemma grouped_money (l : list Lead) :
  forall acc : Groups,
    ownKeys l ->
    Forall (fun lead => whole (parseMoney (am lead))) l ->
    groupsWhole mf acc ->
    zsum (groupAbs mf) acc + zsum (fun lead => Z.abs (amountInt am lead)) l < wholeBound ->
    groupsWhole mf (fold_left groupStep l acc)
    /\ zsum (groupInt mf) (fold_left groupStep l acc) = zsum (groupInt mf) acc + zsum (amountInt am) l
    /\ zsum (groupAbs mf) (fold_left groupStep l acc)
       <= zsum (groupAbs mf) acc + zsum (fun lead => Z.abs (amountInt am lead)) l.
Proof.
  induction l as [|lead l IH]; intros acc Hown Hl Hacc Hbound.
  - cbn [fold_left]. rewrite !zsum_nil. split_conj; [exact Hacc | lia | lia].
  - inversion Hown as [|? ? Hkey Hown']; subst.
    inversion Hl as [|? ? Hlead Hl']; subst.
    rewrite zsum_cons in Hbound.
    pose proof (zsum_abs_nonneg (amountInt am) l) as Hnn.
    cbn [fold_left].
    assert (Hstep : groupStep acc lead = bump (groupKey lead) (addLead lead) acc)
      by (unfold groupStep; rewrite Hkey; reflexivity).
    rewrite Hstep.
    destruct (bump_money lead (groupKey lead) acc Hlead Hacc) as (Hw & Hi & Ha); [lia|].
    destruct (IH (bump (groupKey lead) (addLead lead) acc) Hown' Hl' Hw)
      as (Hw' & Hi' & Ha'); [lia|].
    rewrite !zsum_cons.
    split_conj; [exact Hw' | lia | lia].
Qed.

Lemma addRows_money (rs : list WRow.t) :
  forall g : Grp.t,
    whole (mf g) ->
    Forall (fun r => whole (mf (WRow.data r))) rs ->
    Z.abs (intOf (mf g))
      + zsum (fun r => Z.abs (intOf (mf (WRow.data r)))) rs < wholeBound ->
    mf (fold_left addRow rs g)
    = of_Z (intOf (mf g) + zsum (fun r => intOf (mf (WRow.data r))) rs).
Proof.
  induction rs as [|r rs IH]; intros g Hg Hrs Hbound.
  - cbn [fold_left]. rewrite zsum_nil, Z.add_0_r. apply Hg.
  - inversion Hrs as [|? ? Hr Hrs']; subst.
    rewrite zsum_cons in Hbound. rewrite zsum_cons.
    pose proof (zsum_abs_nonneg (fun r => intOf (mf (WRow.data r))) rs) as Hnn.
    destruct (add_whole (mf g) (mf (WRow.data r)) Hg Hr) as (_ & Hw & Hi); [lia|].
    cbn [fold_left]. rewrite IH.
    + rewrite mf_addRow, Hi. f_equal. lia.
    + rewrite mf_addRow. exact Hw.
    + exact Hrs'.
    + rewrite mf_addRow, Hi. lia.
Qed.

Lemma directSum_money (l : list Lead) :
  forall x : number,
    whole x ->
    Forall (fun lead => whole (parseMoney (am lead))) l ->
    Z.abs (intOf x) + zsum (fun lead => Z.abs (amountInt am lead)) l < wholeBound ->
    fold_left (fun sum lead => add sum (parseMoney (am lead))) l x
    = of_Z (intOf x + zsum (amountInt am) l).
Proof.
  induction l as [|lead l IH]; intros x Hx Hl Hbound.
  - cbn [fold_left]. rewrite zsum_nil, Z.add_0_r. apply Hx.
  - inversion Hl as [|? ? Hlead Hl']; subst.
    rewrite zsum_cons in Hbound. rewrite zsum_cons.
    pose proof (zsum_abs_nonneg (amountInt am) l) as Hnn.
    destruct (add_whole x (parseMoney (am lead)) Hx Hlead) as (_ & Hw & Hi);
      [change (intOf (parseMoney (am lead))) with (amountInt am lead); lia|].
    change (intOf (parseMoney (am lead))) with (amountInt am lead) in Hi.
    cbn [fold_left]. rewrite IH.
    + rewrite Hi. f_equal. lia.
    + exact Hw.
    + exact Hl'.
    + rewrite Hi. lia.
Qed.

Lemma totals_money (l : list Lead) :
  ownKeys l -> wholeAmounts am l ->
  mf (Totals.sums (totals (weeklyOf l))) = directSum am l.
Proof.
  intros Hown [Hl Hbound].
  change (zsum (fun lead => Z.abs (amountInt am lead)) l < wholeBound) in Hbound.
  destruct (grouped_money l [] Hown Hl) as (Hw & Hi & Ha);
    [constructor | rewrite zsum_nil; exact Hbound |].
  rewrite zsum_nil in Hi, Ha.
  set (grouped := fold_left groupStep l []) in *.
  pose proof (rows_perm grouped) as Hperm.
  unfold directSum. rewrite directSum_money;
    [|exact whole_zero | exact Hl | rewrite intOf_zero; exact Hbound].
  unfold weeklyOf. cbn [totals Totals.sums]. fold grouped.
  rewrite addRows_money.
  - rewrite mf_empty, intOf_zero. f_equal. f_equal.
    rewrite (zsum_perm _ _ _ Hperm), zsum_map.
    rewrite (zsum_ext _ (groupInt mf)) by (intros e; rewrite toRow_data; reflexivity).
    exact Hi.
  - rewrite mf_empty. exact whole_zero.
  - eapply Permutation_Forall; [symmetry; exact Hperm|].
    apply Forall_map. eapply Forall_impl; [exact Hw|].
    intros e He. rewrite toRow_data. exact He.
  - rewrite mf_empty, intOf_zero.
    rewrite (zsum_perm _ _ _ Hperm), zsum_map.
    rewrite (zsum_ext _ (groupAbs mf)) by (intros e; rewrite toRow_data; reflexivity).
    lia.
Qed.

End MoneyField.

(* ================================================================== *)
(** ** Reply minutes *)
(* ================================================================== *)

(** C1 (code defect).  The resolution is meant to prefer
    [replyTimeMinutes] when it parses as a non-negative finite number,
    then the first run of digits of the legacy [replyTime], and else to
    yield no value.  [Number("")] is 0, so a lead whose
    [replyTimeMinutes] is the empty string resolves to 0: its legacy
    text "(Weekend): 214" is never read, and with both fields empty it
    enters the average as a zero, turning the mean of one 30-minute
    reply into 15.  The fallbacks work when the field holds text that is
    not a number. *)
Theorem getReplyMinutes_empty_minutes_is_zero :
  getReplyMinutes (replyLead "" None) = Some zero
  /\ getReplyMinutes (replyLead "" (Some "(Weekend): 214")) = Some zero
  /\ getReplyMinutes (replyLead "25" (Some "(Weekend): 214")) = Some (of_Z 25)
  /\ getReplyMinutes (replyLead "n/a" (Some "(Weekend): 214")) = Some (of_Z 214)
  /\ getReplyMinutes (replyLead "n/a" None) = None
  /\ avgReplyTime (stats [replyLead "30" None; replyLead "" None]) = of_Z 15
  /\ avgReplyTime (stats [replyLead "30" None; replyLead "n/a" None]) = of_Z 30.
Proof. split_conj; by_evaluation. Qed.

(* ================================================================== *)
(** ** Currency parsing *)
(* ================================================================== *)

(** C6.  [parseMoney] keeps the digits, dots and minus signs of its
    argument, reads what is left as a signed decimal literal (the empty
    string reads as 0) and replaces a result that is not finite by 0.
    The result is always finite; it can be negative. *)
Theorem parseMoney_finite :
  (forall s : string,
      all moneyChar (keep moneyChar s) = true
      /\ parseMoney s =
           (let num :=
              match keep moneyChar s with
              | EmptyString => zero
              | String "-" r => neg (unsignedDecimal r)
              | t => unsignedDecimal t
              end in
            if isFinite num then num else zero)
      /\ isFinite (parseMoney s) = true)
  /\ (forall a b : string,
         keep moneyChar (a ++ b) = (keep moneyChar a ++ keep moneyChar b)%string)
  /\ (forall c : ascii,
         keep moneyChar (String c EmptyString)
         = if moneyChar c then String c EmptyString else EmptyString)
  /\ parseMoney "$15" = of_Z 15
  /\ parseMoney "$0" = of_Z 0
  /\ parseMoney "abc" = of_Z 0
  /\ ltb (parseMoney "-$15") zero = true.
Proof.
  split; [|split; [|split; [|split_conj; by_evaluation]]].
  - intros s. split; [apply keep_all|]. split.
    + unfold parseMoney. rewrite (Number_money _ (keep_all moneyChar s)).
      destruct (keep moneyChar s) as [|c r]; [reflexivity|].
      destruct c as [[] [] [] [] [] [] [] []]; reflexivity.
    + unfold parseMoney. destruct (isFinite (Number (keep moneyChar s))) eqn:E;
        [exact E | reflexivity].
  - intros a b. induction a as [|c a IH]; [reflexivity|].
    rewrite append_cons. cbn [keep]. rewrite IH.
    destruct (moneyChar c); reflexivity.
  - intros c. reflexivity.
Qed.

(* ================================================================== *)
(** ** Win rate *)
(* ================================================================== *)

(** C9.  [winRate] is 0 when there is no lead and otherwise the
    quotient of the won leads by all leads, times 100, in binary64
    arithmetic; [wonLeads] counts the leads whose [jobWon] is [Yes] and
    [totalLeads] counts all leads. *)
Theorem winRate_formula (leads : list Lead) :
  totalLeads (stats leads) = countZ leads
  /\ wonLeads (stats leads) = directCount jobWon leads
  /\ winRate (stats leads) =
       if totalLeads (stats leads) =? 0 then zero
       else mul (div (of_Z (wonLeads (stats leads))) (of_Z (totalLeads (stats leads))))
                (of_Z 100).
Proof.
  split; [reflexivity|]. split; [reflexivity|].
  unfold stats. cbn [winRate totalLeads wonLeads].
  assert (H : 0 <= countZ leads) by (unfold countZ; lia).
  destruct (Z.ltb_spec 0 (countZ leads)), (Z.eqb_spec (countZ leads) 0);
    try reflexivity; lia.
Qed.

Example winRate_none : winRate (stats []) = zero.
Proof. reflexivity. Qed.

Example winRate_one_in_four :
  winRate (stats [mkLead "a" (withJobWon Yes emptyLead); mkLead "b" emptyLead;
                  mkLead "c" emptyLead; mkLead "d" emptyLead]) = of_Z 25.
Proof. vm_compute. reflexivity. Qed.

Example winRate_one_in_three :
  winRate (stats [mkLead "a" (withJobWon Yes emptyLead); mkLead "b" emptyLead;
                  mkLead "c" emptyLead]) = of_decimal 3333333333333333 (-14).
Proof. vm_compute. reflexivity. Qed.

(* ================================================================== *)
(** ** Scorecard transformer *)
(* ================================================================== *)

(** C4.  On the scorecard with the header row Channel, JAN: 6, JAN: 13,
    the section start, the channel row Yelp, 3, 0 and the section end,
    the transformer yields three leads, whatever the current year: all
    with source Yelp, job type Imported and the date of 6 January of
    that year, and with the customers Imported Yelp Lead 1 to 3, which
    differ. *)
Theorem parseScorecardToLeads_example (year : Z) :
  csvToMatrix exampleScorecard = exampleMatrix
  /\ scorecardOfMatrix year exampleMatrix
     = Some [yelpLead year "1"; yelpLead year "2"; yelpLead year "3"]
  /\ parseScorecardToLeads year exampleScorecard
     = Some [yelpLead year "1"; yelpLead year "2"; yelpLead year "3"]
  /\ NoDup (map customer [yelpLead year "1"; yelpLead year "2"; yelpLead year "3"]).
Proof.
  split; [by_evaluation|]. split; [by_evaluation|]. split; [by_evaluation|].
  cbn [map customer yelpLead].
  apply (bool_decide_unpack _). vm_compute. exact I.
Qed.

(* ================================================================== *)
(** ** Import and manual save *)
(* ================================================================== *)

Lemma endsWith_csv_not_json (s : string) :
  endsWith ".csv" s || endsWith ".tsv" s = true ->
  endsWith ".json" s = false /\ endsWith ".xlsx" s = false /\ endsWith ".xls" s = false.
Proof.
  unfold endsWith. change (srev ".csv") with "vsc."%string.
  change (srev ".tsv") with "vst."%string. change (srev ".json") with "nosj."%string.
  change (srev ".xlsx") with "xslx."%string. change (srev ".xls") with "slx."%string.
  destruct (srev s) as [|c r]; [discriminate|].
  cbn [startsWith].
  destruct (Ascii.eqb_spec "v" c) as [<-|Hv]; [intros _; split_conj; reflexivity|].
  discriminate.
Qed.

Lemma csvOrTsv_tabular (name : string) :
  csvOrTsvName name = true -> tabularName name = true.
Proof.
  unfold csvOrTsvName, tabularName. intros H.
  destruct (endsWith_csv_not_json _ H) as (-> & -> & ->). reflexivity.
Qed.

Lemma readRows_tabular jsonRows sheetRows (file : File) :
  tabularName (fileName file) = true ->
  readRows jsonRows sheetRows file = Some (csvToRows (fileContent file)).
Proof.
  unfold tabularName, readRows. intros H.
  apply andb_true_iff in H as [H1 H2].
  apply negb_true_iff in H1. apply negb_true_iff in H2.
  rewrite H1, H2. reflexivity.
Qed.

Lemma importRows_count_zero (rows : list Row) (store : Store) :
  (importedCount (fold_left importRow rows (mkImportLoop store 0)) =? 0)
  = match acceptedLeads rows with [] => true | _ => false end.
Proof.
  rewrite importRows_spec. cbn [importedCount].
  destruct (acceptedLeads rows) as [|l ls]; [reflexivity|].
  unfold countZ. cbn [length]. apply Z.eqb_neq. lia.
Qed.

(** The claim of C2 read on the code fails: a scorecard named
    [scorecard.txt] goes through the tabular reader and the row mapper,
    no row is accepted, and the transformer is not called. *)
Lemma scorecard_skipped_for_other_extension :
  let file := mkFile "scorecard.txt" exampleScorecard in
  tabularName (fileName file) = true
  /\ readRows noJson noSheet file = Some (csvToRows exampleScorecard)
  /\ acceptedLeads (csvToRows exampleScorecard) = []
  /\ outScorecard (handleFileImport noJson noSheet 2026 true (Some file) [] "") = false
  /\ outStore (handleFileImport noJson noSheet 2026 true (Some file) [] "") = [].
Proof. split_conj; by_evaluation. Qed.

(** C2 (amended).  The scorecard transformer is called exactly when the
    user is signed in, a file is given whose lower-cased name ends in
    [.csv] or [.tsv], at least one row was read from it, and the row
    mapper accepted none of them.  A file with another extension is
    read by the tabular reader but never falls back, and a file that
    yields no row at all ends the import before the fallback. *)
Theorem scorecard_fallback_gate
    (jsonRows : string -> option (list Row))
    (sheetRows : string -> option (list (list (string * string))))
    (year : Z) (user : bool) (file : option File) (store : Store) (status : string) :
  outScorecard (handleFileImport jsonRows sheetRows year user file store status)
  = match file with
    | Some f => user && fallbackDue (readRows jsonRows sheetRows f) (fileName f)
    | None => false
    end.
Proof.
  unfold handleFileImport, fallbackDue, csvOrTsvName.
  destruct user; [|destruct file; reflexivity].
  destruct file as [f|]; [|reflexivity].
  cbn [negb andb].
  destruct (readRows jsonRows sheetRows f) as [[|row rest]|].
  - rewrite andb_false_r. reflexivity.
  - rewrite importRows_count_zero.
    destruct (acceptedLeads (row :: rest)) as [|l ls].
    + cbn [andb]. rewrite andb_true_r.
      destruct (endsWith ".csv" (toLowerCase (fileName f))
                || endsWith ".tsv" (toLowerCase (fileName f))); [|reflexivity].
      destruct (parseScorecardToLeads year (fileContent f)); reflexivity.
    + cbn [andb]. rewrite andb_false_r. reflexivity.
  - rewrite andb_false_r. reflexivity.
Qed.

Example scorecard_tried_for_csv :
  outScorecard (handleFileImport noJson noSheet 2026 true
                  (Some (mkFile "Scorecard.CSV" exampleScorecard)) [] "") = true
  /\ map docData (outStore (handleFileImport noJson noSheet 2026 true
                              (Some (mkFile "Scorecard.CSV" exampleScorecard)) [] ""))
     = [yelpLead 2026 "1"; yelpLead 2026 "2"; yelpLead 2026 "3"].
Proof. split; vm_compute; reflexivity. Qed.

(** C3.  The loop over the rows writes the mapped rows whose [date] and
    [customer] are both non-empty, in order, and counts them; a row
    with an empty [date] or an empty [customer] changes neither the
    store nor the count.  When at least one row is accepted, the
    documents added by the import are exactly these and the status
    reports their number. *)
Theorem import_skips_rows_without_date_or_customer
    (jsonRows : string -> option (list Row))
    (sheetRows : string -> option (list (list (string * string))))
    (year : Z) (file : File) (store : Store) (status : string) :
  (forall lead : LeadInput,
      accepted lead = negb (String.eqb (date lead) "")
                      && negb (String.eqb (customer lead) ""))
  /\ (forall (st : ImportLoop) (row : Row),
        importRow st row =
          if accepted (normalizeImportedLead row)
          then mkImportLoop (addDoc (stamp (normalizeImportedLead row)) (loopStore st))
                            (importedCount st + 1)
          else st)
  /\ match readRows jsonRows sheetRows file with
     | None => True
     | Some rows =>
         let looped := fold_left importRow rows (mkImportLoop store 0) in
         let out := handleFileImport jsonRows sheetRows year true (Some file) store status in
         map docData (loopStore looped)
         = (map docData store ++ map stamp (acceptedLeads rows))%list
         /\ importedCount looped = countZ (acceptedLeads rows)
         /\ match acceptedLeads rows with
            | [] => True
            | _ =>
                map docData (outStore out)
                = (map docData store ++ map stamp (acceptedLeads rows))%list
                /\ outStatus out
                   = ("Imported " ++ ofZ (countZ (acceptedLeads rows))
                      ++ " leads from " ++ fileName file)%string
            end
     end.
Proof.
  split; [|split].
  - intros lead. unfold accepted. destruct (date lead), (customer lead); reflexivity.
  - apply importRow_accepted.
  - destruct (readRows jsonRows sheetRows file) as [rows|] eqn:Hread; [|exact I].
    cbn zeta. rewrite importRows_spec. cbn [loopStore importedCount].
    rewrite addDocs_data. split; [reflexivity|]. split; [lia|].
    destruct (acceptedLeads rows) as [|l ls] eqn:Hacc; [exact I|].
    unfold handleFileImport. cbn [negb]. rewrite Hread.
    destruct rows as [|row rest]; [discriminate Hacc|].
    rewrite importRows_count_zero, Hacc. cbn [andb].
    unfold finishImport. rewrite importRows_spec, Hacc.
    cbn [outStore outStatus loopStore importedCount].
    rewrite addDocs_data. split; [reflexivity|].
    assert (Hnz : (0 + countZ (l :: ls) =? 0) = false)
      by (apply Z.eqb_neq; unfold countZ; cbn [length]; lia).
    rewrite Hnz. reflexivity.
Qed.

Lemma updateDoc_mirrored (target : nat) (data : LeadInput) (store store' : Store) :
  jobWon data = sold data ->
  updateDoc target data store = Some store' ->
  Forall (fun d => d ∈ store \/ mirrored d) store'.
Proof.
  intros Hdata. revert store'.
  induction store as [|d rest IH]; intros store' Hupd; [discriminate Hupd|].
  cbn [updateDoc] in Hupd. destruct (Nat.eqb (docId d) target).
  - injection Hupd as <-. constructor.
    + right. exact Hdata.
    + apply Forall_forall. intros x Hx. left. apply elem_of_cons. right. exact Hx.
  - destruct (updateDoc target data rest) as [rest'|]; [|discriminate Hupd].
    injection Hupd as <-. constructor.
    + left. apply elem_of_cons. left. reflexivity.
    + eapply Forall_impl; [exact (IH rest' eq_refl)|].
      intros x [Hx|Hx]; [left; apply elem_of_cons; right; exact Hx | right; exact Hx].
Qed.

Lemma Forall_kept (store : Store) : Forall (fun d => d ∈ store \/ mirrored d) store.
Proof. apply Forall_forall. intros d Hd. left. exact Hd. Qed.

Lemma addDocs_twice_mirrored (a b : list LeadInput) (store : Store) :
  Forall (fun d => d ∈ store \/ mirrored d)
         (addDocs (map stamp b) (addDocs (map stamp a) store)).
Proof.
  eapply Forall_impl; [apply addDocs_stamp_mirrored|].
  intros d [Hd|Hd]; [|right; exact Hd].
  pose proof (addDocs_stamp_mirrored a store) as H.
  rewrite Forall_forall in H. exact (H d Hd).
Qed.

(** C5.  Every document of the store after an import or a manual save
    is either a document that was there before, untouched, or carries
    a [jobWon] equal to its [sold]: each write, by the row loop, by the
    scorecard loop, by the creation and by the update of a lead, sets
    [jobWon] to the value of [sold].  For an imported row that is the
    value of [sold], whatever the aliases gave for [jobWon]. *)
Theorem jobWon_mirrors_sold_on_write
    (jsonRows : string -> option (list Row))
    (sheetRows : string -> option (list (list (string * string))))
    (year : Z) (user : bool) (file : option File) (store : Store)
    (status : string) (ui : FormState) :
  Forall (fun d => d ∈ store \/ mirrored d)
         (outStore (handleFileImport jsonRows sheetRows year user file store status))
  /\ Forall (fun d => d ∈ store \/ mirrored d) (snd (saveLead user ui store))
  /\ (forall (st : ImportLoop) (row : Row),
        let lead := normalizeImportedLead row in
        importRow st row = st
        \/ (importRow st row
            = mkImportLoop (addDoc (withJobWon (sold lead) lead) (loopStore st))
                           (importedCount st + 1)
            /\ jobWon (withJobWon (sold lead) lead) = sold lead)).
Proof.
  split; [|split].
  - unfold handleFileImport.
    destruct user; [|apply Forall_kept].
    destruct file as [f|]; [|apply Forall_kept].
    cbn [negb].
    destruct (readRows jsonRows sheetRows f) as [[|row rest]|];
      [apply Forall_kept | | apply Forall_kept].
    rewrite importRows_spec. cbn [importedCount loopStore].
    match goal with |- context [if ?c then _ else _] => destruct c end.
    + destruct (parseScorecardToLeads year (fileContent f)) as [leads|].
      * unfold finishImport. rewrite importScorecard_spec.
        cbn [outStore loopStore]. apply addDocs_twice_mirrored.
      * cbn [outStore]. apply addDocs_stamp_mirrored.
    + unfold finishImport. cbn [outStore loopStore]. apply addDocs_stamp_mirrored.
  - unfold saveLead. destruct user; [|apply Forall_kept]. cbn [negb].
    destruct (editingId ui) as [target|].
    + destruct (updateDoc target (withJobWon (sold (form ui)) (form ui)) store)
        as [store'|] eqn:Hupd; cbn [snd]; [|apply Forall_kept].
      eapply updateDoc_mirrored; [|exact Hupd]. reflexivity.
    + cbn [snd]. exact (addDocs_stamp_mirrored [form ui] store).
  - intros st row lead. rewrite importRow_accepted.
    destruct (accepted (normalizeImportedLead row)); [right | left; reflexivity].
    split; reflexivity.
Qed.

Example import_overrides_aliased_jobWon :
  jobWon (normalizeImportedLead disagreeingRow) = Yes
  /\ sold (normalizeImportedLead disagreeingRow) = No
  /\ map (fun d => (jobWon (docData d), sold (docData d)))
         (loopStore (importRow (mkImportLoop [] 0) disagreeingRow))
     = [(No, No)].
Proof. split_conj; by_evaluation. Qed.

(* ================================================================== *)
(** ** Month partition *)
(* ================================================================== *)

Lemma truthy_of_Z (z : Z) : 0 < z < wholeBound -> truthy (of_Z z) = true.
Proof.
  intros Hz. rewrite of_Z_exact by lia. cbn [truthy].
  apply negb_true_iff, Z.eqb_neq.
  assert (0 < unit_scale) by (apply Z.pow_pos_nonneg; unfold ulp_exp; lia).
  nia.
Qed.

(** C7.  When the selected month reads as the year [y] (1 to 9999) and
    the month [m] (1 to 12), [monthWeeks] labels contiguous ranges of
    one to seven days that start at day 1 and end at the last day of
    that month; for a month of 30 days they are 1-7, 8-14, 15-21, 22-28
    and 29-30. *)
Theorem monthWeeks_partition (selectedMonth : string) (y m : Z) :
  1 <= y <= 9999 -> 1 <= m <= 12 ->
  numberAt (splitOn "-" selectedMonth) 0 = of_Z y ->
  numberAt (splitOn "-" selectedMonth) 1 = of_Z m ->
  exists ranges : list (Z * Z),
    monthWeeks selectedMonth = map rangeLabel ranges
    /\ contiguousFrom 1 ranges (daysInMonth y m)
    /\ (if daysInMonth y m =? 30
        then monthWeeks selectedMonth = ["1-7"; "8-14"; "15-21"; "22-28"; "29-30"]
        else True).
Proof.
  intros Hy Hm Hyear Hmonth.
  assert (Hweeks : monthWeeks selectedMonth
                   = weeksLoop (Z.to_nat (daysInMonth y m)) 1 (daysInMonth y m)).
  { unfold monthWeeks. rewrite Hyear, Hmonth.
    rewrite !truthy_of_Z by (unfold wholeBound; lia).
    cbn [negb orb]. rewrite lastDayOfMonth_valid by assumption. reflexivity. }
  pose proof (daysInMonth_range y m) as Hr.
  exists (rangesLoop (Z.to_nat (daysInMonth y m)) 1 (daysInMonth y m)).
  split; [rewrite Hweeks; apply weeksLoop_ranges|]. split.
  - apply rangesLoop_contiguous; lia.
  - destruct (Z.eqb_spec (daysInMonth y m) 30) as [E|_]; [|exact I].
    rewrite Hweeks, E. vm_compute. reflexivity.
Qed.

Lemma monthWeeks_partition_witness :
  exists ranges : list (Z * Z),
    monthWeeks "2026-04" = map rangeLabel ranges
    /\ contiguousFrom 1 ranges (daysInMonth 2026 4)
    /\ (if daysInMonth 2026 4 =? 30
        then monthWeeks "2026-04" = ["1-7"; "8-14"; "15-21"; "22-28"; "29-30"]
        else True).
Proof.
  apply (monthWeeks_partition "2026-04" 2026 4).
  - lia.
  - lia.
  - vm_compute. reflexivity.
  - vm_compute. reflexivity.
Defined.

Example monthWeeks_thirty_days :
  monthWeeks "2026-04" = ["1-7"; "8-14"; "15-21"; "22-28"; "29-30"]
  /\ monthWeeks "2026-02" = ["1-7"; "8-14"; "15-21"; "22-28"]
  /\ monthWeeks "2024-02" = ["1-7"; "8-14"; "15-21"; "22-28"; "29-29"]
  /\ monthWeeks "2026-12" = ["1-7"; "8-14"; "15-21"; "22-28"; "29-31"].
Proof. split_conj; by_evaluation. Qed.

(* ================================================================== *)
(** ** Tabular reader *)
(* ================================================================== *)

(** The claim of C8 read on the raw lines fails: the first line of the
    text below is not empty and holds a tab, at its end; the reader
    drops trailing white space before it looks for a tab, finds none
    and splits every line on commas. *)
Lemma trailing_tab_is_not_a_delimiter :
  let text := ("name,cost" ++ String tab (String lf "x,1"))%string in
  firstRawLine text = Some ("name,cost" ++ String tab EmptyString)%string
  /\ hasTab ("name,cost" ++ String tab EmptyString) = true
  /\ csvToMatrix text = [["name"; "cost"]; ["x"; "1"]]
  /\ map parseTabLine (csvLines text) = [["name,cost"]; ["x,1"]]
  /\ map parseTabLine (List.filter nonEmpty (splitLines text))
     = [["name,cost"; ""]; ["x,1"]]
  /\ csvToMatrix text <> map parseTabLine (csvLines text)
  /\ csvToMatrix text <> map parseTabLine (List.filter nonEmpty (splitLines text)).
Proof.
  split_conj; try by_evaluation; vm_compute; discriminate.
Qed.

(** C8 (amended).  The delimiter is chosen once, from the first of the
    lines that are not empty once their trailing white space is
    removed: if that line, so trimmed, holds a tab, every line is split
    on tabs and the cells are trimmed, quotes being ordinary
    characters; otherwise every line is split on commas by the
    quote-aware scan [quoteFields].  In that scan a comma in an open
    quoted region is part of the field, two double quotes in a row in a
    quoted region add one double quote to the field, and a comma
    outside quotes ends the field. *)
Theorem csvToMatrix_delimiter (text : string) :
  csvToMatrix text
  = match csvLines text with
    | [] => []
    | first :: _ =>
        if hasTab first
        then map (fun line => map trim (splitOn tab line)) (csvLines text)
        else map (quoteFields false EmptyString) (csvLines text)
    end
  /\ csvLines text = List.filter nonEmpty (map trimEnd (splitLines text))
  /\ (forall current rest : string,
         quoteFields true current (String comma rest)
         = quoteFields true (push current comma) rest)
  /\ (forall current rest : string,
         quoteFields true current (String quote (String quote rest))
         = quoteFields true (push current quote) rest)
  /\ (forall current rest : string,
         quoteFields false current (String comma rest)
         = trim current :: quoteFields false EmptyString rest).
Proof.
  split; [|split_conj; reflexivity].
  unfold csvToMatrix. destruct (csvLines text) as [|first rest]; [reflexivity|].
  destruct (hasTab first).
  - reflexivity.
  - apply map_ext. intros line. unfold parseLine.
    change (Ascii.eqb comma tab) with false. cbn iota.
    apply parseCommaLine_quoteFields.
Qed.

Example csvToMatrix_quotes :
  csvToMatrix "name,comment" = [["name"; "comment"]]
  /\ csvToMatrix (quotedLine ++ String lf "a,b")
     = [["Curtis, L."; "said " ++ quoteText ++ "no" ++ quoteText ++ " twice"]; ["a"; "b"]]
  /\ csvToMatrix ("a" ++ String tab (quoteText ++ "b,c" ++ quoteText ++ String lf "d,e"))
     = [["a"; quoteText ++ "b,c" ++ quoteText]; ["d,e"]].
Proof. split_conj; by_evaluation. Qed.

(* ================================================================== *)
(** ** Weekly totals *)
(* ================================================================== *)

Lemma weekly_windowLeads (localDate : string -> option (Z * Z * Z))
    (leads : list Lead) (selectedMonth selectedWeek : string) :
  weekly localDate leads selectedMonth selectedWeek
  = weeklyOf (windowLeads localDate leads selectedMonth selectedWeek).
Proof.
  unfold weekly, windowLeads.
  match goal with |- context [if ?c then _ else _] => destruct c end; reflexivity.
Qed.

Lemma zsum_ones {A : Type} (l : list A) : zsum (fun _ => 1) l = countZ l.
Proof.
  unfold countZ. induction l as [|x l IH]; [reflexivity|].
  rewrite zsum_cons, IH. cbn [length]. lia.
Qed.

Lemma directCount_zsum (flag : Lead -> YesNo) (l : list Lead) :
  directCount flag l = zsum (fun lead => yesCount (flag lead)) l.
Proof.
  unfold directCount, countZ. induction l as [|x l IH]; [reflexivity|].
  rewrite zsum_cons, <- IH. cbn [List.filter].
  destruct (flag x); cbn [YesNo_eqb yesCount length]; lia.
Qed.

(** The claim of C10 read on the code fails: three leads of one window
    with the costs 0.1, 0.2 and 0.3 and three sources.  The table adds
    the groups by decreasing spend, 0.3 + 0.2 + 0.1, which is 0.6 in
    binary64; one pass over the leads adds 0.1 + 0.2 + 0.3, which is
    0.6000000000000001; neither is the exact sum of the three parsed
    values. *)
Lemma weekly_spend_differs_from_direct_sum :
  let filtered := windowLeads isoDate dimeLeads "2026-04" "1-7" in
  let t := Totals.sums (totals (weekly isoDate dimeLeads "2026-04" "1-7")) in
  filtered = dimeLeads
  /\ ownKeys filtered
  /\ map WRow.source (rows (weekly isoDate dimeLeads "2026-04" "1-7")) = ["A"; "B"; "C"]
  /\ Grp.spend t = of_decimal 6 (-1)
  /\ directSum leadCost filtered = of_decimal 6000000000000001 (-16)
  /\ Grp.spend t <> directSum leadCost filtered
  /\ units (Grp.spend t) <> zsum (fun lead : Lead => units (parseMoney (leadCost lead))) filtered.
Proof.
  lazy zeta.
  assert (Hf : windowLeads isoDate dimeLeads "2026-04" "1-7" = dimeLeads)
    by by_evaluation.
  split; [exact Hf|].
  split; [rewrite Hf; unfold ownKeys, dimeLeads; forall_cases; by_evaluation|].
  split; [by_evaluation|].
  split; [by_evaluation|].
  split; [by_evaluation|].
  split; vm_compute; discriminate.
Qed.

(** A lead whose source is a property name that objects inherit is in
    the window and in no row: it is missing from the totals. *)
Example weekly_misses_inherited_key :
  let filtered := [costLead "constructor" "10" Yes] in
  rows (weeklyOf filtered) = []
  /\ Grp.leads (Totals.sums (totals (weeklyOf filtered))) = 0
  /\ countZ filtered = 1.
Proof. split_conj; by_evaluation. Qed.

(** C10 (amended).  For the leads inside the selected window, none of
    them keyed by a property name that objects inherit: the totals row
    counts exactly the leads, the booked, the sold and the cancelled
    leads of the window; and the total of each currency column equals
    the sum taken in one pass over the leads whenever the parsed
    amounts of that column are whole numbers whose magnitudes add up to
    less than 2^53, where binary64 addition is exact. *)
Theorem weekly_totals_homomorphism
    (localDate : string -> option (Z * Z * Z))
    (leads : list Lead) (selectedMonth selectedWeek : string) :
  let filtered := windowLeads localDate leads selectedMonth selectedWeek in
  let t := Totals.sums (totals (weekly localDate leads selectedMonth selectedWeek)) in
  ownKeys filtered ->
  (Grp.leads t = countZ filtered
   /\ Grp.booked t = directCount booked filtered
   /\ Grp.sold t = directCount sold filtered
   /\ Grp.cancelled t = directCount cancelled filtered)
  /\ (wholeAmounts leadCost filtered -> Grp.spend t = directSum leadCost filtered)
  /\ (wholeAmounts soldAmount filtered -> Grp.soldAmount t = directSum soldAmount filtered)
  /\ (wholeAmounts revenue filtered -> Grp.revenue t = directSum revenue filtered).
Proof.
  cbn zeta. rewrite weekly_windowLeads.
  set (filtered := windowLeads localDate leads selectedMonth selectedWeek).
  intros Hown. split_conj.
  - rewrite <- zsum_ones.
    apply (totals_count Grp.leads (fun _ => 1)); [reflexivity | reflexivity | reflexivity | exact Hown].
  - rewrite directCount_zsum.
    apply (totals_count Grp.booked (fun lead => yesCount (booked lead)));
      [reflexivity | reflexivity | reflexivity | exact Hown].
  - rewrite directCount_zsum.
    apply (totals_count Grp.sold (fun lead => yesCount (sold lead)));
      [reflexivity | reflexivity | reflexivity | exact Hown].
  - rewrite directCount_zsum.
    apply (totals_count Grp.cancelled (fun lead => yesCount (cancelled lead)));
      [reflexivity | reflexivity | reflexivity | exact Hown].
  - intros Hwhole.
    apply (totals_money Grp.spend leadCost);
      [reflexivity | reflexivity | reflexivity | exact Hown | exact Hwhole].
  - intros Hwhole.
    apply (totals_money Grp.soldAmount soldAmount);
      [reflexivity | reflexivity | reflexivity | exact Hown | exact Hwhole].
  - intros Hwhole.
    apply (totals_money Grp.revenue revenue);
      [reflexivity | reflexivity | reflexivity | exact Hown | exact Hwhole].
Qed.

Lemma wholeLeads_amounts (amount : Lead -> string) :
  Forall (fun lead => parseMoney (amount lead) = of_Z 100
                      \/ parseMoney (amount lead) = of_Z 50
                      \/ parseMoney (amount lead) = of_Z 0) wholeLeads ->
  wholeAmounts amount wholeLeads.
Proof.
  intros H. unfold wholeLeads in *.
  inversion H as [|? ? Ha H']; subst. inversion H' as [|? ? Hb _]; subst.
  assert (Hcase : forall x, x = of_Z 100 \/ x = of_Z 50 \/ x = of_Z 0 ->
                            whole x /\ 0 <= intOf x <= 100).
  { intros x [ -> | [ -> | -> ] ]; (split; [apply whole_of_Z; unfold wholeBound; lia|]);
      rewrite intOf_of_Z by (unfold wholeBound; lia); lia. }
  destruct (Hcase _ Ha) as [Wa Ba]. destruct (Hcase _ Hb) as [Wb Bb].
  split; [forall_cases; assumption|].
  rewrite !zsum_cons, zsum_nil. unfold amountInt, wholeBound. lia.
Qed.

Lemma weekly_totals_homomorphism_witness :
  let filtered := windowLeads isoDate wholeLeads "2026-04" "1-7" in
  let t := Totals.sums (totals (weekly isoDate wholeLeads "2026-04" "1-7")) in
  filtered = wholeLeads
  /\ Grp.leads t = 2 /\ Grp.booked t = 1
  /\ Grp.spend t = of_Z 150
  /\ Grp.spend t = directSum leadCost filtered
  /\ Grp.soldAmount t = directSum soldAmount filtered
  /\ Grp.revenue t = directSum revenue filtered.
Proof.
  cbn zeta.
  assert (Hf : windowLeads isoDate wholeLeads "2026-04" "1-7" = wholeLeads)
    by (vm_compute; reflexivity).
  assert (Hown : ownKeys (windowLeads isoDate wholeLeads "2026-04" "1-7"))
    by (rewrite Hf; unfold ownKeys, wholeLeads; forall_cases; by_evaluation).
  destruct (weekly_totals_homomorphism isoDate wholeLeads "2026-04" "1-7" Hown)
    as ((Hleads & Hbooked & _ & _) & Hspend & Hsold & Hrev).
  split; [exact Hf|].
  split; [rewrite Hleads, Hf; reflexivity|].
  split; [rewrite Hbooked, Hf; reflexivity|].
  assert (Wc : wholeAmounts leadCost (windowLeads isoDate wholeLeads "2026-04" "1-7")).
  { rewrite Hf. apply wholeLeads_amounts.
    unfold wholeLeads. forall_cases; [left | right; left]; by_evaluation. }
  assert (Ws : wholeAmounts soldAmount (windowLeads isoDate wholeLeads "2026-04" "1-7")).
  { rewrite Hf. apply wholeLeads_amounts.
    unfold wholeLeads. forall_cases; right; right; by_evaluation. }
  assert (Wr : wholeAmounts revenue (windowLeads isoDate wholeLeads "2026-04" "1-7")).
  { rewrite Hf. apply wholeLeads_amounts.
    unfold wholeLeads. forall_cases; right; right; by_evaluation. }
  split; [rewrite (Hspend Wc), Hf; vm_compute; reflexivity|].
  split; [exact (Hspend Wc)|].
  split; [exact (Hsold Ws) | exact (Hrev Wr)].
Defined.

(* ================================================================== *)
(** ** Trimming *)
(* ================================================================== *)

Lemma trimStart_noLeadingSpace (s : string) : noLeadingSpace (trimStart s) = true.
Proof.
  induction s as [|c r IH]; [reflexivity|].
  cbn [trimStart]. destruct (isSpace c) eqn:E; [exact IH|].
  cbn [noLeadingSpace]. rewrite E. reflexivity.
Qed.

Lemma trimStart_fixed (s : string) : noLeadingSpace s = true -> trimStart s = s.
Proof.
  destruct s as [|c r]; [reflexivity|]. cbn [noLeadingSpace trimStart].
  intros H. apply negb_true_iff in H. rewrite H. reflexivity.
Qed.

Lemma trimEnd_cons (c : ascii) (r : string) :
  trimEnd (String c r)
  = match trimEnd r with
    | EmptyString => if isSpace c then EmptyString else String c EmptyString
    | t => String c t
    end.
Proof. reflexivity. Qed.

Lemma trimEnd_idempotent (s : string) : trimEnd (trimEnd s) = trimEnd s.
Proof.
  induction s as [|c r IH]; [reflexivity|].
  rewrite trimEnd_cons. destruct (trimEnd r) as [|d t] eqn:E.
  - destruct (isSpace c) eqn:Hc; [reflexivity|].
    rewrite trimEnd_cons. cbn [trimEnd]. rewrite Hc. reflexivity.
  - rewrite trimEnd_cons, IH. reflexivity.
Qed.

Lemma trimEnd_noLeadingSpace (s : string) :
  noLeadingSpace s = true -> noLeadingSpace (trimEnd s) = true.
Proof.
  destruct s as [|c r]; [reflexivity|]. cbn [noLeadingSpace].
  rewrite trimEnd_cons. intros H. destruct (trimEnd r); [|exact H].
  apply negb_true_iff in H. rewrite H. cbn [noLeadingSpace]. rewrite H. reflexivity.
Qed.

Lemma trimEnd_noTrailingSpace (s : string) : noTrailingSpace (trimEnd s) = true.
Proof.
  induction s as [|c r IH]; [reflexivity|].
  rewrite trimEnd_cons. destruct (trimEnd r) as [|d t] eqn:E.
  - destruct (isSpace c) eqn:Hc; [reflexivity|].
    cbn [noTrailingSpace]. rewrite Hc. reflexivity.
  - exact IH.
Qed.

Lemma trim_idempotent (s : string) : trim (trim s) = trim s.
Proof.
  unfold trim.
  rewrite (trimStart_fixed (trimEnd (trimStart s)))
    by (apply trimEnd_noLeadingSpace, trimStart_noLeadingSpace).
  apply trimEnd_idempotent.
Qed.

Lemma trim_clean (s : string) :
  noLeadingSpace (trim s) = true /\ noTrailingSpace (trim s) = true.
Proof.
  unfold trim. split.
  - apply trimEnd_noLeadingSpace, trimStart_noLeadingSpace.
  - apply trimEnd_noTrailingSpace.
Qed.

(* ================================================================== *)
(** ** Decimal numerals *)
(* ================================================================== *)

Lemma digitsValueFrom_uint (d : Decimal.uint) (acc : Z) :
  digitsValueFrom acc (NilEmpty.string_of_uint d) = uintValue acc d.
Proof.
  revert acc. induction d as [|d IH|d IH|d IH|d IH|d IH|d IH|d IH|d IH|d IH|d IH];
    intros acc; [reflexivity|..]; cbn [NilEmpty.string_of_uint digitsValueFrom uintValue];
    rewrite IH; reflexivity.
Qed.

Lemma string_of_uint_digits (d : Decimal.uint) :
  all isDigit (NilEmpty.string_of_uint d) = true.
Proof.
  induction d as [|d IH|d IH|d IH|d IH|d IH|d IH|d IH|d IH|d IH|d IH];
    [reflexivity|..]; cbn [NilEmpty.string_of_uint all]; rewrite IH; reflexivity.
Qed.

Lemma uintValue_acc (d : Decimal.uint) (acc : positive) :
  uintValue (Zpos acc) d = Zpos (Pos.of_uint_acc d acc).
Proof.
  revert acc. induction d as [|d IH|d IH|d IH|d IH|d IH|d IH|d IH|d IH|d IH|d IH];
    intros acc; [reflexivity|..]; cbn [uintValue Pos.of_uint_acc];
    rewrite <- IH; f_equal; lia.
Qed.

Lemma uintValue_of_uint (d : Decimal.uint) : uintValue 0 d = Z.of_N (Pos.of_uint d).
Proof.
  induction d as [|d IH|d IH|d IH|d IH|d IH|d IH|d IH|d IH|d IH|d IH];
    [reflexivity|exact IH|..]; cbn [uintValue Pos.of_uint Z.of_N];
    symmetry; rewrite <- uintValue_acc; reflexivity.
Qed.

(** Printing a natural number and reading the digits back. *)
Lemma ofZ_digits (n : Z) :
  0 <= n ->
  all isDigit (ofZ n) = true /\ nonEmpty (ofZ n) = true /\ digitsValue (ofZ n) = n.
Proof.
  intros Hn. destruct n as [|p|p]; [split_conj; reflexivity| |lia].
  unfold ofZ. cbn [Z.to_int NilZero.string_of_int].
  pose proof (DecimalPos.Unsigned.to_uint_nonnil p) as Hnil.
  assert (Hs : NilZero.string_of_uint (Pos.to_uint p)
               = NilEmpty.string_of_uint (Pos.to_uint p))
    by (destruct (Pos.to_uint p); [congruence|..]; reflexivity).
  rewrite Hs.
  split; [apply string_of_uint_digits|]. split.
  - destruct (Pos.to_uint p); [congruence|..]; reflexivity.
  - unfold digitsValue. rewrite digitsValueFrom_uint, uintValue_of_uint.
    rewrite DecimalPos.Unsigned.of_to. reflexivity.
Qed.

Lemma span_all (p : ascii -> bool) (s : string) :
  all p s = true -> span p s = (s, EmptyString).
Proof.
  induction s as [|c r IH]; [reflexivity|]. cbn [all span].
  intros H. apply andb_true_iff in H as [Hc Hr]. rewrite Hc, (IH Hr). reflexivity.
Qed.

Lemma digit_cases (c : ascii) :
  isDigit c = true ->
  isSpace c = false /\ Ascii.eqb c "+" = false /\ Ascii.eqb c "-" = false
  /\ Ascii.eqb c "x" = false /\ Ascii.eqb c "X" = false
  /\ Ascii.eqb c "o" = false /\ Ascii.eqb c "O" = false
  /\ Ascii.eqb c "b" = false /\ Ascii.eqb c "B" = false
  /\ Ascii.eqb c "I" = false.
Proof.
  destruct c as [[] [] [] [] [] [] [] []]; intros H; try discriminate H;
    split_conj; reflexivity.
Qed.

(** A run of digits converts to the number it writes. *)
Lemma Number_digits (ds : string) :
  all isDigit ds = true -> nonEmpty ds = true ->
  Number ds = of_Z (digitsValue ds).
Proof.
  intros Hall Hne. unfold Number.
  rewrite trim_no_space
    by (eapply all_impl; [|exact Hall]; intros c Hc;
        destruct (digit_cases c Hc) as (-> & _); reflexivity).
  destruct ds as [|c r]; [discriminate Hne|].
  pose proof Hall as Hall'. cbn [all] in Hall'.
  apply andb_true_iff in Hall' as [Hc Hr].
  destruct (digit_cases c Hc) as (_ & Hplus & Hminus & _ & _ & _ & _ & _ & _ & HI).
  assert (Hprefix : radixPrefix (String c r) = None).
  { unfold radixPrefix. destruct (Ascii.eqb_spec c "0") as [->|Hc0].
    - destruct r as [|x r']; [reflexivity|].
      cbn [all] in Hr. apply andb_true_iff in Hr as [Hx _].
      destruct (digit_cases x Hx) as (_ & _ & _ & -> & -> & -> & -> & -> & -> & _).
      reflexivity.
    - destruct c as [[] [] [] [] [] [] [] []]; try reflexivity; congruence. }
  rewrite Hprefix.
  assert (Hsign : match String c r with
                  | String "+" t => unsignedDecimal t
                  | String "-" t => neg (unsignedDecimal t)
                  | _ => unsignedDecimal (String c r)
                  end = unsignedDecimal (String c r)).
  { destruct c as [[] [] [] [] [] [] [] []]; try reflexivity; discriminate. }
  rewrite Hsign. unfold unsignedDecimal.
  assert (Hinf : String.eqb (String c r) "Infinity" = false)
    by (cbn [String.eqb]; rewrite HI; reflexivity).
  rewrite Hinf, (span_all isDigit _ Hall).
  cbn [nonEmpty negb andb exponentPart].
  rewrite append_nil_r. unfold slen. cbn [String.length].
  unfold of_decimal, of_Z. change (0 - Z.of_nat 0) with 0.
  cbn [Z.leb Z.compare]. f_equal. change (10 ^ 0) with 1. lia.
Qed.

Lemma Number_ofZ (n : Z) : 0 <= n -> Number (ofZ n) = of_Z n.
Proof.
  intros Hn. destruct (ofZ_digits n Hn) as (Hd & Hne & Hv).
  rewrite Number_digits by assumption. rewrite Hv. reflexivity.
Qed.

(* ================================================================== *)
(** ** Numbers: sign and bounds of rounding *)
(* ================================================================== *)

Lemma rne_nonneg (a b : Z) : 0 <= a -> 0 < b -> 0 <= rne a b.
Proof.
  intros Ha Hb. unfold rne.
  assert (0 <= a / b) by (apply Z.div_pos; lia).
  destruct (2 * (a mod b) ?= b); [destruct (Z.even (a / b))|..]; lia.
Qed.

Lemma rne_le (a b k : Z) : 0 < b -> a <= k * b -> rne a b <= k.
Proof.
  intros Hb Hle. unfold rne.
  pose proof (Z.div_mod a b ltac:(lia)) as Hdm.
  pose proof (Z.mod_pos_bound a b Hb) as Hmod.
  assert (Hq : a / b <= k) by (apply Z.div_le_upper_bound; lia).
  destruct (Z.eq_dec (a / b) k) as [E|E].
  - assert (a mod b = 0) by nia.
    replace (2 * (a mod b)) with 0 by lia.
    destruct (Z.compare_spec 0 b); [lia | lia | lia].
  - destruct (2 * (a mod b) ?= b); [destruct (Z.even (a / b))|..]; lia.
Qed.

Lemma rne_ge (a b k : Z) : 0 < b -> k * b <= a -> k <= rne a b.
Proof.
  intros Hb Hle. unfold rne.
  assert (Hq : k <= a / b) by (apply Z.div_le_lower_bound; lia).
  destruct (2 * (a mod b) ?= b); [destruct (Z.even (a / b))|..]; lia.
Qed.

Lemma round_shift_bound (m : Z) : 0 <= round_shift m /\ (0 < m -> round_shift m <= Z.log2 m).
Proof.
  unfold round_shift, precision. split; [lia|]. intros Hm.
  pose proof (Z.log2_nonneg m). lia.
Qed.

(** A sum or difference of two finite values is positive exactly when
    the exact result is. *)
Lemma round_units_pos (n : Z) : 0 < n -> gtb (round_units n 1) zero = true.
Proof.
  intros Hn. unfold round_units. rewrite Z.div_1_r, Z.mul_1_l, Z.abs_eq by lia.
  set (s := round_shift n).
  destruct (round_shift_bound n) as [Hs0 Hs]. specialize (Hs Hn). fold s in Hs0, Hs.
  assert (Hpow : 0 < 2 ^ s) by (apply Z.pow_pos_nonneg; lia).
  assert (Hge : 1 <= rne n (2 ^ s)).
  { apply rne_ge; [exact Hpow|]. rewrite Z.mul_1_l.
    pose proof (Z.log2_spec n Hn) as [Hlow _].
    eapply Z.le_trans; [|exact Hlow]. apply Z.pow_le_mono_r; lia. }
  assert (Hr : 0 < rne n (2 ^ s) * 2 ^ s) by nia.
  destruct (overflow_units <=? rne n (2 ^ s) * 2 ^ s); [reflexivity|].
  assert (Hov : 0 < overflow_units) by (apply Z.pow_pos_nonneg; lia).
  destruct (Z.leb_spec (rne n (2 ^ s) * 2 ^ s) (- overflow_units)); [lia|].
  unfold gtb, ltb, zero. apply Z.ltb_lt. exact Hr.
Qed.

Lemma round_units_nonpos (n : Z) : n <= 0 -> gtb (round_units n 1) zero = false.
Proof.
  intros Hn. unfold round_units. rewrite Z.div_1_r, Z.mul_1_l.
  set (s := round_shift (Z.abs n)).
  destruct (round_shift_bound (Z.abs n)) as [Hs0 _]. fold s in Hs0.
  assert (Hpow : 0 < 2 ^ s) by (apply Z.pow_pos_nonneg; lia).
  assert (Hle : rne n (2 ^ s) <= 0) by (apply rne_le; [exact Hpow | lia]).
  assert (Hr : rne n (2 ^ s) * 2 ^ s <= 0) by nia.
  assert (Hov : 0 < overflow_units) by (apply Z.pow_pos_nonneg; lia).
  destruct (Z.leb_spec overflow_units (rne n (2 ^ s) * 2 ^ s)); [lia|].
  destruct (rne n (2 ^ s) * 2 ^ s <=? - overflow_units); [reflexivity|].
  unfold gtb, ltb, zero. apply Z.ltb_ge. exact Hr.
Qed.

(** The comparator [b - a] is positive exactly when [a < b]. *)
Lemma sub_positive (a b : number) : gtb (sub b a) zero = ltb a b.
Proof.
  destruct a as [| | |x], b as [| | |y]; try reflexivity.
  unfold sub, neg, add.
  destruct (Z.ltb_spec x y) as [H|H]; cbn [ltb].
  - rewrite round_units_pos by lia. symmetry. apply Z.ltb_lt. exact H.
  - rewrite round_units_nonpos by lia. symmetry. apply Z.ltb_ge. exact H.
Qed.

(** Rounding a non-negative quotient gives a non-negative number, and
    never crosses a bound that is itself a binary64 value. *)
Lemma round_units_nonneg (a b : Z) :
  0 <= a -> 0 < b ->
  exists r, 0 <= r /\ (round_units a b = Fin r \/ round_units a b = PInf).
Proof.
  intros Ha Hb. unfold round_units. rewrite Z.abs_eq by exact Ha.
  set (s := round_shift (a / b)).
  destruct (round_shift_bound (a / b)) as [Hs0 _]. fold s in Hs0.
  assert (Hpow : 0 < 2 ^ s) by (apply Z.pow_pos_nonneg; lia).
  assert (Hge : 0 <= rne a (b * 2 ^ s)) by (apply rne_nonneg; nia).
  assert (Hov : 0 < overflow_units) by (apply Z.pow_pos_nonneg; lia).
  exists (rne a (b * 2 ^ s) * 2 ^ s). split; [nia|].
  destruct (overflow_units <=? rne a (b * 2 ^ s) * 2 ^ s); [right; reflexivity|].
  destruct (Z.leb_spec (rne a (b * 2 ^ s) * 2 ^ s) (- overflow_units)); [nia|].
  left. reflexivity.
Qed.

Lemma round_units_bounded (a b k e : Z) :
  0 <= a -> 0 < b -> 0 < k -> 0 <= e ->
  a <= k * 2 ^ e * b ->
  Z.log2 (k * 2 ^ e) + 1 - precision <= e ->
  k * 2 ^ e < overflow_units ->
  exists r, 0 <= r <= k * 2 ^ e /\ round_units a b = Fin r.
Proof.
  intros Ha Hb Hk He Hle Hbits Hfin. unfold round_units. rewrite Z.abs_eq by exact Ha.
  set (s := round_shift (a / b)).
  assert (H2e : 0 < 2 ^ e) by (apply Z.pow_pos_nonneg; lia).
  assert (Hs : 0 <= s <= e).
  { unfold s, round_shift. split; [lia|].
    assert (a / b <= k * 2 ^ e) by (apply Z.div_le_upper_bound; lia).
    assert (Z.log2 (a / b) <= Z.log2 (k * 2 ^ e)) by (apply Z.log2_le_mono; exact H).
    lia. }
  assert (Hpow : 0 < 2 ^ s) by (apply Z.pow_pos_nonneg; lia).
  assert (Hsplit : 2 ^ e = 2 ^ (e - s) * 2 ^ s)
    by (rewrite <- Z.pow_add_r by lia; f_equal; lia).
  assert (Hpow' : 0 < 2 ^ (e - s)) by (apply Z.pow_pos_nonneg; lia).
  assert (Hge : 0 <= rne a (b * 2 ^ s)) by (apply rne_nonneg; nia).
  assert (Hup : rne a (b * 2 ^ s) <= k * 2 ^ (e - s)).
  { apply rne_le; [nia|]. rewrite Hsplit in Hle. nia. }
  assert (Hr : 0 <= rne a (b * 2 ^ s) * 2 ^ s <= k * 2 ^ e).
  { split; [nia|]. rewrite Hsplit. nia. }
  exists (rne a (b * 2 ^ s) * 2 ^ s). split; [exact Hr|].
  assert (Hov : 0 < overflow_units) by (apply Z.pow_pos_nonneg; lia).
  destruct (Z.leb_spec overflow_units (rne a (b * 2 ^ s) * 2 ^ s)); [lia|].
  destruct (Z.leb_spec (rne a (b * 2 ^ s) * 2 ^ s) (- overflow_units)); [lia|].
  reflexivity.
Qed.

(* ================================================================== *)
(** ** Tabular reader: shape of the matrix *)
(* ================================================================== *)

Lemma scanStep_trimmed (line : string) (st : Scan) :
  Forall (fun cell => trim cell = cell) (scanValues st) ->
  Forall (fun cell => trim cell = cell) (scanValues (scanStep line st)).
Proof.
  intros H. unfold scanStep.
  destruct (charAt line (scanIndex st)) as [ch|]; [|exact H].
  destruct (Ascii.eqb ch quote).
  - destruct (scanInQuotes st && isChar quote (charAt line (scanIndex st + 1)));
      exact H.
  - destruct (Ascii.eqb ch comma && negb (scanInQuotes st)); [|exact H].
    cbn [scanValues]. apply Forall_app. split; [exact H|].
    constructor; [apply trim_idempotent | constructor].
Qed.

Lemma scanLoop_trimmed (fuel : nat) (line : string) (st : Scan) :
  Forall (fun cell => trim cell = cell) (scanValues st) ->
  Forall (fun cell => trim cell = cell) (scanValues (scanLoop fuel line st)).
Proof.
  revert st. induction fuel as [|fuel IH]; intros st H; [exact H|].
  cbn [scanLoop]. destruct (scanIndex st <? String.length line)%nat; [|exact H].
  apply IH, scanStep_trimmed, H.
Qed.

Lemma splitOn_nonempty (sep : ascii) (s : string) : splitOn sep s <> [].
Proof.
  destruct s as [|c r]; [discriminate|]. cbn [splitOn].
  destruct (Ascii.eqb c sep); [discriminate|].
  destruct (splitOn sep r); discriminate.
Qed.

Lemma parseLine_shape (delimiter : ascii) (line : string) :
  parseLine delimiter line <> []
  /\ Forall (fun cell => trim cell = cell) (parseLine delimiter line).
Proof.
  unfold parseLine. destruct (Ascii.eqb delimiter tab).
  - unfold parseTabLine. split.
    + pose proof (splitOn_nonempty tab line) as H.
      destruct (splitOn tab line); [congruence | discriminate].
    + apply Forall_map. apply Forall_forall. intros x _. apply trim_idempotent.
  - unfold parseCommaLine. split.
    + intros H. apply app_eq_nil in H as [_ H]. discriminate H.
    + apply Forall_app. split.
      * apply scanLoop_trimmed. constructor.
      * constructor; [apply trim_idempotent | constructor].
Qed.

Lemma csvToMatrix_length (text : string) :
  length (csvToMatrix text) = length (csvLines text).
Proof.
  unfold csvToMatrix. destruct (csvLines text) as [|first rest]; [reflexivity|].
  rewrite length_map. reflexivity.
Qed.

(** X1.  The matrix read from a text has one row per line that is not
    blank, every row has at least one cell, and no cell begins or ends
    with white space, in tab mode and in comma mode alike. *)
Theorem csvToMatrix_shape (text : string) :
  length (csvToMatrix text) = length (csvLines text)
  /\ Forall (fun row => row <> []
                        /\ Forall (fun cell => trim cell = cell
                                               /\ noLeadingSpace cell = true
                                               /\ noTrailingSpace cell = true) row)
            (csvToMatrix text).
Proof.
  unfold csvToMatrix. destruct (csvLines text) as [|first rest] eqn:E; [split; constructor|].
  split; [rewrite length_map; reflexivity|].
  apply Forall_map. apply Forall_forall. intros line _.
  destruct (parseLine_shape (if hasTab first then tab else comma) line) as [Hne Htrim].
  split; [exact Hne|].
  eapply Forall_impl; [exact Htrim|].
  intros cell Hcell. split; [exact Hcell|]. rewrite <- Hcell. apply trim_clean.
Qed.

Lemma quoteFields_plain (line current : string) :
  any (Ascii.eqb quote) line = false ->
  quoteFields false current line
  = match splitOn comma line with
    | field :: fields => trim (current ++ field) :: map trim fields
    | [] => []
    end.
Proof.
  revert current. induction line as [|ch rest IH]; intros current Hq.
  - cbn [quoteFields splitOn]. rewrite append_nil_r. reflexivity.
  - cbn [any] in Hq. apply orb_false_iff in Hq as [Hch Hrest].
    assert (Hch' : Ascii.eqb ch quote = false) by (rewrite Ascii.eqb_sym; exact Hch).
    cbn [quoteFields splitOn]. rewrite Hch'. cbn [negb]. rewrite andb_true_r.
    destruct (Ascii.eqb ch comma).
    + rewrite append_nil_r, (IH EmptyString Hrest).
      pose proof (splitOn_nonempty comma rest) as Hne.
      destruct (splitOn comma rest); [congruence|]. reflexivity.
    + rewrite (IH (push current ch) Hrest).
      pose proof (splitOn_nonempty comma rest) as Hne.
      destruct (splitOn comma rest) as [|field fields]; [congruence|].
      rewrite <- append_push. reflexivity.
Qed.

(** X2.  On a line without a double quote the quote-aware scan is plain
    splitting on commas, each field trimmed. *)
Theorem parseCommaLine_without_quotes (line : string) :
  any (Ascii.eqb quote) line = false ->
  parseLine comma line = map trim (splitOn comma line).
Proof.
  intros Hq. unfold parseLine. change (Ascii.eqb comma tab) with false. cbn iota.
  rewrite parseCommaLine_quoteFields, (quoteFields_plain _ _ Hq).
  pose proof (splitOn_nonempty comma line) as Hne.
  destruct (splitOn comma line); [congruence | reflexivity].
Qed.

Lemma parseCommaLine_without_quotes_witness :
  parseLine comma " Yelp , $15,, Service "
  = map trim (splitOn comma " Yelp , $15,, Service ").
Proof. apply parseCommaLine_without_quotes. reflexivity. Defined.

(* ================================================================== *)
(** ** Header-keyed records *)
(* ================================================================== *)

Lemma rowOfCols_fold (cols : list string) (headers : list string) :
  forall (i : nat) (acc : Row) (key : string),
    fold_left (fun (acc : Row) '(idx, h) => <[h := trim (cellAt cols idx)]> acc)
              (combine (seq i (length headers)) headers) acc !! key
    = match lastIndexFrom i key headers with
      | Some j => Some (trim (cellAt cols j))
      | None => acc !! key
      end.
Proof.
  induction headers as [|h rest IH]; intros i acc key; [reflexivity|].
  cbn [length seq combine fold_left lastIndexFrom]. rewrite IH.
  destruct (lastIndexFrom (S i) key rest); [reflexivity|].
  destruct (String.eqb_spec h key) as [->|Hne].
  - apply lookup_insert_eq.
  - apply lookup_insert_ne. exact Hne.
Qed.

(** X3.  A record built from a line of cells maps a header to the
    trimmed cell under the last column of that name, to the empty
    string when the line is too short to have that cell, and holds no
    other key.  The reader yields one record per line after the first
    and none when the text has fewer than two lines. *)
Theorem csvToRows_lookup (text : string) (headers cols : list string) (key : string) :
  rowOfCols headers cols !! key
  = (fun i => trim (cellAt cols i)) <$> lastIndexOf key headers
  /\ length (csvToRows text) = (length (csvLines text) - 1)%nat
  /\ csvToRows text
     = match csvToMatrix text with
       | headerCols :: body => map (rowOfCols (map normalizeHeader headerCols)) body
       | [] => []
       end.
Proof.
  split; [|split].
  - unfold rowOfCols, indexed, lastIndexOf. rewrite rowOfCols_fold.
    destruct (lastIndexFrom 0 key headers); [reflexivity | apply lookup_empty].
  - rewrite <- (csvToMatrix_length text).
    unfold csvToRows. destruct (csvToMatrix text) as [|h [|r body]]; try reflexivity.
    cbn [length]. rewrite length_map. cbn [length]. lia.
  - unfold csvToRows. destruct (csvToMatrix text) as [|h [|r body]]; reflexivity.
Qed.

Example csvToRows_repeated_header :
  map (fun row : Row => (row !! "name", row !! "cost", row !! "date"))
      (csvToRows ("Name,Cost,NAME" ++ String lf ("Ann, $15 ,Bea" ++ String lf "Cy")))
  = [(Some "Bea", Some "$15", None); (Some EmptyString, Some EmptyString, None)].
Proof. by_evaluation. Qed.

(* ================================================================== *)
(** ** Header normalizer *)
(* ================================================================== *)

Lemma lowerChar_facts (c : ascii) :
  isUpperAscii (lowerChar c) = false
  /\ isSpace (lowerChar c) = isSpace c
  /\ Ascii.eqb (lowerChar c) "_" = Ascii.eqb c "_"
  /\ lowerChar (upperLetter c) = lowerChar c
  /\ isSpace (upperLetter c) = isSpace c.
Proof. destruct c as [[] [] [] [] [] [] [] []]; split_conj; reflexivity. Qed.

Lemma collapseSeparators_chars (s : string) :
  all (fun c => negb (isUpperAscii c)) s = true ->
  all headerChar (collapseSeparators s) = true.
Proof.
  induction s as [|c r IH]; intros H; [reflexivity|].
  cbn [all] in H. apply andb_true_iff in H as [Hc Hr].
  cbn [collapseSeparators].
  destruct (isSpace c || Ascii.eqb c "_") eqn:Hsep.
  - destruct r as [|d r']; [reflexivity|].
    destruct (isSpace d || Ascii.eqb d "_"); [exact (IH Hr)|].
    cbn [all]. rewrite (IH Hr). reflexivity.
  - cbn [all]. rewrite (IH Hr). apply orb_false_iff in Hsep as [Hs Hu].
    unfold headerChar. rewrite Hc, Hs, Hu. reflexivity.
Qed.

Lemma collapseSeparators_head (c : ascii) (r : string) :
  isSpace c || Ascii.eqb c "_" = false ->
  exists t, collapseSeparators (String c r) = String c t.
Proof. intros H. cbn [collapseSeparators]. rewrite H. eauto. Qed.

Lemma noDoubleSpace_cons (c : ascii) (t : string) :
  isSpace c = false -> noDoubleSpace (String c t) = noDoubleSpace t.
Proof.
  intros H. destruct c as [[] [] [] [] [] [] [] []]; try reflexivity; discriminate H.
Qed.

Lemma collapseSeparators_spaces (s : string) :
  noDoubleSpace (collapseSeparators s) = true.
Proof.
  induction s as [|c r IH]; [reflexivity|].
  cbn [collapseSeparators].
  destruct (isSpace c || Ascii.eqb c "_") eqn:Hsep.
  - destruct r as [|d r']; [reflexivity|].
    destruct (isSpace d || Ascii.eqb d "_") eqn:Hd; [exact IH|].
    destruct (collapseSeparators_head d r' Hd) as [t Ht].
    rewrite Ht in IH |- *. apply orb_false_iff in Hd as [Hd _].
    rewrite (noDoubleSpace_cons d t Hd) in IH.
    destruct d as [[] [] [] [] [] [] [] []]; try exact IH; discriminate Hd.
  - apply orb_false_iff in Hsep as [Hs _].
    rewrite noDoubleSpace_cons by exact Hs. exact IH.
Qed.

Lemma toLowerCase_not_upper (s : string) :
  all (fun c => negb (isUpperAscii c)) (toLowerCase s) = true.
Proof.
  induction s as [|c r IH]; [reflexivity|].
  unfold toLowerCase in *. cbn [smap all].
  destruct (lowerChar_facts c) as (-> & _). exact IH.
Qed.

Lemma trimStart_smap (f : ascii -> ascii) (s : string) :
  (forall c, isSpace (f c) = isSpace c) ->
  trimStart (smap f s) = smap f (trimStart s).
Proof.
  intros Hf. induction s as [|c r IH]; [reflexivity|].
  cbn [smap trimStart]. rewrite Hf. destruct (isSpace c); [exact IH | reflexivity].
Qed.

Lemma trimEnd_smap (f : ascii -> ascii) (s : string) :
  (forall c, isSpace (f c) = isSpace c) ->
  trimEnd (smap f s) = smap f (trimEnd s).
Proof.
  intros Hf. induction s as [|c r IH]; [reflexivity|].
  cbn [smap]. rewrite !trimEnd_cons, IH, Hf.
  destruct (trimEnd r); [destruct (isSpace c)|]; reflexivity.
Qed.

Lemma smap_lower_upper (s : string) :
  toLowerCase (smap upperLetter s) = toLowerCase s.
Proof.
  unfold toLowerCase. induction s as [|c r IH]; [reflexivity|].
  cbn [smap]. rewrite IH. destruct (lowerChar_facts c) as (_ & _ & _ & -> & _).
  reflexivity.
Qed.

(** X4.  A normalized header holds no underscore, no upper-case ASCII
    letter and no white space but single spaces, never two in a row. *)
Theorem normalizeHeader_canonical (value : string) :
  all headerChar (normalizeHeader value) = true
  /\ noDoubleSpace (normalizeHeader value) = true.
Proof.
  unfold normalizeHeader. split.
  - apply collapseSeparators_chars, toLowerCase_not_upper.
  - apply collapseSeparators_spaces.
Qed.

(** X5.  The normalized header does not depend on the case of the ASCII
    letters of the label: a label and the label with its ASCII letters
    in upper case have the same key. *)
Theorem normalizeHeader_ignores_case (value : string) :
  normalizeHeader (smap upperLetter value) = normalizeHeader value.
Proof.
  unfold normalizeHeader, trim.
  assert (Hf : forall c, isSpace (upperLetter c) = isSpace c)
    by (intros c; destruct (lowerChar_facts c) as (_ & _ & _ & _ & H); exact H).
  rewrite trimStart_smap, trimEnd_smap by exact Hf.
  rewrite smap_lower_upper. reflexivity.
Qed.

Example normalizeHeader_examples :
  normalizeHeader "  Lead__Source " = "lead source"
  /\ normalizeHeader ("REPLY TIME" ++ String tab "MINUTES") = "reply time minutes"
  /\ normalizeHeader "_cost_" = " cost ".
Proof. split_conj; by_evaluation. Qed.

(* ================================================================== *)
(** ** Row mapper *)
(* ================================================================== *)

Lemma pick_one (row : Row) (key : string) :
  normalizeHeader key = key ->
  pick row [key] = match row !! key with
                   | Some value => value
                   | None => EmptyString
                   end.
Proof.
  intros Hk. cbn [pick]. rewrite Hk.
  destruct (row !! key) as [value|]; [|reflexivity].
  destruct value; reflexivity.
Qed.

Lemma pick_two (row : Row) (first second : string) :
  normalizeHeader first = first -> normalizeHeader second = second ->
  pick row [first; second]
  = if filled row first then default EmptyString (row !! first)
    else default EmptyString (row !! second).
Proof.
  intros H1 H2. cbn [pick]. rewrite H1, H2. unfold filled.
  destruct (row !! first) as [v1|]; cbn [default].
  - destruct (nonEmpty v1); [reflexivity|].
    destruct (row !! second) as [v2|]; [destruct v2|]; reflexivity.
  - destruct (row !! second) as [v2|]; [destruct v2|]; reflexivity.
Qed.

Lemma nonEmpty_default (row : Row) (key : string) :
  nonEmpty (default EmptyString (row !! key)) = filled row key.
Proof. unfold filled. destruct (row !! key); reflexivity. Qed.


(** X6.  A mapped row is accepted by the import exactly when the row
    has a non-empty [date] and a non-empty [customer] or, failing that,
    a non-empty [name]. *)
Theorem normalizeImportedLead_accepted (row : Row) :
  accepted (normalizeImportedLead row)
  = filled row "date" && (filled row "customer" || filled row "name").
Proof.
  unfold accepted, normalizeImportedLead. cbn [date customer].
  rewrite pick_one by reflexivity. rewrite pick_two by reflexivity.
  f_equal.
  - destruct (row !! "date") eqn:E; unfold filled; rewrite E; reflexivity.
  - destruct (filled row "customer") eqn:E.
    + rewrite nonEmpty_default. exact E.
    + apply nonEmpty_default.
Qed.



(** X8.  The category of a mapped row is the raw text when it is one of
    the four names, letter for letter, and the default bucket for any
    other text; the four names map to themselves. *)
Theorem coerceCategory_round_trip (raw : string) (c : ReplyTimeCategory) :
  coerceCategory (categoryName c) = c
  /\ (categoryName (coerceCategory raw) = raw
      \/ coerceCategory raw = defaultReplyCategory)
  /\ (coerceCategory raw = c ->
      c = defaultReplyCategory \/ raw = categoryName c).
Proof.
  split; [destruct c; reflexivity|].
  unfold coerceCategory, allowedCategories. cbn [List.find].
  destruct (String.eqb_spec (categoryName Cat_7_00_3_30) raw) as [E1|_];
    [split; [left; exact E1 | intros <-; left; reflexivity]|].
  destruct (String.eqb_spec (categoryName Cat_3_00_6_00) raw) as [E2|_];
    [split; [left; exact E2 | intros <-; right; symmetry; exact E2]|].
  destruct (String.eqb_spec (categoryName Cat_After_6) raw) as [E3|_];
    [split; [left; exact E3 | intros <-; right; symmetry; exact E3]|].
  destruct (String.eqb_spec (categoryName Cat_Weekend) raw) as [E4|_];
    [split; [left; exact E4 | intros <-; right; symmetry; exact E4]|].
  split; [right; reflexivity | intros <-; left; reflexivity].
Qed.

(* ================================================================== *)
(** ** Reply minutes and amounts *)
(* ================================================================== *)

Lemma span_fst_all (p : ascii -> bool) (s : string) : all p (fst (span p s)) = true.
Proof.
  induction s as [|c r IH]; [reflexivity|]. cbn [span].
  destruct (p c) eqn:E; [|reflexivity].
  destruct (span p r) as [a b]. cbn [fst all] in *. rewrite E, IH. reflexivity.
Qed.

Lemma matchDigits_digits (s found : string) :
  matchDigits s = Some found -> all isDigit found = true /\ nonEmpty found = true.
Proof.
  revert found. induction s as [|c r IH]; intros found; [discriminate|].
  change (matchDigits (String c r))
    with (if isDigit c then Some (fst (span isDigit (String c r))) else matchDigits r).
  destruct (isDigit c) eqn:E; [|apply IH].
  intros [= <-]. split; [apply (span_fst_all isDigit (String c r))|].
  cbn [span]. rewrite E. destruct (span isDigit r). reflexivity.
Qed.

Lemma digitsValueFrom_nonneg (s : string) (acc : Z) :
  0 <= acc -> all isDigit s = true -> 0 <= digitsValueFrom acc s.
Proof.
  revert acc. induction s as [|c r IH]; intros acc Hacc Hall; [exact Hacc|].
  cbn [all] in Hall. apply andb_true_iff in Hall as [Hc Hr].
  cbn [digitsValueFrom]. apply IH; [|exact Hr].
  unfold isDigit in Hc. apply andb_true_iff in Hc as [Hlo _].
  apply Z.leb_le in Hlo. unfold digitVal. lia.
Qed.

Lemma of_Z_nonneg (z : Z) : 0 <= z -> geb (of_Z z) zero = true.
Proof.
  intros Hz. unfold of_Z.
  assert (Hu : 0 < unit_scale) by (apply Z.pow_pos_nonneg; unfold ulp_exp; lia).
  destruct (round_units_nonneg (z * unit_scale) 1) as (r & Hr & [-> | ->]);
    [nia | lia | | reflexivity].
  cbn [geb leb zero]. apply Z.leb_le. exact Hr.
Qed.

Lemma Number_run (found : string) :
  all isDigit found = true -> nonEmpty found = true ->
  geb (Number found) zero = true.
Proof.
  intros Hall Hne. rewrite (Number_digits found Hall Hne).
  apply of_Z_nonneg. apply digitsValueFrom_nonneg; [lia | exact Hall].
Qed.

Lemma getReplyMinutes_sign (lead : Lead) (minutes : number) :
  getReplyMinutes lead = Some minutes -> geb minutes zero = true.
Proof.
  unfold getReplyMinutes.
  destruct (isFinite (Number (replyTimeMinutes lead))
            && geb (Number (replyTimeMinutes lead)) zero) eqn:E.
  - intros [= <-]. apply andb_true_iff in E as [_ E]. exact E.
  - destruct (replyTime lead) as [rt|]; [|discriminate].
    destruct (nonEmpty rt); [|discriminate].
    destruct (matchDigits rt) as [found|] eqn:M; [|discriminate].
    intros [= <-]. destruct (matchDigits_digits _ _ M) as [Hall Hne].
    apply Number_run; assumption.
Qed.

(** X9.  The minutes read from a lead, when there are any, are never NaN
    and never negative: a negative or unreadable [replyTimeMinutes] falls
    through to the digits of the legacy text. *)
Theorem getReplyMinutes_nonnegative (lead : Lead) :
  match getReplyMinutes lead with
  | Some minutes => geb minutes zero = true
  | None => True
  end.
Proof.
  destruct (getReplyMinutes lead) as [minutes|] eqn:E; [|exact I].
  apply (getReplyMinutes_sign lead), E.
Qed.

(** X10.  When [replyTimeMinutes] is not a finite number from zero up,
    the minutes are the integer spelled by the first run of digits of
    the legacy text, rounded to the nearest number, and there are none
    when the text has no digit. *)
Theorem getReplyMinutes_legacy (lead : Lead) (rt : string) :
  isFinite (Number (replyTimeMinutes lead))
    && geb (Number (replyTimeMinutes lead)) zero = false ->
  replyTime lead = Some rt ->
  getReplyMinutes lead
  = option_map (fun found => of_Z (digitsValue found)) (matchDigits rt).
Proof.
  intros Hnew Hrt. unfold getReplyMinutes. rewrite Hnew, Hrt.
  destruct rt as [|c r]; [reflexivity|]. cbn [nonEmpty].
  destruct (matchDigits (String c r)) as [found|] eqn:M; [|reflexivity].
  destruct (matchDigits_digits _ _ M) as [Hall Hne].
  cbn [option_map]. rewrite (Number_digits found Hall Hne). reflexivity.
Qed.

Lemma getReplyMinutes_legacy_witness :
  getReplyMinutes (replyLead "n/a" (Some "about 15 min"))
  = option_map (fun found => of_Z (digitsValue found)) (matchDigits "about 15 min").
Proof. apply getReplyMinutes_legacy; by_evaluation. Defined.

Lemma of_Z_finite (n : Z) : Z.abs n < wholeBound -> isFinite (of_Z n) = true.
Proof. intros H. rewrite of_Z_exact by exact H. reflexivity. Qed.

(** X11.  An amount whose digits, once every character but digits, dots
    and minus signs is dropped, spell a whole number below 2^53 is read
    as that number, whatever currency sign, separators or blanks
    surround the digits. *)
Theorem parseMoney_whole_amount (value : string) (n : Z) :
  0 <= n < wholeBound ->
  keep moneyChar value = ofZ n ->
  parseMoney value = of_Z n.
Proof.
  intros Hn Hkeep. unfold parseMoney. rewrite Hkeep.
  rewrite Number_ofZ by lia. rewrite of_Z_finite by lia. reflexivity.
Qed.

Lemma parseMoney_whole_amount_witness : parseMoney "$ 1,234 USD" = of_Z 1234.
Proof.
  apply parseMoney_whole_amount; [unfold wholeBound; lia | by_evaluation].
Defined.

(* ================================================================== *)
(** ** Headline figures *)
(* ================================================================== *)

Lemma unit_scale_pos : 0 < unit_scale.
Proof. apply Z.pow_pos_nonneg; unfold ulp_exp; lia. Qed.

Lemma ratio_bounded (w t : Z) :
  0 <= w <= t -> 0 < t < wholeBound ->
  exists r, 0 <= r <= unit_scale /\ div (of_Z w) (of_Z t) = Fin r.
Proof.
  intros Hw Ht. pose proof unit_scale_pos as Hu.
  assert (Hb : wholeBound = 2 ^ 53) by reflexivity.
  rewrite (of_Z_exact w), (of_Z_exact t) by lia.
  unfold div. destruct (Z.eqb_spec (t * unit_scale) 0) as [E|_]; [nia|].
  rewrite Z.sgn_pos, Z.abs_eq by nia. rewrite Z.mul_1_r.
  assert (H1 : 0 <= w * unit_scale * unit_scale) by nia.
  assert (H2 : 0 < t * unit_scale) by nia.
  assert (H3 : w * unit_scale * unit_scale <= 1 * 2 ^ 1074 * (t * unit_scale))
    by (change (2 ^ 1074) with unit_scale; nia).
  assert (H4 : Z.log2 (1 * 2 ^ 1074) + 1 - precision <= 1074)
    by (vm_compute; discriminate).
  assert (H5 : 1 * 2 ^ 1074 < overflow_units) by (vm_compute; reflexivity).
  destruct (round_units_bounded _ _ 1 1074 H1 H2 ltac:(lia) ltac:(lia) H3 H4 H5)
    as (r & Hr & E).
  exists r. split; [|exact E]. change (2 ^ 1074) with unit_scale in Hr. lia.
Qed.

Lemma percent_bounded (r : Z) :
  0 <= r <= unit_scale ->
  exists p, 0 <= p <= 100 * unit_scale /\ mul (Fin r) (of_Z 100) = Fin p.
Proof.
  intros Hr. pose proof unit_scale_pos as Hu.
  rewrite (of_Z_exact 100) by (vm_compute; reflexivity).
  unfold mul.
  assert (H1 : 0 <= r * (100 * unit_scale)) by nia.
  assert (H3 : r * (100 * unit_scale) <= 25 * 2 ^ 1076 * unit_scale)
    by (change (2 ^ 1076) with (4 * unit_scale); nia).
  assert (H4 : Z.log2 (25 * 2 ^ 1076) + 1 - precision <= 1076)
    by (vm_compute; discriminate).
  assert (H5 : 25 * 2 ^ 1076 < overflow_units) by (vm_compute; reflexivity).
  destruct (round_units_bounded _ _ 25 1076 H1 Hu ltac:(lia) ltac:(lia) H3 H4 H5)
    as (p & Hp & E).
  exists p. split; [|exact E]. change (2 ^ 1076) with (4 * unit_scale) in Hp. lia.
Qed.

Lemma filter_count {A : Type} (p : A -> bool) (l : list A) :
  0 <= countZ (List.filter p l) <= countZ l.
Proof.
  unfold countZ. pose proof (List.filter_length_le p l). lia.
Qed.

(** X12.  The win rate of a list of fewer than 2^53 leads is a finite
    number from 0 to 100. *)
Theorem winRate_bounds (leads : list Lead) :
  countZ leads < wholeBound ->
  geb (winRate (stats leads)) zero = true
  /\ leb (winRate (stats leads)) (of_Z 100) = true.
Proof.
  intros Hlen. unfold stats. cbn [winRate].
  rewrite (of_Z_exact 100) by (vm_compute; reflexivity).
  destruct (Z.ltb_spec 0 (countZ leads)) as [Hpos|_].
  - pose proof (filter_count (fun l : Lead => YesNo_eqb (jobWon l) Yes) leads) as Hw.
    destruct (ratio_bounded _ (countZ leads) Hw (conj Hpos Hlen)) as (r & Hr & ->).
    destruct (percent_bounded r Hr) as (p & Hp & E).
    rewrite (of_Z_exact 100) in E by (vm_compute; reflexivity). rewrite E.
    cbn [geb leb zero]. split; apply Z.leb_le; lia.
  - split; vm_compute; reflexivity.
Qed.

Lemma winRate_bounds_witness :
  geb (winRate (stats [replyLead "5" None; replyLead "7" None])) zero = true
  /\ leb (winRate (stats [replyLead "5" None; replyLead "7" None])) (of_Z 100) = true.
Proof. apply winRate_bounds. vm_compute. reflexivity. Defined.

Lemma bucketStep_fold (leads : list Lead) (acc : ReplyTimeCategory -> Bucket)
  (c : ReplyTimeCategory) :
  bucketSum (fold_left bucketStep leads acc c)
  = fold_left add (replyTimesOf (ofCategory c leads)) (bucketSum (acc c))
  /\ bucketCount (fold_left bucketStep leads acc c)
     = bucketCount (acc c) + countZ (replyTimesOf (ofCategory c leads)).
Proof.
  revert acc. induction leads as [|lead leads IH]; intros acc.
  - cbn. unfold countZ. cbn. split; [reflexivity | lia].
  - cbn [fold_left]. destruct (IH (bucketStep acc lead)) as [IHs IHc].
    rewrite IHs, IHc. unfold ofCategory. cbn [List.filter]. fold (ofCategory c leads).
    unfold bucketStep.
    destruct (getReplyMinutes lead) as [mins|] eqn:M.
    + destruct (category_eqb c (replyTimeCategory lead)) eqn:E.
      * unfold replyTimesOf. cbn [omap list_omap]. rewrite M.
        cbn [bucketSum bucketCount fold_left]. unfold countZ. cbn [length].
        split; [reflexivity | lia].
      * split; reflexivity.
    + destruct (category_eqb c (replyTimeCategory lead)) eqn:E.
      * unfold replyTimesOf. cbn [omap list_omap]. rewrite M. split; reflexivity.
      * split; reflexivity.
Qed.

(** X13.  Each reply-time bucket holds what the overall average is built
    from, restricted to the leads of its category: the sum, added in list
    order, and the number of the minutes those leads yield.  Leads
    without minutes change no bucket. *)
Theorem avgReplyByCategory_per_category (leads : list Lead) (c : ReplyTimeCategory) :
  bucketSum (avgReplyByCategory (stats leads) c)
  = sumNumbers (replyTimesOf (ofCategory c leads))
  /\ bucketCount (avgReplyByCategory (stats leads) c)
     = countZ (replyTimesOf (ofCategory c leads)).
Proof.
  unfold stats. cbn [avgReplyByCategory].
  destruct (bucketStep_fold leads emptyBuckets c) as [Hs Hc].
  rewrite Hs, Hc. cbn [emptyBuckets bucketSum bucketCount]. split; [reflexivity | lia].
Qed.

(* ================================================================== *)
(** ** Weekly table: order and grouping of the rows *)
(* ================================================================== *)

Lemma round_units_notNaN (a b : Z) : isNaN (round_units a b) = false.
Proof.
  unfold round_units. cbv zeta.
  destruct (overflow_units <=? _); [reflexivity|].
  destruct (_ <=? - overflow_units); reflexivity.
Qed.

Lemma add_Fin_notNaN (x : number) (n : Z) :
  isNaN x = false -> isNaN (add x (Fin n)) = false.
Proof.
  destruct x; try discriminate; intros _; try reflexivity.
  apply round_units_notNaN.
Qed.

Lemma parseMoney_Fin (s : string) : exists n, parseMoney s = Fin n.
Proof.
  unfold parseMoney. cbv zeta.
  destruct (Number (keep moneyChar s)) as [| | |n]; cbn [isFinite].
  - exists 0. reflexivity.
  - exists 0. reflexivity.
  - exists 0. reflexivity.
  - exists n. reflexivity.
Qed.

Lemma bump_Forall (P : Grp.t -> Prop) (key : string) (f : Grp.t -> Grp.t) (acc : Groups) :
  (forall g, P g -> P (f g)) -> P Grp.empty ->
  Forall (fun e => P (snd e)) acc ->
  Forall (fun e => P (snd e)) (bump key f acc).
Proof.
  intros Hf He. induction acc as [|[k g] acc IH]; intros H; cbn [bump].
  - constructor; [apply Hf, He | constructor].
  - inversion H as [|? ? Hg Hrest]; subst. cbn [snd] in Hg.
    destruct (String.eqb k key).
    + constructor; [apply Hf, Hg | exact Hrest].
    + constructor; [exact Hg | apply IH, Hrest].
Qed.

Lemma grouped_spend_notNaN (l : list Lead) (acc : Groups) :
  Forall (fun e => isNaN (Grp.spend (snd e)) = false) acc ->
  Forall (fun e => isNaN (Grp.spend (snd e)) = false) (fold_left groupStep l acc).
Proof.
  revert acc. induction l as [|lead l IH]; intros acc H; [exact H|].
  cbn [fold_left]. apply IH. unfold groupStep.
  destruct (isInherited (groupKey lead)); [exact H|].
  apply (bump_Forall (fun g => isNaN (Grp.spend g) = false)); [| reflexivity | exact H].
  intros g Hg. cbn [addLead Grp.spend].
  destruct (parseMoney_Fin (leadCost lead)) as [n ->].
  apply add_Fin_notNaN, Hg.
Qed.

Lemma ltb_false_leb (a b : number) :
  isNaN a = false -> isNaN b = false -> ltb a b = false -> leb b a = true.
Proof.
  destruct a as [| | |x], b as [| | |y]; try discriminate; try reflexivity.
  cbn [ltb leb]. intros _ _ H. apply Z.ltb_ge in H. apply Z.leb_le. exact H.
Qed.

Lemma ltb_true_leb (a b : number) : ltb a b = true -> leb a b = true.
Proof.
  destruct a as [| | |x], b as [| | |y]; try discriminate; try reflexivity.
  cbn [ltb leb]. intros H. apply Z.ltb_lt in H. apply Z.leb_le. lia.
Qed.

Lemma insertSorted_head (x : WRow.t) (l : list WRow.t) :
  match insertSorted bySpendDesc x l with
  | h :: _ => h = x \/ (exists r, l = h :: r /\ ltb (rowSpend x) (rowSpend h) = true)
  | [] => False
  end.
Proof.
  destruct l as [|y r]; cbn [insertSorted]; [left; reflexivity|].
  unfold bySpendDesc. rewrite sub_positive.
  destruct (ltb (rowSpend x) (rowSpend y)) eqn:E.
  - right. exists r. split; [reflexivity | exact E].
  - left. reflexivity.
Qed.

Lemma insertSorted_descending (x : WRow.t) (l : list WRow.t) :
  isNaN (rowSpend x) = false ->
  Forall (fun r => isNaN (rowSpend r) = false) l ->
  descending (map rowSpend l) = true ->
  descending (map rowSpend (insertSorted bySpendDesc x l)) = true.
Proof.
  intros Hx. induction l as [|y r IH]; intros Hl Hd; [reflexivity|].
  inversion Hl as [|? ? Hy Hr]; subst.
  cbn [insertSorted]. unfold bySpendDesc at 1. rewrite sub_positive.
  destruct (ltb (rowSpend x) (rowSpend y)) eqn:E.
  - cbn [map descending] in Hd |- *. apply andb_true_iff in Hd as [Hhead Hrest].
    rewrite (IH Hr Hrest), andb_true_r.
    pose proof (insertSorted_head x r) as Hh.
    destruct (insertSorted bySpendDesc x r) as [|h t]; [contradiction|].
    cbn [map]. destruct Hh as [-> | (r' & -> & _)].
    + unfold geb. apply ltb_true_leb, E.
    + exact Hhead.
  - cbn [map descending] in Hd |- *. rewrite Hd, andb_true_r.
    unfold geb. apply ltb_false_leb; assumption.
Qed.

Lemma sortRows_descending (l : list WRow.t) :
  Forall (fun r => isNaN (rowSpend r) = false) l ->
  descending (map rowSpend (sortRows bySpendDesc l)) = true.
Proof.
  unfold sortRows. induction l as [|x l IH]; intros H; [reflexivity|].
  inversion H as [|? ? Hx Hl]; subst. cbn [fold_right].
  apply insertSorted_descending; [exact Hx | | apply IH, Hl].
  apply List.Forall_forall. intros r Hin.
  assert (Hp : Permutation (fold_right (insertSorted bySpendDesc) [] l) l)
    by apply (sortRows_perm bySpendDesc l).
  apply (Permutation_in _ Hp) in Hin.
  apply (proj1 (List.Forall_forall _ _) Hl), Hin.
Qed.

(** X14.  The rows of the weekly table come by decreasing spend: the
    spend of each row is at least the spend of the next, and no spend is
    NaN. *)
Theorem weekly_rows_by_spend (localDate : string -> option (Z * Z * Z))
    (leads : list Lead) (selectedMonth selectedWeek : string) :
  let table := rows (weekly localDate leads selectedMonth selectedWeek) in
  descending (map rowSpend table) = true
  /\ Forall (fun r => isNaN (rowSpend r) = false) table.
Proof.
  cbv zeta. rewrite weekly_windowLeads.
  set (filtered := windowLeads localDate leads selectedMonth selectedWeek).
  unfold weeklyOf. cbn [rows].
  set (grouped := fold_left groupStep filtered []).
  assert (Hg : Forall (fun e => isNaN (Grp.spend (snd e)) = false) grouped)
    by (apply grouped_spend_notNaN; constructor).
  assert (Hrows : Forall (fun r => isNaN (rowSpend r) = false)
                         (map toRow (objectEntries grouped))).
  { apply List.Forall_forall. intros r Hin. apply in_map_iff in Hin as (e & <- & He).
    apply (Permutation_in _ (objectEntries_perm grouped)) in He.
    unfold rowSpend. rewrite toRow_data.
    apply (proj1 (List.Forall_forall _ _) Hg), He. }
  split; [apply sortRows_descending, Hrows|].
  apply List.Forall_forall. intros r Hin.
  apply (Permutation_in _ (sortRows_perm bySpendDesc _)) in Hin.
  apply (proj1 (List.Forall_forall _ _) Hrows), Hin.
Qed.

Lemma groupAt_bump (key : string) (f : Grp.t -> Grp.t) (acc : Groups) (k : string) :
  groupAt k (bump key f acc)
  = if String.eqb key k then Some (f (default Grp.empty (groupAt key acc)))
    else groupAt k acc.
Proof.
  induction acc as [|[k' g] acc IH]; cbn [bump groupAt].
  - destruct (String.eqb key k); reflexivity.
  - destruct (String.eqb_spec k' key) as [->|Hne]; cbn [groupAt default].
    + destruct (String.eqb key k); reflexivity.
    + rewrite IH. destruct (String.eqb_spec key k) as [->|Hk].
      * destruct (String.eqb_spec k' k) as [E|_]; [contradiction | reflexivity].
      * reflexivity.
Qed.

Lemma bump_keys (key : string) (f : Grp.t -> Grp.t) (acc : Groups) :
  (In key (map fst acc) -> map fst (bump key f acc) = map fst acc)
  /\ (~ In key (map fst acc) -> map fst (bump key f acc) = (map fst acc ++ [key])%list).
Proof.
  induction acc as [|[k g] acc [IHin IHout]]; cbn [bump map fst In].
  - split; [contradiction | reflexivity].
  - destruct (String.eqb_spec k key) as [->|Hne]; cbn [map fst].
    + split; [reflexivity | intros H; exfalso; apply H; left; reflexivity].
    + split.
      * intros [E|Hin]; [contradiction|]. rewrite (IHin Hin). reflexivity.
      * intros Hout. rewrite IHout by (intros Hin; apply Hout; right; exact Hin).
        reflexivity.
Qed.

Lemma bump_NoDup (key : string) (f : Grp.t -> Grp.t) (acc : Groups) :
  NoDup (map fst acc) -> NoDup (map fst (bump key f acc)).
Proof.
  intros H. destruct (bump_keys key f acc) as [Hin Hout].
  destruct (in_dec string_dec key (map fst acc)) as [Hk|Hk].
  - rewrite (Hin Hk). exact H.
  - rewrite (Hout Hk). apply NoDup_app. split; [exact H|]. split.
    + intros x Hx [<-|[]]%list_elem_of_In. apply Hk, list_elem_of_In, Hx.
    + apply NoDup_singleton.
Qed.

Lemma grouped_NoDup (l : list Lead) (acc : Groups) :
  NoDup (map fst acc) -> NoDup (map fst (fold_left groupStep l acc)).
Proof.
  revert acc. induction l as [|lead l IH]; intros acc H; [exact H|].
  cbn [fold_left]. apply IH. unfold groupStep.
  destruct (isInherited (groupKey lead)); [exact H | apply bump_NoDup, H].
Qed.

Lemma groupAt_grouped (l : list Lead) (acc : Groups) (k : string) :
  groupAt k (fold_left groupStep l acc)
  = if isInherited k then groupAt k acc
    else match groupLeads k l with
         | [] => groupAt k acc
         | ls => Some (fold_left (fun g lead => addLead lead g) ls
                                 (default Grp.empty (groupAt k acc)))
         end.
Proof.
  revert acc. induction l as [|lead l IH]; intros acc.
  - cbn [fold_left groupLeads List.filter]. destruct (isInherited k); reflexivity.
  - cbn [fold_left]. rewrite IH. unfold groupLeads. cbn [List.filter].
    fold (groupLeads k l). unfold groupStep.
    destruct (isInherited k) eqn:Hk.
    + destruct (isInherited (groupKey lead)) eqn:Hl; [reflexivity|].
      rewrite groupAt_bump.
      destruct (String.eqb_spec (groupKey lead) k) as [E|_]; [|reflexivity].
      rewrite E, Hk in Hl. discriminate.
    + destruct (String.eqb_spec (groupKey lead) k) as [E|Hne].
      * rewrite E, Hk, groupAt_bump, String.eqb_refl. cbn [default fold_left].
        destruct (groupLeads k l); reflexivity.
      * destruct (isInherited (groupKey lead)); [reflexivity|].
        rewrite groupAt_bump.
        destruct (String.eqb_spec (groupKey lead) k) as [E|_]; [contradiction|].
        reflexivity.
Qed.

Lemma groupAt_In (k : string) (g : Grp.t) (acc : Groups) :
  groupAt k acc = Some g -> In (k, g) acc.
Proof.
  induction acc as [|[k' g'] acc IH]; cbn [groupAt]; [discriminate|].
  destruct (String.eqb_spec k' k) as [->|_].
  - intros [= ->]. left. reflexivity.
  - intros H. right. apply IH, H.
Qed.

Lemma In_groupAt (k : string) (g : Grp.t) (acc : Groups) :
  NoDup (map fst acc) -> In (k, g) acc -> groupAt k acc = Some g.
Proof.
  induction acc as [|[k' g'] acc IH]; cbn [map fst groupAt]; [contradiction|].
  intros Hnd [E|Hin].
  - injection E as -> ->. rewrite String.eqb_refl. reflexivity.
  - inversion Hnd as [|? ? Hk Hrest]; subst.
    destruct (String.eqb_spec k' k) as [->|_]; [|apply IH; assumption].
    exfalso. apply Hk. apply list_elem_of_In.
    change k with (fst (k, g)). apply in_map, Hin.
Qed.

Lemma map_source_toRow (acc : Groups) : map WRow.source (map toRow acc) = map fst acc.
Proof.
  induction acc as [|[k g] acc IH]; [reflexivity|]. cbn [map]. rewrite IH. reflexivity.
Qed.

(** X15.  The weekly table has one row for each source of the leads
    inside the window whose name is not a property every object
    inherits, and no other row.  A row carries what its leads add up to,
    taken in list order from the empty accumulator, with the cost per
    lead and the five-fold return computed from those sums. *)
Theorem weekly_rows_group_by_source (localDate : string -> option (Z * Z * Z))
    (leads : list Lead) (selectedMonth selectedWeek : string) :
  let filtered := windowLeads localDate leads selectedMonth selectedWeek in
  let table := rows (weekly localDate leads selectedMonth selectedWeek) in
  NoDup (map WRow.source table)
  /\ Forall (fun r =>
               isInherited (WRow.source r) = false
               /\ groupLeads (WRow.source r) filtered <> []
               /\ r = toRow (WRow.source r, groupOf (WRow.source r) filtered))
            table
  /\ Forall (fun lead : Lead =>
               isInherited (groupKey lead) = true
               \/ In (groupKey lead) (map WRow.source table))
            filtered.
Proof.
  cbv zeta. rewrite weekly_windowLeads.
  set (filtered := windowLeads localDate leads selectedMonth selectedWeek).
  unfold weeklyOf. cbn [rows].
  set (grouped := fold_left groupStep filtered []).
  pose proof (rows_perm grouped) as Hperm.
  assert (Hnd : NoDup (map fst grouped)) by (apply grouped_NoDup; constructor).
  assert (Hat : forall k, groupAt k grouped
                          = if isInherited k then None
                            else match groupLeads k filtered with
                                 | [] => None
                                 | _ => Some (groupOf k filtered)
                                 end).
  { intros k. unfold grouped. rewrite groupAt_grouped. cbn [groupAt default].
    unfold groupOf. destruct (isInherited k); [reflexivity|].
    destruct (groupLeads k filtered); reflexivity. }
  split_conj.
  - rewrite (Permutation_map WRow.source Hperm), map_source_toRow. exact Hnd.
  - apply List.Forall_forall. intros r Hin.
    apply (Permutation_in _ Hperm) in Hin.
    apply in_map_iff in Hin as ([k g] & <- & He).
    apply (In_groupAt _ _ _ Hnd) in He. rewrite Hat in He. cbn [toRow WRow.source].
    destruct (isInherited k); [discriminate|].
    destruct (groupLeads k filtered) as [|l0 ls]; [discriminate|].
    injection He as <-. split_conj; [reflexivity | discriminate | reflexivity].
  - apply List.Forall_forall. intros lead Hin.
    destruct (isInherited (groupKey lead)) eqn:Hk; [left; reflexivity | right].
    assert (Hne : groupLeads (groupKey lead) filtered <> []).
    { intros E. assert (Hl : In lead (groupLeads (groupKey lead) filtered)).
      { apply filter_In. split; [exact Hin | apply String.eqb_refl]. }
      rewrite E in Hl. contradiction. }
    specialize (Hat (groupKey lead)). rewrite Hk in Hat.
    destruct (groupLeads (groupKey lead) filtered) as [|l0 ls]; [contradiction|].
    apply groupAt_In in Hat.
    apply (Permutation_in _ (Permutation_sym (Permutation_map WRow.source Hperm))).
    rewrite map_source_toRow. change (groupKey lead) with (fst (groupKey lead, groupOf (groupKey lead) filtered)).
    apply in_map, Hat.
Qed.

(* ================================================================== *)
(** ** Month and week selectors *)
(* ================================================================== *)

Lemma digit_not_dash (c : ascii) : isDigit c = true -> Ascii.eqb c "-" = false.
Proof.
  intros H. destruct (Ascii.eqb_spec c "-") as [->|_]; [|reflexivity].
  vm_compute in H. discriminate.
Qed.

Lemma splitOn_plain (s : string) : any isDash s = false -> splitOn "-" s = [s].
Proof.
  induction s as [|c r IH]; [reflexivity|]. cbn [any splitOn]. unfold isDash at 1.
  intros H. apply orb_false_iff in H as [Hc Hr]. rewrite Hc, (IH Hr). reflexivity.
Qed.

Lemma splitOn_dash (a b : string) :
  any isDash a = false -> splitOn "-" (a ++ String "-" b) = a :: splitOn "-" b.
Proof.
  induction a as [|c r IH]; intros H.
  - reflexivity.
  - cbn [any] in H. unfold isDash at 1 in H. apply orb_false_iff in H as [Hc Hr].
    rewrite append_cons. cbn [splitOn]. rewrite Hc, (IH Hr). reflexivity.
Qed.

Lemma digits_no_dash (s : string) : all isDigit s = true -> any isDash s = false.
Proof.
  induction s as [|c r IH]; [reflexivity|]. cbn [all any]. intros H.
  apply andb_true_iff in H as [Hc Hr]. unfold isDash at 1.
  rewrite (digit_not_dash c Hc), (IH Hr). reflexivity.
Qed.

Lemma label_parts (a b : string) :
  all isDigit a = true -> all isDigit b = true ->
  splitOn "-" (a ++ "-" ++ b) = [a; b].
Proof.
  intros Ha Hb. change ("-" ++ b)%string with (String "-" b).
  rewrite splitOn_dash by (apply digits_no_dash, Ha).
  rewrite splitOn_plain by (apply digits_no_dash, Hb). reflexivity.
Qed.

Lemma all_append (p : ascii -> bool) (a b : string) :
  all p (a ++ b) = all p a && all p b.
Proof.
  induction a as [|c r IH]; [reflexivity|]. rewrite append_cons. cbn [all].
  rewrite IH, andb_assoc. reflexivity.
Qed.

Lemma digitsValueFrom_zeros (k : nat) (s : string) :
  digitsValueFrom 0 (repeatChar "0" k ++ s) = digitsValueFrom 0 s.
Proof.
  induction k as [|k IH]; [reflexivity|]. cbn [repeatChar]. rewrite append_cons.
  cbn [digitsValueFrom]. exact IH.
Qed.

Lemma padStart_digits (n : nat) (s : string) :
  all isDigit s = true -> nonEmpty s = true ->
  all isDigit (padStart n "0" s) = true
  /\ nonEmpty (padStart n "0" s) = true
  /\ digitsValue (padStart n "0" s) = digitsValue s.
Proof.
  intros Hall Hne. unfold padStart. split_conj.
  - rewrite all_append, Hall, andb_true_r.
    induction (n - String.length s)%nat as [|k IH]; [reflexivity | exact IH].
  - destruct (n - String.length s)%nat; [exact Hne | reflexivity].
  - apply digitsValueFrom_zeros.
Qed.

Lemma toMonthValue_parts (y mi : Z) :
  0 <= y -> 0 <= mi ->
  numberAt (splitOn "-" (toMonthValue y mi)) 0 = of_Z y
  /\ numberAt (splitOn "-" (toMonthValue y mi)) 1 = of_Z (mi + 1).
Proof.
  intros Hy Hm. unfold toMonthValue.
  destruct (ofZ_digits y Hy) as (Hy1 & Hy2 & Hy3).
  destruct (ofZ_digits (mi + 1)) as (Hm1 & Hm2 & Hm3); [lia|].
  destruct (padStart_digits 2 _ Hm1 Hm2) as (Hp1 & Hp2 & Hp3).
  rewrite label_parts by assumption. unfold numberAt. cbn [lookup list_lookup].
  rewrite (Number_digits _ Hy1 Hy2), (Number_digits _ Hp1 Hp2), Hy3, Hp3, Hm3.
  split; reflexivity.
Qed.

Lemma weekLabel_parts (a b : Z) :
  0 <= a -> 0 <= b ->
  numberAt (splitOn "-" (weekLabel a b)) 0 = of_Z a
  /\ numberAt (splitOn "-" (weekLabel a b)) 1 = of_Z b.
Proof.
  intros Ha Hb. unfold weekLabel.
  destruct (ofZ_digits a Ha) as (Ha1 & Ha2 & Ha3).
  destruct (ofZ_digits b Hb) as (Hb1 & Hb2 & Hb3).
  rewrite label_parts by assumption. unfold numberAt. cbn [lookup list_lookup].
  rewrite (Number_digits _ Ha1 Ha2), (Number_digits _ Hb1 Hb2), Ha3, Hb3.
  split; reflexivity.
Qed.

(** X16.  The month value written for a date reads back: split on the
    dash, its parts convert to the year and to the month number, one
    more than the month index, also when the month is padded with a
    zero. *)
Theorem toMonthValue_round_trip (fullYear monthIndex : Z) :
  0 <= fullYear -> 0 <= monthIndex ->
  splitOn "-" (toMonthValue fullYear monthIndex)
  = [ofZ fullYear; padStart 2 "0" (ofZ (monthIndex + 1))]
  /\ numberAt (splitOn "-" (toMonthValue fullYear monthIndex)) 0 = of_Z fullYear
  /\ numberAt (splitOn "-" (toMonthValue fullYear monthIndex)) 1 = of_Z (monthIndex + 1).
Proof.
  intros Hy Hm. split; [|apply toMonthValue_parts; assumption].
  unfold toMonthValue.
  destruct (ofZ_digits fullYear Hy) as (Hy1 & _ & _).
  destruct (ofZ_digits (monthIndex + 1)) as (Hm1 & Hm2 & _); [lia|].
  destruct (padStart_digits 2 _ Hm1 Hm2) as (Hp1 & _ & _).
  apply label_parts; assumption.
Qed.

Lemma toMonthValue_round_trip_witness :
  splitOn "-" (toMonthValue 2026 1) = [ofZ 2026; padStart 2 "0" (ofZ (1 + 1))]
  /\ numberAt (splitOn "-" (toMonthValue 2026 1)) 0 = of_Z 2026
  /\ numberAt (splitOn "-" (toMonthValue 2026 1)) 1 = of_Z (1 + 1).
Proof. apply toMonthValue_round_trip; lia. Defined.

(** X17.  For the month value of a date in the years 1 to 9999, the
    week labels are contiguous ranges of one to seven days from day 1 to
    the last day of the month of that date. *)
Theorem monthWeeks_of_toMonthValue (fullYear monthIndex : Z) :
  1 <= fullYear <= 9999 -> 0 <= monthIndex <= 11 ->
  let lastDay := daysInMonth fullYear (monthIndex + 1) in
  monthWeeks (toMonthValue fullYear monthIndex)
  = map rangeLabel (rangesLoop (Z.to_nat lastDay) 1 lastDay)
  /\ contiguousFrom 1 (rangesLoop (Z.to_nat lastDay) 1 lastDay) lastDay.
Proof.
  intros Hy Hm lastDay.
  destruct (toMonthValue_parts fullYear monthIndex) as [Hyear Hmonth]; [lia | lia |].
  pose proof (daysInMonth_range fullYear (monthIndex + 1)) as Hr. fold lastDay in Hr.
  split.
  - unfold monthWeeks. rewrite Hyear, Hmonth.
    rewrite !truthy_of_Z by (unfold wholeBound; lia). cbn [negb orb].
    rewrite lastDayOfMonth_valid by lia. apply weeksLoop_ranges.
  - apply rangesLoop_contiguous; lia.
Qed.

Lemma monthWeeks_of_toMonthValue_witness :
  let lastDay := daysInMonth 2026 (1 + 1) in
  monthWeeks (toMonthValue 2026 1)
  = map rangeLabel (rangesLoop (Z.to_nat lastDay) 1 lastDay)
  /\ contiguousFrom 1 (rangesLoop (Z.to_nat lastDay) 1 lastDay) lastDay.
Proof. apply monthWeeks_of_toMonthValue; lia. Defined.

Lemma strictEq_of_Z (a b : Z) :
  Z.abs a < wholeBound -> Z.abs b < wholeBound ->
  strictEq (of_Z a) (of_Z b) = (a =? b).
Proof.
  intros Ha Hb. rewrite (of_Z_exact a Ha), (of_Z_exact b Hb). cbn [strictEq].
  pose proof unit_scale_pos as Hu.
  destruct (number_eq_dec (Fin (a * unit_scale)) (Fin (b * unit_scale))) as [E|E];
    destruct (Z.eqb_spec a b) as [Hab|Hab]; try reflexivity.
  - injection E as E. exfalso. apply Hab. nia.
  - exfalso. apply E. rewrite Hab. reflexivity.
Qed.

Lemma leb_of_Z (a b : Z) :
  Z.abs a < wholeBound -> Z.abs b < wholeBound ->
  leb (of_Z a) (of_Z b) = (a <=? b).
Proof.
  intros Ha Hb. rewrite (of_Z_exact a Ha), (of_Z_exact b Hb). cbn [leb].
  pose proof unit_scale_pos as Hu.
  destruct (Z.leb_spec a b) as [H|H]; [apply Z.leb_le | apply Z.leb_gt]; nia.
Qed.

(** X18.  With the month written by [toMonthValue] and the week written
    by [weekLabel], the weekly table is computed from exactly the leads
    whose date falls in that year and month on a day from the first to
    the last day of the label, both included. *)
Theorem weekly_window_of_labels (localDate : string -> option (Z * Z * Z))
    (leads : list Lead) (y m a b : Z) :
  0 < y < wholeBound -> 0 < m < wholeBound ->
  0 < a < wholeBound -> 0 < b < wholeBound ->
  forallb (fun lead : Lead => boundedDate (localDate (date lead))) leads = true ->
  weekly localDate leads (toMonthValue y (m - 1)) (weekLabel a b)
  = weeklyOf (List.filter
                (fun lead : Lead => dayInRange y m a b (localDate (date lead)))
                leads).
Proof.
  intros Hy Hm Ha Hb Hdates. unfold weekly.
  destruct (toMonthValue_parts y (m - 1)) as [Hyear Hmonth]; [lia | lia |].
  destruct (weekLabel_parts a b) as [Hstart Hend]; [lia | lia |].
  replace (m - 1 + 1) with m in Hmonth by lia.
  rewrite Hyear, Hmonth, Hstart, Hend.
  rewrite !truthy_of_Z by assumption. cbn [negb orb]. f_equal.
  induction leads as [|lead leads IH]; [reflexivity|].
  cbn [forallb] in Hdates. apply andb_true_iff in Hdates as [Hd Hrest].
  cbn [List.filter]. rewrite (IH Hrest).
  assert (E : inWindow localDate (of_Z y) (of_Z m) (of_Z a) (of_Z b) lead
              = dayInRange y m a b (localDate (date lead))).
  { unfold inWindow, dayInRange.
    destruct (localDate (date lead)) as [[[y' m'] d]|]; [|reflexivity].
    cbn [boundedDate] in Hd.
    apply andb_true_iff in Hd as [Hd Hd3]. apply andb_true_iff in Hd as [Hd1 Hd2].
    apply Z.ltb_lt in Hd1, Hd2, Hd3. unfold geb.
    rewrite !strictEq_of_Z, !leb_of_Z by lia. reflexivity. }
  rewrite E. reflexivity.
Qed.

Lemma weekly_window_of_labels_witness :
  weekly isoDate dimeLeads (toMonthValue 2026 (4 - 1)) (weekLabel 1 7)
  = weeklyOf (List.filter
                (fun lead : Lead => dayInRange 2026 4 1 7 (isoDate (date lead)))
                dimeLeads).
Proof.
  apply weekly_window_of_labels;
    try (unfold wholeBound; lia); by_evaluation.
Defined.

(** X19.  A month selector without a dash, the empty one included, names
    no month: the week labels are the four fixed ones and the weekly
    table is empty whatever the week and the leads. *)
Theorem selectors_without_month (localDate : string -> option (Z * Z * Z))
    (leads : list Lead) (selectedMonth selectedWeek : string) :
  any isDash selectedMonth = false ->
  monthWeeks selectedMonth = ["1-7"; "8-14"; "15-21"; "22-28"]
  /\ weekly localDate leads selectedMonth selectedWeek = emptyWeekly.
Proof.
  intros H. unfold monthWeeks, weekly.
  rewrite (splitOn_plain _ H). unfold numberAt at 2 6. cbn [lookup list_lookup].
  cbn [truthy negb]. rewrite !orb_true_r. cbn [orb]. split; reflexivity.
Qed.

Lemma selectors_without_month_witness :
  monthWeeks "" = ["1-7"; "8-14"; "15-21"; "22-28"]
  /\ weekly isoDate dimeLeads "" "1-7" = emptyWeekly.
Proof. apply (selectors_without_month isoDate dimeLeads "" "1-7"). reflexivity. Defined.

(* ================================================================== *)
(** ** Scorecard transformer *)
(* ================================================================== *)

Lemma collect_Forall {A B : Type} (P : B -> Prop) (f : A -> option (list B))
    (l : list A) (out : list B) :
  (forall x ys, f x = Some ys -> Forall P ys) ->
  collect f l = Some out -> Forall P out.
Proof.
  intros Hf. revert out. induction l as [|x r IH]; intros out; cbn [collect].
  - intros [= <-]. constructor.
  - destruct (f x) as [ys|] eqn:E; [|discriminate].
    destruct (collect f r) as [zs|]; [|discriminate].
    intros [= <-]. apply Forall_app. split; [apply (Hf x), E | apply IH; reflexivity].
Qed.

Lemma nonEmpty_dated (a b : string) : nonEmpty (a ++ "-" ++ b) = true.
Proof. destruct a; reflexivity. Qed.

Lemma syntheticLead_shape (dateText source : string) (week : WeekColumn) (i : Z) :
  nonEmpty dateText = true -> 1 <= i ->
  trim source = source -> nonEmpty source = true ->
  includesNoCase "goal" source = false -> includesNoCase "actual" source = false ->
  syntheticShape (syntheticLead dateText source week i).
Proof.
  intros Hd Hi Ht Hs Hg Ha. unfold syntheticShape, syntheticLead.
  cbn [jobType leadCost soldAmount revenue jobWon booked sold cancelled
       replyTimeMinutes replyTimeCategory leadSource customer].
  split_conj; try reflexivity; try assumption.
  - exists i. split; [exact Hi | reflexivity].
  - unfold accepted. cbn [date customer]. rewrite Hd. reflexivity.
Qed.

Lemma weekLeads_shape (year : Z) (source : string) (row : list string)
    (week : WeekColumn) (out : list LeadInput) :
  trim source = source -> nonEmpty source = true ->
  includesNoCase "goal" source = false -> includesNoCase "actual" source = false ->
  weekLeads year source row week = Some out -> Forall syntheticShape out.
Proof.
  intros Ht Hs Hg Ha. unfold weekLeads. cbv zeta.
  destruct (negb (truthy _) || ltb _ (of_Z 1)); [intros [= <-]; constructor|].
  destruct (Number _) as [| | |n]; try discriminate.
  intros [= <-]. apply List.Forall_forall. intros lead Hin.
  apply in_map_iff in Hin as (i & <- & Hi). apply in_seq in Hi.
  apply syntheticLead_shape; try assumption; [|lia].
  unfold weekDate. cbv zeta. apply nonEmpty_dated.
Qed.

(** X20.  Every lead the scorecard transformer returns has the job type
    [Imported], the amounts [$0] and the flags [No]; its source is a
    trimmed, non-empty first cell that mentions neither goal nor actual,
    its customer is numbered from 1 within its cell, and its date and
    customer are not empty, so the import loop would not have skipped
    it. *)
Theorem parseScorecardToLeads_shape (year : Z) (text : string) :
  match parseScorecardToLeads year text with
  | Some leads => Forall syntheticShape leads
  | None => True
  end.
Proof.
  unfold parseScorecardToLeads, scorecardOfMatrix.
  destruct (csvToMatrix text) as [|first rest]; [constructor|].
  set (matrix := first :: rest).
  destruct (List.find _ matrix) as [headerRow|]; [|constructor].
  destruct (findIndex _ matrix) as [channelStart|]; [|constructor].
  cbv zeta. destruct (weekColumnsOf headerRow) as [|w ws]; [constructor|].
  set (weekColumns := w :: ws).
  destruct (collect (channelLeads year weekColumns) _) as [leadsOut|] eqn:E; [|exact I].
  destruct (_ <=? maxArrayLength); [|exact I].
  revert E. apply collect_Forall.
  intros row ys. unfold channelLeads. cbv zeta.
  set (source := trim (cellAt row 0)).
  destruct (nonEmpty source) eqn:Hs; cbn [negb orb]; [|intros [= <-]; constructor].
  destruct (includesNoCase "goal" source) eqn:Hg; cbn [orb]; [intros [= <-]; constructor|].
  destruct (includesNoCase "actual" source) eqn:Ha; [intros [= <-]; constructor|].
  apply collect_Forall. intros week out.
  apply weekLeads_shape; try assumption. apply trim_idempotent.
Qed.

Lemma integerString_of_Z (n : Z) : Z.abs n < wholeBound -> integerString (of_Z n) = ofZ n.
Proof.
  intros H. rewrite of_Z_exact by exact H. cbn [integerString].
  rewrite trunc_scaled. reflexivity.
Qed.

Lemma ltb_of_Z_one (n : Z) : 0 <= n < wholeBound -> ltb (of_Z n) (of_Z 1) = (n <? 1).
Proof.
  intros Hn. rewrite (of_Z_exact n), (of_Z_exact 1) by (unfold wholeBound in *; lia).
  cbn [ltb]. pose proof unit_scale_pos as Hu.
  destruct (Z.ltb_spec n 1) as [H|H]; [apply Z.ltb_lt | apply Z.ltb_ge]; nia.
Qed.

Lemma firstInteger_Number (raw : string) :
  0 <= firstInteger raw
  /\ Number (default "0" (matchDigits raw)) = of_Z (firstInteger raw).
Proof.
  unfold firstInteger. destruct (matchDigits raw) as [ds|] eqn:M; cbn [default].
  - destruct (matchDigits_digits _ _ M) as [Hall Hne].
    split; [apply digitsValueFrom_nonneg; [lia | exact Hall]|].
    apply Number_digits; assumption.
  - split; [lia | reflexivity].
Qed.

(** X21.  A scorecard cell gives as many leads as the integer spelled by
    its first run of digits, numbered from 1 in order and dated by the
    week of its column; a cell without a digit, a missing cell and a
    count of 0 give none. *)
Theorem weekLeads_count (year : Z) (source : string) (row : list string)
    (week : WeekColumn) :
  firstInteger (cellAt row (weekIdx week)) < wholeBound ->
  weekLeads year source row week
  = Some (map (fun i => syntheticLead (weekDate year week) source week (Z.of_nat i))
              (seq 1 (Z.to_nat (firstInteger (cellAt row (weekIdx week)))))).
Proof.
  intros Hn. unfold weekLeads. cbv zeta.
  destruct (firstInteger_Number (cellAt row (weekIdx week))) as [H0 ->].
  set (n := firstInteger (cellAt row (weekIdx week))) in *.
  destruct (Z.eq_dec n 0) as [->|Hnz]; [reflexivity|].
  rewrite truthy_of_Z by lia. rewrite ltb_of_Z_one by lia.
  destruct (Z.ltb_spec n 1) as [H|_]; [lia|]. cbn [negb orb].
  rewrite of_Z_exact by lia. rewrite trunc_scaled. reflexivity.
Qed.

Lemma weekLeads_count_witness :
  weekLeads 2026 "Yelp" ["Yelp"; "about 3 (2 booked)"] (weekOne "JAN: 6")
  = Some (map (fun i => syntheticLead (weekDate 2026 (weekOne "JAN: 6")) "Yelp"
                                      (weekOne "JAN: 6") (Z.of_nat i))
              (seq 1 (Z.to_nat (firstInteger (cellAt ["Yelp"; "about 3 (2 booked)"]
                                                  (weekIdx (weekOne "JAN: 6"))))))).
Proof. apply (weekLeads_count 2026 "Yelp"). by_evaluation. Defined.

Lemma weekMatchAt_digits (s m d : string) :
  weekMatchAt s = Some (m, d) ->
  all isDigit d = true /\ nonEmpty d = true /\ (String.length d <= 2)%nat.
Proof.
  unfold weekMatchAt.
  destruct s as [|a [|b [|c [|e r]]]]; try discriminate.
  destruct (Ascii.eqb_spec e ":") as [->|Hne].
  - destruct (isLetter a && isLetter b && isLetter c); [|discriminate].
    pose proof (span_fst_all isDigit (trimStart r)) as Hall.
    destruct (fst (span isDigit (trimStart r))) as [|d1 [|d2 t]]; [discriminate| |].
    + intros [= _ <-]. cbn [all] in Hall |- *. split_conj; [exact Hall | reflexivity | cbn; lia].
    + intros [= _ <-]. cbn [all] in Hall |- *.
      apply andb_true_iff in Hall as [H1 Hall]. apply andb_true_iff in Hall as [H2 _].
      rewrite H1, H2. split_conj; [reflexivity | reflexivity | cbn; lia].
  - destruct e as [[] [] [] [] [] [] [] []]; try discriminate; exfalso; apply Hne; reflexivity.
Qed.

Lemma weekMatch_digits (s m d : string) :
  weekMatch s = Some (m, d) ->
  all isDigit d = true /\ nonEmpty d = true /\ (String.length d <= 2)%nat.
Proof.
  induction s as [|c r IH].
  - cbn [weekMatch]. destruct (weekMatchAt "") as [[m' d']|] eqn:E; [|discriminate].
    intros [= -> ->]. apply (weekMatchAt_digits _ _ _ E).
  - cbn [weekMatch]. destruct (weekMatchAt (String c r)) as [[m' d']|] eqn:E; [|exact IH].
    intros [= -> ->]. apply (weekMatchAt_digits _ _ _ E).
Qed.

Lemma two_digits_bound (d : string) :
  all isDigit d = true -> (String.length d <= 2)%nat -> 0 <= digitsValue d <= 99.
Proof.
  intros Hall Hlen.
  assert (Hd : forall c, isDigit c = true -> 0 <= digitVal c <= 9).
  { intros c Hc. unfold isDigit in Hc. apply andb_true_iff in Hc as [Hlo Hhi].
    apply Z.leb_le in Hlo, Hhi. unfold digitVal. lia. }
  destruct d as [|d1 [|d2 [|d3 t]]]; cbn [String.length] in Hlen; try lia.
  - cbn. lia.
  - cbn [all] in Hall. apply andb_true_iff in Hall as [H1 _].
    pose proof (Hd d1 H1). unfold digitsValue. cbn [digitsValueFrom]. lia.
  - cbn [all] in Hall. apply andb_true_iff in Hall as [H1 Hall].
    apply andb_true_iff in Hall as [H2 _].
    pose proof (Hd d1 H1). pose proof (Hd d2 H2).
    unfold digitsValue. cbn [digitsValueFrom]. lia.
Qed.

Lemma monthLookup_range (key : string) (m : Z) :
  monthLookup monthMap key = Some m -> 1 <= m <= 12.
Proof.
  unfold monthMap. cbn [monthLookup].
  repeat (match goal with
          | |- context [String.eqb ?k key] => destruct (String.eqb k key)
          end; [intros [= <-]; lia|]).
  discriminate.
Qed.

(** X22.  The date given to the leads of a week column is the year, a
    month from 01 to 12 and a day from 00 to 99, each of the last two
    padded to two characters.  The month is January when the three
    letters name no month, and the day is not checked against the
    calendar. *)
Theorem weekDate_shape (year : Z) (week : WeekColumn) :
  exists m d,
    1 <= m <= 12 /\ 0 <= d <= 99
    /\ weekDate year week
       = ofZ year ++ "-" ++ padStart 2 "0" (ofZ m) ++ "-" ++ padStart 2 "0" (ofZ d).
Proof.
  unfold weekDate. cbv zeta.
  destruct (weekMatch (weekValue week)) as [[mon day]|] eqn:E.
  - destruct (weekMatch_digits _ _ _ E) as (Hall & Hne & Hlen).
    pose proof (two_digits_bound day Hall Hlen) as Hday.
    rewrite (Number_digits day Hall Hne).
    rewrite integerString_of_Z by (unfold wholeBound; lia).
    destruct (monthLookup monthMap (toUpperCase mon)) as [m|] eqn:Em.
    + pose proof (monthLookup_range _ _ Em) as Hm.
      destruct (Z.eqb_spec m 0) as [->|_]; [lia|].
      exists m, (digitsValue day). split_conj; try lia. reflexivity.
    + exists 1, (digitsValue day). split_conj; try lia. reflexivity.
  - exists 1, 1. rewrite integerString_of_Z by (vm_compute; reflexivity).
    split_conj; try lia. reflexivity.
Qed.

(* ================================================================== *)
(** ** Import: what reaches the store *)
(* ================================================================== *)

Lemma finishImport_written (f : File) (leads : list LeadInput) (store : Store)
    (status : string) (scorecard : bool) :
  exists written,
    outStore (finishImport f (mkImportLoop (addDocs leads store) (0 + countZ leads)) scorecard)
    = (store ++ written)%list
    /\ match written with
       | [] => In (outStatus (finishImport f (mkImportLoop (addDocs leads store)
                                                          (0 + countZ leads)) scorecard))
                  (quietStatuses status)
       | _ => outStatus (finishImport f (mkImportLoop (addDocs leads store)
                                                      (0 + countZ leads)) scorecard)
              = "Imported " ++ ofZ (countZ written) ++ " leads from " ++ fileName f
       end.
Proof.
  destruct (addDocs_prefix leads store) as (written & Hw & Hd).
  exists written. unfold finishImport. cbn [outStore outStatus loopStore importedCount].
  split; [exact Hw|].
  assert (Hc : countZ written = countZ leads).
  { unfold countZ. rewrite <- Hd, length_map. reflexivity. }
  rewrite Z.add_0_l, <- Hc.
  destruct written as [|d ds].
  - cbn. right. right. right. left. reflexivity.
  - destruct (Z.eqb_spec (countZ (d :: ds)) 0) as [E|_]; [|reflexivity].
    unfold countZ in E. cbn [length] in E. lia.
Qed.

(** X23.  An import only appends: the documents of the collection stay,
    in place and unchanged, in front of the ones it writes.  When it
    writes at least one document the status names their number and the
    file; when it writes none the status is the one it found or one of
    its three fixed messages. *)
Theorem handleFileImport_appends
    (jsonRows : string -> option (list Row))
    (sheetRows : string -> option (list (list (string * string))))
    (year : Z) (user : bool) (file : option File) (store : Store) (status : string) :
  let out := handleFileImport jsonRows sheetRows year user file store status in
  exists written,
    outStore out = (store ++ written)%list
    /\ match written with
       | [] => In (outStatus out) (quietStatuses status)
       | _ => exists f, file = Some f
                        /\ outStatus out
                           = "Imported " ++ ofZ (countZ written)
                             ++ " leads from " ++ fileName f
       end.
Proof.
  cbv zeta.
  assert (Hquiet : forall (s : string) (sc : bool),
             In s (quietStatuses status) ->
             exists written,
               outStore (mkImportOutcome store s sc) = (store ++ written)%list
               /\ match written with
                  | [] => In (outStatus (mkImportOutcome store s sc)) (quietStatuses status)
                  | _ => exists f, file = Some f
                                   /\ outStatus (mkImportOutcome store s sc)
                                      = "Imported " ++ ofZ (countZ written)
                                        ++ " leads from " ++ fileName f
                  end).
  { intros s sc Hs. exists []. rewrite app_nil_r. split; [reflexivity | exact Hs]. }
  unfold handleFileImport.
  destruct user; cbn [negb]; [|apply Hquiet; left; reflexivity].
  destruct file as [f|]; [|apply Hquiet; left; reflexivity].
  destruct (readRows jsonRows sheetRows f) as [[|row rest]|];
    [apply Hquiet; right; right; left; reflexivity
    | | apply Hquiet; right; left; reflexivity].
  cbv zeta. rewrite importRows_count_zero.
  rewrite importRows_spec. cbn [loopStore importedCount].
  destruct (acceptedLeads (row :: rest)) as [|l ls] eqn:Ea.
  - cbn [andb map].
    destruct (endsWith ".csv" (toLowerCase (fileName f))
              || endsWith ".tsv" (toLowerCase (fileName f))).
    + destruct (parseScorecardToLeads year (fileContent f)) as [leads|].
      * rewrite importScorecard_spec. cbn [loopStore importedCount addDocs fold_left].
        change (fold_left (fun s lead => addDoc lead s) (map stamp leads) store)
          with (addDocs (map stamp leads) store).
        replace (countZ leads) with (countZ (map stamp leads))
          by (unfold countZ; rewrite length_map; reflexivity).
        destruct (finishImport_written f (map stamp leads) store status true)
          as (written & Hw & Hs).
        exists written. split; [exact Hw|].
        destruct written; [exact Hs | exists f; split; [reflexivity | exact Hs]].
      * exists []. rewrite app_nil_r. split; [reflexivity|].
        cbn [outStatus]. right. left. reflexivity.
    + exists []. rewrite app_nil_r. split; [reflexivity|].
      cbn. right. right. right. left. reflexivity.
  - cbn [andb].
    replace (countZ (l :: ls)) with (countZ (map stamp (l :: ls)))
      by (unfold countZ; rewrite length_map; reflexivity).
    destruct (finishImport_written f (map stamp (l :: ls)) store status false)
      as (written & Hw & Hs).
    exists written. split; [exact Hw|].
    destruct written; [exact Hs | exists f; split; [reflexivity | exact Hs]].
Qed.

(* ================================================================== *)
(** ** Deleting the collection *)
(* ================================================================== *)

Lemma commitBatch_filter (ids batch : list nat) (store : Store) :
  commitBatch batch (commitBatch ids store) = commitBatch (ids ++ batch) store.
Proof.
  unfold commitBatch. induction store as [|d store IH]; [reflexivity|].
  cbn [List.filter]. rewrite existsb_app.
  destruct (existsb (Nat.eqb (docId d)) ids) eqn:E; cbn [negb orb].
  - exact IH.
  - cbn [List.filter]. rewrite IH. reflexivity.
Qed.

Lemma commitBatch_nil (store : Store) : commitBatch [] store = store.
Proof.
  unfold commitBatch. induction store as [|d store IH]; [reflexivity|].
  cbn [List.filter existsb negb]. f_equal. exact IH.
Qed.

Lemma commitBatch_all (ids : list nat) (store : Store) :
  (forall d, In d store -> In (docId d) ids) -> commitBatch ids store = [].
Proof.
  unfold commitBatch. induction store as [|d store IH]; intros H; [reflexivity|].
  cbn [List.filter].
  assert (E : existsb (Nat.eqb (docId d)) ids = true).
  { apply existsb_exists. exists (docId d). split; [apply H; left; reflexivity|].
    apply Nat.eqb_refl. }
  rewrite E. cbn [negb]. apply IH. intros d' Hd'. apply H. right. exact Hd'.
Qed.

Lemma deleteLoop_invariant (store0 : Store) (rows : list Doc) (st : DeleteLoop) :
  opCount st = Z.of_nat (length (delBatch st)) ->
  opCount st < batchLimit ->
  Forall (fun b => Z.of_nat (length b) = batchLimit) (committed st) ->
  delStore st = commitBatch (concat (committed st)) store0 ->
  let st' := fold_left deleteStep rows st in
  opCount st' = Z.of_nat (length (delBatch st'))
  /\ opCount st' < batchLimit
  /\ Forall (fun b => Z.of_nat (length b) = batchLimit) (committed st')
  /\ delStore st' = commitBatch (concat (committed st')) store0
  /\ (concat (committed st') ++ delBatch st'
      = concat (committed st) ++ delBatch st ++ map docId rows)%list
  /\ deleted st' = deleted st + countZ rows.
Proof.
  revert st. induction rows as [|row rows IH]; intros st Hop Hlt Hfull Hstore; cbv zeta.
  - cbn [fold_left map]. rewrite app_nil_r. unfold countZ. cbn [length].
    split_conj; try assumption; [reflexivity | lia].
  - cbn [fold_left].
    assert (Hlen : Z.of_nat (length (delBatch st ++ [docId row])) = opCount st + 1).
    { rewrite length_app. cbn [length]. lia. }
    specialize (IH (deleteStep st row)). cbv zeta in IH.
    unfold deleteStep in IH |- *. cbv zeta in IH |- *.
    destruct (Z.eqb_spec (opCount st + 1) batchLimit) as [E|E].
    + cbn [opCount delBatch committed delStore deleted] in IH.
      destruct IH as (H1 & H2 & H3 & H4 & H5 & H6).
      * reflexivity.
      * unfold batchLimit. lia.
      * apply Forall_app. split; [exact Hfull|]. constructor; [|constructor]. lia.
      * rewrite Hstore, commitBatch_filter, concat_app. cbn [concat].
        rewrite app_nil_r. reflexivity.
      * split_conj; try assumption.
        -- rewrite H5, concat_app. cbn [concat map].
           rewrite !app_nil_r, <- !app_assoc. reflexivity.
        -- rewrite H6. unfold countZ. cbn [length]. lia.
    + cbn [opCount delBatch committed delStore deleted] in IH.
      destruct IH as (H1 & H2 & H3 & H4 & H5 & H6).
      * symmetry. exact Hlen.
      * lia.
      * exact Hfull.
      * exact Hstore.
      * split_conj; try assumption.
        -- rewrite H5. cbn [map]. rewrite <- !app_assoc. reflexivity.
        -- rewrite H6. unfold countZ. cbn [length]. lia.
Qed.

(** X24.  Once confirmed by a signed-in user, the deletion empties the
    collection in batches that hold, in order, the documents of the
    snapshot: every batch has from 1 to 400 deletions, every batch but
    the last has exactly 400, and the message counts the documents.
    An empty collection commits no batch. *)
Theorem deleteAllLeads_batches (store : Store) (message : string) :
  let out := deleteAllLeads true true store message in
  leftStore out = []
  /\ concat (batches out) = map docId store
  /\ Forall (fun b => 1 <= Z.of_nat (length b) <= batchLimit) (batches out)
  /\ Forall (fun b => Z.of_nat (length b) = batchLimit) (removelast (batches out))
  /\ leftMessage out
     = match store with
       | [] => "No leads to delete."
       | _ => "Deleted " ++ ofZ (countZ store) ++ " leads."
       end.
Proof.
  cbv zeta. unfold deleteAllLeads. cbn [negb].
  destruct store as [|d0 rest]; [split_conj; try reflexivity; constructor|].
  set (store := d0 :: rest).
  destruct (deleteLoop_invariant store store (mkDeleteLoop store [] 0 0 []))
    as (H1 & H2 & H3 & H4 & H5 & H6).
  { reflexivity. } { reflexivity. } { constructor. }
  { cbn [delStore committed concat]. symmetry. apply commitBatch_nil. }
  cbv zeta in H1, H2, H3, H4, H5, H6.
  set (st := fold_left deleteStep store (mkDeleteLoop store [] 0 0 [])) in *.
  cbn [committed delBatch deleted concat app] in H5, H6.
  cbv zeta.
  assert (Hall : forall ids, ids = map docId store -> commitBatch ids store = []).
  { intros ids ->. apply commitBatch_all. intros d Hd. apply in_map, Hd. }
  destruct (Z.ltb_spec 0 (opCount st)) as [Hpos|Hzero];
    cbn [leftStore leftMessage batches delStore deleted committed].
  - split_conj.
    + rewrite H4, commitBatch_filter. apply Hall. exact H5.
    + rewrite concat_app. cbn [concat]. rewrite app_nil_r. exact H5.
    + apply Forall_app. split.
      * eapply List.Forall_impl; [|exact H3]. cbv beta. intros b Hb.
        rewrite Hb. unfold batchLimit. lia.
      * constructor; [lia | constructor].
    + rewrite removelast_last. exact H3.
    + rewrite H6, Z.add_0_l. reflexivity.
  - assert (Hnil : delBatch st = []).
    { destruct (delBatch st); [reflexivity|]. cbn [length] in H1. lia. }
    rewrite Hnil, app_nil_r in H5.
    split_conj.
    + rewrite H4. apply Hall. exact H5.
    + exact H5.
    + eapply List.Forall_impl; [|exact H3]. cbv beta. intros b Hb.
      rewrite Hb. unfold batchLimit. lia.
    + clear - H3. induction (committed st) as [|b l IH]; [constructor|].
      inversion H3 as [|? ? Hb Hl]; subst. cbn [removelast].
      destruct l; [constructor | constructor; [exact Hb | apply IH, Hl]].
    + rewrite H6, Z.add_0_l. reflexivity.
Qed.

Example deleteAllLeads_thousand :
  map (@length nat) (batches (deleteAllLeads true true (sampleStore 1000) ""))
  = [400; 400; 200]%nat
  /\ leftMessage (deleteAllLeads true true (sampleStore 1000) "") = "Deleted 1000 leads.".
Proof. split; vm_compute; reflexivity. Qed.

(* ================================================================== *)
(** ** Reading the collection *)
(* ================================================================== *)

Lemma orElse_empty_r (a : string) : orElse a "" = a.
Proof. destruct a; reflexivity. Qed.

Lemma yesNo_eta (v : YesNo) : match v with Yes => Yes | No => No end = v.
Proof. destruct v; reflexivity. Qed.

(** X25.  A lead read back from the document that a write stored for it
    is the lead that was written, field for field, when it carries no
    legacy reply time, as no lead written by the form or by an import
    does. *)
Theorem fromSnapshot_round_trip (itemId : string) (lead : LeadInput) :
  replyTime lead = None ->
  fromSnapshot itemId (storedFields lead) = mkLead itemId lead.
Proof.
  intros Hrt. destruct lead as [d c ls jt lc jw cm rc rm bk sd cn sa rv rt].
  cbn [replyTime] in Hrt. subst rt.
  unfold fromSnapshot, storedFields. cbv zeta.
  cbn [rawDate rawCustomer rawLeadSource rawJobType rawLeadCost rawJobWon rawComments
       rawReplyTimeCategory rawReplyTimeMinutes rawBooked rawSold rawCancelled
       rawSoldAmount rawRevenue rawReplyTime date customer leadSource jobType leadCost
       jobWon comments replyTimeCategory replyTimeMinutes booked sold cancelled
       soldAmount revenue replyTime default].
  rewrite orElse_empty_r. destruct jw, cn; reflexivity.
Qed.

Lemma fromSnapshot_round_trip_witness :
  fromSnapshot "a1" (storedFields (stamp (normalizeImportedLead soldOnlyRow)))
  = mkLead "a1" (stamp (normalizeImportedLead soldOnlyRow)).
Proof. apply fromSnapshot_round_trip. reflexivity. Defined.

(** X26.  A document without the minutes field always yields reply
    minutes once read: the integer spelled by the first run of digits of
    its legacy reply time, and 0 when that text has no digit or is
    missing. *)
Theorem getReplyMinutes_of_legacy_document (itemId : string) (data : RawDoc) :
  nonEmpty (default "" (rawReplyTimeMinutes data)) = false ->
  getReplyMinutes (fromSnapshot itemId data)
  = Some (of_Z (firstInteger (default "" (rawReplyTime data)))).
Proof.
  intros Hm. unfold getReplyMinutes, fromSnapshot. cbv zeta.
  cbn [input replyTimeMinutes replyTime].
  unfold orElse. rewrite Hm. unfold firstInteger.
  destruct (rawReplyTime data) as [rt|]; cbn [from_option Datatypes.id]; [|reflexivity].
  destruct (matchDigits rt) as [found|] eqn:M; cbn [from_option Datatypes.id]; [|reflexivity].
  destruct (matchDigits_digits _ _ M) as [Hall Hne].
  rewrite (Number_digits found Hall Hne).
  destruct (isFinite (of_Z (digitsValue found)) && geb (of_Z (digitsValue found)) zero);
    [reflexivity|].
  destruct rt as [|c r]; [discriminate M|]. reflexivity.
Qed.

Lemma getReplyMinutes_of_legacy_document_witness :
  getReplyMinutes (fromSnapshot "a1" (legacyDoc "about 15 min"))
  = Some (of_Z (firstInteger (default "" (rawReplyTime (legacyDoc "about 15 min"))))).
Proof. apply getReplyMinutes_of_legacy_document. reflexivity. Defined.

(* ================================================================== *)
(** ** Weekly table: sources named like inherited properties, ratios *)
(* ================================================================== *)

Lemma grouped_ownLeads (l : list Lead) (acc : Groups) :
  fold_left groupStep l acc = fold_left groupStep (ownLeads l) acc.
Proof.
  revert acc. induction l as [|lead l IH]; intros acc; [reflexivity|].
  unfold ownLeads. cbn [fold_left List.filter]. fold (ownLeads l).
  assert (Hstep : groupStep acc lead
                  = if isInherited (groupKey lead) then acc
                    else bump (groupKey lead) (addLead lead) acc) by reflexivity.
  destruct (isInherited (groupKey lead)) eqn:E; cbn [negb].
  - rewrite Hstep. apply IH.
  - cbn [fold_left]. apply IH.
Qed.

Lemma ownLeads_ownKeys (l : list Lead) : ownKeys (ownLeads l).
Proof.
  unfold ownKeys, ownLeads. apply List.Forall_forall. intros lead Hin.
  apply filter_In in Hin as [_ H]. apply negb_true_iff in H. exact H.
Qed.

Lemma weeklyOf_ownLeads (l : list Lead) :
  rows (weeklyOf l) = rows (weeklyOf (ownLeads l))
  /\ Totals.sums (totals (weeklyOf l)) = Totals.sums (totals (weeklyOf (ownLeads l))).
Proof.
  unfold weeklyOf. cbn [rows totals Totals.sums].
  rewrite <- (grouped_ownLeads l []). split; reflexivity.
Qed.

(** X27.  A lead whose source is named like a property that every object
    inherits takes part in no row and in no sum of the weekly table:
    rows and sums are those of the other leads of the window, whose
    number, booked, sold and cancelled leads the totals count.  The
    average reply time alone is taken over every lead of the window. *)
Theorem weekly_skips_inherited_sources (localDate : string -> option (Z * Z * Z))
    (leads : list Lead) (selectedMonth selectedWeek : string) :
  let filtered := windowLeads localDate leads selectedMonth selectedWeek in
  let table := weekly localDate leads selectedMonth selectedWeek in
  rows table = rows (weeklyOf (ownLeads filtered))
  /\ Totals.sums (totals table) = Totals.sums (totals (weeklyOf (ownLeads filtered)))
  /\ Grp.leads (Totals.sums (totals table)) = countZ (ownLeads filtered)
  /\ Grp.booked (Totals.sums (totals table)) = directCount booked (ownLeads filtered)
  /\ Grp.sold (Totals.sums (totals table)) = directCount sold (ownLeads filtered)
  /\ Grp.cancelled (Totals.sums (totals table)) = directCount cancelled (ownLeads filtered)
  /\ Totals.avgReplyMins (totals table) = average (replyTimesOf filtered).
Proof.
  cbv zeta. rewrite weekly_windowLeads.
  set (filtered := windowLeads localDate leads selectedMonth selectedWeek).
  destruct (weeklyOf_ownLeads filtered) as [Hrows Hsums].
  pose proof (ownLeads_ownKeys filtered) as Hown.
  split_conj.
  - exact Hrows.
  - exact Hsums.
  - rewrite Hsums, <- zsum_ones.
    apply (totals_count Grp.leads (fun _ => 1)); [reflexivity | reflexivity | reflexivity | exact Hown].
  - rewrite Hsums, directCount_zsum.
    apply (totals_count Grp.booked (fun lead => yesCount (booked lead)));
      [reflexivity | reflexivity | reflexivity | exact Hown].
  - rewrite Hsums, directCount_zsum.
    apply (totals_count Grp.sold (fun lead => yesCount (sold lead)));
      [reflexivity | reflexivity | reflexivity | exact Hown].
  - rewrite Hsums, directCount_zsum.
    apply (totals_count Grp.cancelled (fun lead => yesCount (cancelled lead)));
      [reflexivity | reflexivity | reflexivity | exact Hown].
  - reflexivity.
Qed.

Lemma windowLeads_count (localDate : string -> option (Z * Z * Z))
    (leads : list Lead) (selectedMonth selectedWeek : string) :
  0 <= countZ (ownLeads (windowLeads localDate leads selectedMonth selectedWeek))
    <= countZ leads.
Proof.
  unfold windowLeads. cbv zeta.
  match goal with |- context [if ?c then _ else _] => destruct c end.
  - unfold countZ. cbn. lia.
  - unfold ownLeads.
    pose proof (filter_count (fun lead : Lead => negb (isInherited (groupKey lead)))
                  (List.filter (inWindow localDate
                                  (numberAt (splitOn "-" selectedMonth) 0)
                                  (numberAt (splitOn "-" selectedMonth) 1)
                                  (numberAt (splitOn "-" selectedWeek) 0)
                                  (numberAt (splitOn "-" selectedWeek) 1)) leads)) as H1.
    pose proof (filter_count (inWindow localDate
                                  (numberAt (splitOn "-" selectedMonth) 0)
                                  (numberAt (splitOn "-" selectedMonth) 1)
                                  (numberAt (splitOn "-" selectedWeek) 0)
                                  (numberAt (splitOn "-" selectedWeek) 1)) leads) as H2.
    lia.
Qed.

Lemma directCount_le (flag : Lead -> YesNo) (l : list Lead) :
  0 <= directCount flag l <= countZ l.
Proof. unfold directCount. apply filter_count. Qed.

(** X28.  The booking rate shown for a week is a number from 0 to 1:
    the booked leads of the table are among its leads, and the rate is
    0 when the table has no lead. *)
Theorem weeklyRatios_bookingRate_bounds (localDate : string -> option (Z * Z * Z))
    (leads : list Lead) (selectedMonth selectedWeek : string) :
  countZ leads < wholeBound ->
  let rate := Ratios.bookingRate
                (weeklyRatios (weekly localDate leads selectedMonth selectedWeek)) in
  geb rate zero = true /\ leb rate (of_Z 1) = true.
Proof.
  intros Hlen. cbv zeta. unfold weeklyRatios. cbv zeta. cbn [Ratios.bookingRate].
  rewrite weekly_windowLeads.
  set (filtered := windowLeads localDate leads selectedMonth selectedWeek).
  destruct (weeklyOf_ownLeads filtered) as [_ Hsums]. rewrite Hsums.
  pose proof (ownLeads_ownKeys filtered) as Hown.
  assert (Hleads : Grp.leads (Totals.sums (totals (weeklyOf (ownLeads filtered))))
                   = countZ (ownLeads filtered)).
  { rewrite <- zsum_ones.
    apply (totals_count Grp.leads (fun _ => 1)); [reflexivity | reflexivity | reflexivity | exact Hown]. }
  assert (Hbooked : Grp.booked (Totals.sums (totals (weeklyOf (ownLeads filtered))))
                    = directCount booked (ownLeads filtered)).
  { rewrite directCount_zsum.
    apply (totals_count Grp.booked (fun lead => yesCount (booked lead)));
      [reflexivity | reflexivity | reflexivity | exact Hown]. }
  rewrite Hleads, Hbooked.
  pose proof (windowLeads_count localDate leads selectedMonth selectedWeek) as Hc.
  fold filtered in Hc.
  pose proof (directCount_le booked (ownLeads filtered)) as Hb.
  rewrite (of_Z_exact 1) by (vm_compute; reflexivity). rewrite Z.mul_1_l.
  destruct (Z.ltb_spec 0 (countZ (ownLeads filtered))) as [Hpos|_].
  - destruct (ratio_bounded (directCount booked (ownLeads filtered))
                            (countZ (ownLeads filtered))) as (r & Hr & ->); [lia | lia |].
    cbn [geb leb zero]. split; apply Z.leb_le; lia.
  - pose proof unit_scale_pos. cbn [geb leb zero]. split; apply Z.leb_le; lia.
Qed.

Lemma weeklyRatios_bookingRate_bounds_witness :
  let rate := Ratios.bookingRate (weeklyRatios (weekly isoDate dimeLeads "2026-04" "1-7")) in
  geb rate zero = true /\ leb rate (of_Z 1) = true.
Proof.
  apply (weeklyRatios_bookingRate_bounds isoDate dimeLeads "2026-04" "1-7").
  vm_compute. reflexivity.
Defined.

(* ================================================================== *)
(** ** Average reply time *)
(* ================================================================== *)

Lemma replyTimesOf_sign (leads : list Lead) :
  Forall (fun m => geb m zero = true) (replyTimesOf leads).
Proof.
  unfold replyTimesOf. induction leads as [|lead leads IH]; [constructor|].
  cbn [omap list_omap]. destruct (getReplyMinutes lead) as [m|] eqn:E; [|exact IH].
  constructor; [apply (getReplyMinutes_sign lead), E | exact IH].
Qed.

Lemma geb_zero_cases (x : number) :
  geb x zero = true -> x = PInf \/ exists n, 0 <= n /\ x = Fin n.
Proof.
  destruct x as [| | |n]; try discriminate; [left; reflexivity|].
  cbn [geb leb zero]. intros H. apply Z.leb_le in H. right. exists n. split; [exact H | reflexivity].
Qed.

Lemma add_sign (x y : number) :
  geb x zero = true -> geb y zero = true -> geb (add x y) zero = true.
Proof.
  intros Hx Hy.
  destruct (geb_zero_cases x Hx) as [-> | (a & Ha & ->)];
    destruct (geb_zero_cases y Hy) as [-> | (b & Hb & ->)]; try reflexivity.
  cbn [add].
  destruct (round_units_nonneg (a + b) 1) as (r & Hr & [-> | ->]); [lia | lia | | reflexivity].
  cbn [geb leb zero]. apply Z.leb_le. exact Hr.
Qed.

Lemma sumNumbers_sign (values : list number) (acc : number) :
  geb acc zero = true -> Forall (fun m => geb m zero = true) values ->
  geb (fold_left add values acc) zero = true.
Proof.
  revert acc. induction values as [|v values IH]; intros acc Hacc H; [exact Hacc|].
  inversion H as [|? ? Hv Hrest]; subst. cbn [fold_left].
  apply IH; [apply add_sign; assumption | exact Hrest].
Qed.

Lemma average_sign (values : list number) :
  countZ values < wholeBound ->
  Forall (fun m => geb m zero = true) values ->
  geb (average values) zero = true.
Proof.
  intros Hlen H. unfold average.
  destruct (Z.ltb_spec 0 (countZ values)) as [Hpos|_]; [|reflexivity].
  pose proof (sumNumbers_sign values zero eq_refl H) as Hs.
  unfold sumNumbers. rewrite of_Z_exact by lia.
  pose proof unit_scale_pos as Hu.
  destruct (geb_zero_cases _ Hs) as [-> | (a & Ha & ->)].
  - cbn [div]. destruct (Z.leb_spec 0 (countZ values * unit_scale)); [reflexivity | nia].
  - cbn [div]. destruct (Z.eqb_spec (countZ values * unit_scale) 0) as [E|_]; [nia|].
    rewrite Z.sgn_pos, Z.abs_eq by nia. rewrite Z.mul_1_r.
    destruct (round_units_nonneg (a * unit_scale) (countZ values * unit_scale))
      as (r & Hr & [-> | ->]); [nia | nia | | reflexivity].
    cbn [geb leb zero]. apply Z.leb_le. exact Hr.
Qed.

(** X29.  The average reply time of the headline figures and the one of
    the weekly totals are never NaN and never negative, for fewer than
    2^53 leads; without any reply time they are 0. *)
Theorem average_reply_nonnegative (localDate : string -> option (Z * Z * Z))
    (leads : list Lead) (selectedMonth selectedWeek : string) :
  countZ leads < wholeBound ->
  geb (avgReplyTime (stats leads)) zero = true
  /\ geb (Totals.avgReplyMins (totals (weekly localDate leads selectedMonth selectedWeek)))
         zero = true.
Proof.
  intros Hlen.
  assert (Hcount : forall l : list Lead, countZ (replyTimesOf l) <= countZ l).
  { intros l. unfold countZ, replyTimesOf. induction l as [|x l IH]; [cbn; lia|].
    cbn [omap list_omap]. destruct (getReplyMinutes x); cbn [length]; lia. }
  split.
  - unfold stats. cbn [avgReplyTime]. apply average_sign; [|apply replyTimesOf_sign].
    pose proof (Hcount leads). lia.
  - rewrite weekly_windowLeads. unfold weeklyOf. cbn [totals Totals.avgReplyMins].
    apply average_sign; [|apply replyTimesOf_sign].
    pose proof (Hcount (windowLeads localDate leads selectedMonth selectedWeek)) as H1.
    assert (H2 : countZ (windowLeads localDate leads selectedMonth selectedWeek)
                 <= countZ leads).
    { unfold windowLeads. cbv zeta.
      match goal with |- context [if ?c then _ else _] => destruct c end.
      - unfold countZ. cbn. lia.
      - apply filter_count. }
    lia.
Qed.

Lemma average_reply_nonnegative_witness :
  geb (avgReplyTime (stats dimeLeads)) zero = true
  /\ geb (Totals.avgReplyMins (totals (weekly isoDate dimeLeads "2026-04" "1-7")))
         zero = true.
Proof. apply average_reply_nonnegative. vm_compute. reflexivity. Defined.
